(** * A shallow embedding of the dice-betting bot (src/bot.py)

    The bot keeps its state in five SQLite tables (users, bets, rounds,
    settings, balance_logs), one module-level variable
    ([current_round_id]) and the per-user dice buffer of the chat
    framework.  Tables are modelled as lists of records in rowid order,
    handlers as total functions from a state and the content of the
    incoming update to a new state and a reply tag.

    Conventions of the model:
    - Text is a [string] holding the UTF-8 bytes of the Python [str]; a
      literal such as ["大"] is the three bytes of that character.  The
      regular-expression classes [\d] and [\s] and the method [str.strip]
      are modelled on their ASCII members.
    - SQLite INTEGER columns and Python [int] are [Z].  A message holds
      at most 4096 characters, so [int()] on a run of digits never meets
      its limit of 4300 digits.
    - A handler that leaves its [with get_db_connection()] block without
      [conn.commit()] loses its pending writes when the connection is
      closed; the model returns the state as it was committed.
    - Times are numbers ordered like the formatted timestamps; the day
      stamp [strftime('%Y%m%d')] is a separate string of the clock. *)

From Stdlib Require Import ZArith List String Ascii Bool Lia.
From Stdlib Require Import DecimalString.
Import ListNotations.

Local Open Scope string_scope.
Local Open Scope Z_scope.

(** ** Text primitives *)

Module Text.

(** [\d], restricted to ASCII. *)
Definition is_digit (c : ascii) : bool :=
  let n := N_of_ascii c in ((48 <=? n) && (n <=? 57))%N.

(** [\s] and [str.isspace], restricted to ASCII:
    TAB, LF, VT, FF, CR, FS, GS, RS, US and SPACE. *)
Definition is_space (c : ascii) : bool :=
  let n := N_of_ascii c in
  (((9 <=? n) && (n <=? 13)) || ((28 <=? n) && (n <=? 32)))%N.

Definition digit_val (c : ascii) : Z := Z.of_N (N_of_ascii c) - 48.

Fixpoint take_while (p : ascii -> bool) (s : string) : string :=
  match s with
  | EmptyString => EmptyString
  | String c r => if p c then String c (take_while p r) else EmptyString
  end.

Fixpoint drop_while (p : ascii -> bool) (s : string) : string :=
  match s with
  | EmptyString => EmptyString
  | String c r => if p c then drop_while p r else s
  end.

Fixpoint drop (n : nat) (s : string) : string :=
  match n, s with
  | O, _ => s
  | S k, EmptyString => EmptyString
  | S k, String _ r => drop k r
  end.

Definition is_empty (s : string) : bool :=
  match s with EmptyString => true | _ => false end.

Definition lstrip (s : string) : string := drop_while is_space s.

Fixpoint rstrip (s : string) : string :=
  match s with
  | EmptyString => EmptyString
  | String c r =>
      let r' := rstrip r in
      if is_empty r' && is_space c then EmptyString else String c r'
  end.

(** [str.strip()] *)
Definition strip (s : string) : string := rstrip (lstrip s).

(** [re.sub(r'\s+', ' ', s)]: every maximal run of white space becomes
    one space.  [in_run] tells that the previous character was white. *)
Fixpoint collapse_ws (in_run : bool) (s : string) : string :=
  match s with
  | EmptyString => EmptyString
  | String c r =>
      if is_space c
      then if in_run then collapse_ws true r
           else String " " (collapse_ws true r)
      else String c (collapse_ws false r)
  end.

(** The value of a string of decimal digits, most significant first. *)
Fixpoint digits_value (acc : Z) (s : string) : Z :=
  match s with
  | EmptyString => acc
  | String c r => digits_value (10 * acc + digit_val c) r
  end.

Definition all_digits (s : string) : bool :=
  negb (is_empty s) && is_empty (drop_while is_digit s).

(** [str(n)] for an integer. *)
Definition str (n : Z) : string := NilZero.string_of_int (Z.to_int n).

(** [s.replace(old, '')] for a non-empty [old]: the occurrences of [old]
    are removed from left to right without overlap.  [skip] counts the
    characters of the occurrence under removal still to be dropped. *)
Fixpoint remove_from (old : string) (skip : nat) (s : string) : string :=
  match s with
  | EmptyString => EmptyString
  | String c r =>
      match skip with
      | S k => remove_from old k r
      | O => if prefix old s
             then remove_from old (pred (String.length old)) r
             else String c (remove_from old O r)
      end
  end.

Definition remove_all (old s : string) : string :=
  if is_empty old then s else remove_from old O s.

End Text.

(** ** The bet parser ([parse_bet]) *)

Module Parser.
Import Text.

(** A parsed bet: the dict [{'type': .., 'value': .., 'amount': ..}]. *)
Record intent := mk_intent {
  itype : string;
  ivalue : string;
  iamount : Z
}.

Definition intent_eqb (a b : intent) : bool :=
  String.eqb (itype a) (itype b) && String.eqb (ivalue a) (ivalue b)
  && Z.eqb (iamount a) (iamount b).

(** The alternatives of [type_amount_pattern], in the order the regular
    expression tries them. *)
Definition keywords : list string :=
  ["大单"; "大双"; "小单"; "小双"; "大"; "小"; "单"; "双"; "豹子"].

Definition is_compound (k : string) : bool :=
  existsb (String.eqb k) ["大单"; "大双"; "小单"; "小双"].

(** [\s*(\d+)] at the head of [s]: the digits and the length consumed. *)
Definition match_amount (s : string) : option (string * nat) :=
  let blanks := take_while is_space s in
  let digits := take_while is_digit (drop_while is_space s) in
  if is_empty digits then None
  else Some (digits, (String.length blanks + String.length digits)%nat).

(** One attempt of [type_amount_pattern] at the head of [s]: the first
    alternative that is followed by an amount. *)
Fixpoint match_type_at (kws : list string) (s : string)
  : option (string * string * nat) :=
  match kws with
  | [] => None
  | k :: ks =>
      if prefix k s then
        match match_amount (drop (String.length k) s) with
        | Some (a, n) => Some (k, a, (String.length k + n)%nat)
        | None => match_type_at ks s
        end
      else match_type_at ks s
  end.

(** [type_amount_pattern.findall]: scan left to right, resume after each
    match.  [skip] counts the characters of the last match still ahead. *)
Fixpoint findall_type (skip : nat) (s : string) : list (string * string) :=
  match s with
  | EmptyString => []
  | String _ r =>
      match skip with
      | S k => findall_type k r
      | O =>
          match match_type_at keywords s with
          | Some (k, a, n) => (k, a) :: findall_type (pred n) r
          | None => findall_type O r
          end
      end
  end.

(** The two [replace] calls that take a parsed bet out of the text. *)
Definition consume (bet_type amount_str clean_text : string) : string :=
  remove_all (bet_type ++ " " ++ amount_str)
    (remove_all (bet_type ++ amount_str) clean_text).

(** The body of the first loop: one match appended to [bets] and taken
    out of [clean_text].  A compound keyword is two characters of three
    bytes each; [bet_type[0]] and [bet_type[1]] are its two halves. *)
Definition type_step (acc : list intent * string) (m : string * string)
  : list intent * string :=
  let '(bets, clean_text) := acc in
  let '(bet_type, amount_str) := m in
  let amount := digits_value 0 amount_str in
  if is_compound bet_type then
    let size := substring 0 3 bet_type in
    let odd_even := substring 3 3 bet_type in
    ((bets ++ [mk_intent size "" amount; mk_intent odd_even "" amount])%list,
     consume bet_type amount_str clean_text)
  else
    ((bets ++ [mk_intent bet_type "" amount])%list,
     consume bet_type amount_str clean_text).

(** One attempt of [sum_pattern = (\d{1,2})\s*(\d+)] at the head of [s].
    With two leading digits the greedy [\d{1,2}] takes both; when no
    amount follows, the expression backtracks to one digit and the second
    digit starts the amount. *)
Definition match_sum_at (s : string) : option (string * string * nat) :=
  match s with
  | String c1 r1 =>
      if is_digit c1 then
        match r1 with
        | String c2 r2 =>
            if is_digit c2 then
              match match_amount r2 with
              | Some (a, n) =>
                  Some (String c1 (String c2 EmptyString), a, (2 + n)%nat)
              | None =>
                  let a := take_while is_digit r1 in
                  Some (String c1 EmptyString, a, S (String.length a))
              end
            else
              match match_amount r1 with
              | Some (a, n) => Some (String c1 EmptyString, a, S n)
              | None => None
              end
        | EmptyString => None
        end
      else None
  | EmptyString => None
  end.

Fixpoint findall_sum (skip : nat) (s : string) : list (string * string) :=
  match s with
  | EmptyString => []
  | String _ r =>
      match skip with
      | S k => findall_sum k r
      | O =>
          match match_sum_at s with
          | Some (v, a, n) => (v, a) :: findall_sum (pred n) r
          | None => findall_sum O r
          end
      end
  end.

(** The body of the second loop. *)
Definition sum_step (m : string * string) : list intent :=
  let '(sum_val_str, amount_str) := m in
  let sum_val := digits_value 0 sum_val_str in
  let amount := digits_value 0 amount_str in
  if (3 <=? sum_val) && (sum_val <=? 18)
  then [mk_intent "和值" (str sum_val) amount]
  else [].

(** The last loop: keep the first bet of every (type, value, amount). *)
Fixpoint dedup (seen : list intent) (bets : list intent) : list intent :=
  match bets with
  | [] => []
  | b :: r =>
      if existsb (intent_eqb b) seen then dedup seen r
      else b :: dedup (b :: seen) r
  end.

(** The text left for the second pass. *)
Definition type_pass (clean_text : string) : list intent * string :=
  fold_left type_step (findall_type O clean_text) ([], clean_text).

Definition sum_pass (clean_text : string) : list intent :=
  flat_map sum_step (findall_sum O (strip clean_text)).

Definition unique_bets (text : string) : list intent :=
  let clean_text := collapse_ws false (strip text) in
  let '(bets, rest) := type_pass clean_text in
  dedup [] (bets ++ sum_pass rest).

(** [parse_bet]: [None] when no bet was found. *)
Definition parse_bet (text : string) : option (list intent) :=
  match unique_bets text with
  | [] => None
  | bets => Some bets
  end.

End Parser.

(** ** Python's [int()] on text and the formatting helpers *)

Module PyInt.
Import Text.

(** The digits of an [int()] argument: groups of decimal digits joined
    by single underscores.  [after_digit] tells that the previous
    character was a digit. *)
Fixpoint int_body (after_digit : bool) (acc : Z) (s : string) : option Z :=
  match s with
  | EmptyString => if after_digit then Some acc else None
  | String c r =>
      if is_digit c then int_body true (10 * acc + digit_val c) r
      else if Ascii.eqb c "_" && after_digit then int_body false acc r
      else None
  end.

(** [int(s)]: [None] stands for [ValueError]. *)
Definition py_int (s : string) : option Z :=
  match strip s with
  | String "+" r => int_body false 0 r
  | String "-" r => option_map Z.opp (int_body false 0 r)
  | t => int_body false 0 t
  end.

(** [s.split(',')] *)
Fixpoint split_comma (s : string) : list string :=
  match s with
  | EmptyString => [EmptyString]
  | String c r =>
      if Ascii.eqb c ","
      then EmptyString :: split_comma r
      else match split_comma r with
           | [] => [String c EmptyString]
           | w :: ws => String c w :: ws
           end
  end.

Fixpoint zeros (n : nat) : string :=
  match n with
  | O => EmptyString
  | S k => String "0" (zeros k)
  end.

(** [s.zfill(width)] for the text of a number without sign. *)
Definition zfill (width : nat) (s : string) : string :=
  zeros (width - String.length s) ++ s.

(** [list(map(int, xs))]: fails as soon as one conversion fails. *)
Fixpoint map_int (xs : list string) : option (list Z) :=
  match xs with
  | [] => Some []
  | x :: r =>
      match py_int x, map_int r with
      | Some v, Some vs => Some (v :: vs)
      | _, _ => None
      end
  end.

End PyInt.

Import Text Parser PyInt.

(** ** The database schema ([init_db]) *)

Inductive bet_status := active | cancelled.
Inductive bet_result := win | lose.
Inductive round_status := st_open | st_closed | st_waiting.
Inductive log_type :=
  recharge | withdraw | bet_log | payout | refund | admin_clear.

(** A row of [users]. *)
Record user := mk_user {
  u_id : Z;
  u_user_id : Z;
  u_username : option string;
  u_chat_id : Z;
  u_balance : Z;
  u_registration_time : Z;
  u_is_admin : bool;
  u_is_super_admin : bool
}.

(** A row of [bets]. *)
Record bet := mk_bet {
  b_id : Z;
  b_user_id : Z;
  b_round_id : string;
  b_type : string;
  b_value : string;
  b_amount : Z;
  b_time : Z;
  b_result : option bet_result;
  b_payout : Z;
  b_status : bet_status
}.

(** A row of [rounds]. *)
Record round := mk_round {
  r_id : string;
  r_start_time : Z;
  r_end_time : option Z;
  r_dice_result : option string;
  r_status : round_status
}.

(** The single row of [settings]. *)
Record settings_row := mk_settings {
  min_bet : Z;
  max_bet : Z;
  max_size_odd_even_bets : Z;
  max_sum_bets : Z;
  max_leopard_bets : Z;
  allow_irrelevant_msgs : bool;
  odds_daxiao : Z;
  odds_hezhi : Z;
  odds_baozi : Z;
  betting_active : bool
}.

(** A row of [balance_logs]. *)
Record log := mk_log {
  l_user_id : Z;
  l_amount : Z;
  l_type : log_type;
  l_operator_id : Z;
  l_time : Z
}.

(** The whole state: the tables, the global [current_round_id] and the
    [dice_sequence] entry of each user's [context.user_data]. *)
Record state := mk_state {
  users : list user;
  bets : list bet;
  rounds : list round;
  settings : settings_row;
  balance_logs : list log;
  current_round_id : option string;
  dice_sequence : list (Z * list Z)
}.

(** What the handler reads from [datetime.now()]. *)
Record clock := mk_clock {
  today : string;
  now : Z
}.

(** The database after [init_db] on an empty file. *)
Definition default_settings : settings_row :=
  mk_settings 1000 30000 2 3 1 false 2 7 11 true.

Definition init : state := mk_state [] [] [] default_settings [] None [].

(** Field updates. *)
Definition with_users (s : state) (us : list user) : state :=
  mk_state us (bets s) (rounds s) (settings s) (balance_logs s)
    (current_round_id s) (dice_sequence s).
Definition with_bets (s : state) (bs : list bet) : state :=
  mk_state (users s) bs (rounds s) (settings s) (balance_logs s)
    (current_round_id s) (dice_sequence s).
Definition with_rounds (s : state) (rs : list round) : state :=
  mk_state (users s) (bets s) rs (settings s) (balance_logs s)
    (current_round_id s) (dice_sequence s).
Definition with_settings (s : state) (c : settings_row) : state :=
  mk_state (users s) (bets s) (rounds s) c (balance_logs s)
    (current_round_id s) (dice_sequence s).
Definition with_logs (s : state) (ls : list log) : state :=
  mk_state (users s) (bets s) (rounds s) (settings s) ls
    (current_round_id s) (dice_sequence s).
Definition with_current (s : state) (c : option string) : state :=
  mk_state (users s) (bets s) (rounds s) (settings s) (balance_logs s)
    c (dice_sequence s).
Definition with_dice (s : state) (d : list (Z * list Z)) : state :=
  mk_state (users s) (bets s) (rounds s) (settings s) (balance_logs s)
    (current_round_id s) d.

Definition set_balance_row (u : user) (b : Z) : user :=
  mk_user (u_id u) (u_user_id u) (u_username u) (u_chat_id u) b
    (u_registration_time u) (u_is_admin u) (u_is_super_admin u).
Definition set_roles_row (u : user) (adm sup : bool) : user :=
  mk_user (u_id u) (u_user_id u) (u_username u) (u_chat_id u) (u_balance u)
    (u_registration_time u) adm sup.
Definition set_status_row (b : bet) (st : bet_status) : bet :=
  mk_bet (b_id b) (b_user_id b) (b_round_id b) (b_type b) (b_value b)
    (b_amount b) (b_time b) (b_result b) (b_payout b) st.
Definition set_result_row (b : bet) (r : bet_result) (p : Z) : bet :=
  mk_bet (b_id b) (b_user_id b) (b_round_id b) (b_type b) (b_value b)
    (b_amount b) (b_time b) (Some r) p (b_status b).
Definition close_row (r : round) (end_time : Z) (dice : string) : round :=
  mk_round (r_id r) (r_start_time r) (Some end_time) (Some dice) st_closed.

(** ** Queries and updates shared by the handlers *)

(** [SELECT .. FROM users WHERE user_id = ?] *)
Definition find_user_by_user_id (tg : Z) (us : list user) : option user :=
  find (fun u => u_user_id u =? tg) us.

(** [SELECT .. FROM users WHERE id = ?] *)
Definition find_user_by_id (uid : Z) (us : list user) : option user :=
  find (fun u => u_id u =? uid) us.

(** The rowid SQLite gives to a row inserted without id: one more than
    the largest in the table. *)
Definition next_rowid (ids : list Z) : Z := fold_right Z.max 0 ids + 1.

(** [UPDATE users SET balance = ? WHERE id = ?] *)
Definition set_balance (uid nb : Z) (us : list user) : list user :=
  map (fun u => if u_id u =? uid then set_balance_row u nb else u) us.

(** [UPDATE users SET balance = balance + ? WHERE id = ?] *)
Definition add_balance (uid d : Z) (us : list user) : list user :=
  map (fun u => if u_id u =? uid then set_balance_row u (u_balance u + d)
                else u) us.

Definition is_active (b : bet) : bool :=
  match b_status b with active => true | cancelled => false end.

Definition is_open (r : round) : bool :=
  match r_status r with st_open => true | _ => false end.

(** [SELECT .. FROM bets WHERE user_id = ? AND round_id = ? AND
    status = 'active'] *)
Definition active_bets_of (uid : Z) (rid : string) (bs : list bet)
  : list bet :=
  filter (fun b => (b_user_id b =? uid) && String.eqb (b_round_id b) rid
                   && is_active b) bs.

(** [SELECT .. FROM bets WHERE round_id = ? AND status = 'active'] *)
Definition active_bets_in (rid : string) (bs : list bet) : list bet :=
  filter (fun b => String.eqb (b_round_id b) rid && is_active b) bs.

(** [SELECT .. FROM rounds WHERE id = ?] *)
Definition find_round (rid : string) (rs : list round) : option round :=
  find (fun r => String.eqb (r_id r) rid) rs.

Definition count {A} (p : A -> bool) (l : list A) : Z :=
  Z.of_nat (List.length (filter p l)).

Definition mem (x : string) (l : list string) : bool :=
  existsb (String.eqb x) l.

Definition sum_Z (l : list Z) : Z := fold_right Z.add 0 l.

(** ** The replies *)

Inductive reply :=
  (* shared *)
  | NotRegistered | NoPermission | Failed
  (* start *)
  | Welcome (new_id : Z) | AlreadyRegistered
  (* adjust_balance, deduct_by_username *)
  | BadFormat | NoSuchUser | CannotWithdraw | AmountNotPositive
  | Adjusted (new_balance : Z)
  (* clear_all_balances *)
  | NeedConfirm | Cleared
  (* open_betting, stop_betting *)
  | AlreadyOpen | Opened (rid : option string) | AlreadyStopped | Stopped
  (* process_bet *)
  | BettingStopped | Query | RoundCreateFailed | NoBetsFound
  | LimitExceeded | OpposingSides | InsufficientBalance | StakeOutOfRange
  | BetAccepted (rid : string) (new_balance : Z)
  (* handle_dice *)
  | NoActiveRound | NeedMoreDice | NeedThreeEmojis | InvalidDice
  | RoundClosed | AlreadyHasResult | Settled (has_winners : bool)
  (* cancel_bet *)
  | RoundOver | CannotParse | NothingToCancel | NoneFound
  | Refunded (refund_total : Z)
  (* settings *)
  | BadNumber | BadRange | BadName | SettingsUpdated.

(** ** Decorators *)

(** [admin_required]: the wrapped handler runs only for a registered
    user with one of the two role flags. *)
Definition admin_required {A} (handler : state -> Z -> A -> state * reply)
  (s : state) (tg : Z) (a : A) : state * reply :=
  match find_user_by_user_id tg (users s) with
  | None => (s, NoPermission)
  | Some u =>
      if negb (u_is_admin u) && negb (u_is_super_admin u)
      then (s, NoPermission)
      else handler s tg a
  end.

(** [super_admin_required] *)
Definition super_admin_required {A}
  (handler : state -> Z -> A -> state * reply)
  (s : state) (tg : Z) (a : A) : state * reply :=
  match find_user_by_user_id tg (users s) with
  | None => (s, NoPermission)
  | Some u =>
      if negb (u_is_super_admin u) then (s, NoPermission)
      else handler s tg a
  end.

(** ** Registration ([start]) *)

Definition start (s : state) (tg : Z)
  (a : option string * Z * clock) : state * reply :=
  let '(username, chat_id, clk) := a in
  match find_user_by_user_id tg (users s) with
  | Some _ => (s, AlreadyRegistered)
  | None =>
      let new_user :=
        mk_user (next_rowid (map u_id (users s))) tg username chat_id 0
          (now clk) false false in
      let inserted := (users s ++ [new_user])%list in
      let user_count := Z.of_nat (List.length inserted) in
      let flagged :=
        if user_count =? 1
        then map (fun u => if u_user_id u =? tg
                           then set_roles_row u true true else u) inserted
        else inserted in
      (with_users s flagged, Welcome (u_id new_user))
  end.

(** ** Balance administration *)

(** [^[+-]\d+$] followed by [int()].  The text is stripped before the
    match, so [$] stands for the end of the text. *)
Definition signed_amount (s : string) : option Z :=
  match s with
  | String c r =>
      if Ascii.eqb c "+" && all_digits r then Some (digits_value 0 r)
      else if Ascii.eqb c "-" && all_digits r
           then Some (- digits_value 0 r)
           else None
  | EmptyString => None
  end.

(** [^ID(\d+)\s*([+-]\d+)$]: the target id and the amount. *)
Definition match_id_amount (s : string) : option (Z * Z) :=
  if prefix "ID" s then
    let r := drop 2 s in
    let ds := take_while is_digit r in
    if is_empty ds then None
    else match signed_amount (drop_while is_space (drop_while is_digit r))
         with
         | Some a => Some (digits_value 0 ds, a)
         | None => None
         end
  else None.

(** The content of an update for [adjust_balance]: the sender of the
    replied-to message, when there is one, and the text. *)
Definition adjust_update : Type := option Z * string * clock.

(** Resolving the target row and the amount. *)
Definition adjust_target (s : state) (reply_to_user : option Z)
  (text : string) : reply + (Z * Z * Z) :=
  match reply_to_user with
  | Some t =>
      match find_user_by_user_id t (users s) with
      | None => inl NotRegistered
      | Some tu =>
          match signed_amount (strip text) with
          | Some a => inr (u_id tu, u_balance tu, a)
          | None => inl BadFormat
          end
      end
  | None =>
      match match_id_amount (strip text) with
      | None => inl BadFormat
      | Some (target_user_id, a) =>
          match find_user_by_id target_user_id (users s) with
          | None => inl NoSuchUser
          | Some tu => inr (target_user_id, u_balance tu, a)
          end
      end
  end.

Definition adjust_balance_body (s : state) (tg : Z) (a : adjust_update)
  : state * reply :=
  let '(reply_to_user, text, clk) := a in
  match find_user_by_user_id tg (users s) with
  | None => (s, Failed)
  | Some operator =>
      match adjust_target s reply_to_user text with
      | inl r => (s, r)
      | inr (target_user_id, current_balance, amount) =>
          if (amount <? 0) && (current_balance + amount <? 0)
          then (s, CannotWithdraw)
          else
            let new_balance := current_balance + amount in
            let log_type := if amount >? 0 then recharge else withdraw in
            let s1 := with_users s
                        (set_balance target_user_id new_balance (users s)) in
            (with_logs s1
               (balance_logs s ++
                [mk_log target_user_id amount log_type (u_id operator)
                   (now clk)]),
             Adjusted new_balance)
      end
  end.

Definition adjust_balance := admin_required adjust_balance_body.

(** [\s+(\d+)$] against the whole of [s]: the digits. *)
Definition kou_tail (s : string) : option string :=
  let r := drop_while is_space s in
  if is_empty (take_while is_space s) then None
  else if all_digits r then Some r else None.

(** [(.+?)\s+(\d+)$]: the lazy group grows one character at a time (a
    line feed excluded) until the rest is blanks and digits. *)
Fixpoint kou_name (s : string) : option (string * string) :=
  match s with
  | EmptyString => None
  | String c r =>
      if Ascii.eqb c "010" then None
      else match kou_tail r with
           | Some d => Some (String c EmptyString, d)
           | None =>
               match kou_name r with
               | Some (n, d) => Some (String c n, d)
               | None => None
               end
           end
  end.

(** [^/kou\s+@(.+?)\s+(\d+)$] *)
Definition match_kou (s : string) : option (string * string) :=
  if prefix "/kou" s then
    let r := drop 4 s in
    if is_empty (take_while is_space r) then None
    else match drop_while is_space r with
         | String c r' => if Ascii.eqb c "@" then kou_name r' else None
         | EmptyString => None
         end
  else None.

Definition find_user_by_username (name : string) (us : list user)
  : option user :=
  find (fun u => match u_username u with
                 | Some n => String.eqb n name
                 | None => false
                 end) us.

Definition deduct_by_username_body (s : state) (tg : Z)
  (a : string * clock) : state * reply :=
  let '(text, clk) := a in
  match match_kou (strip text) with
  | None => (s, BadFormat)
  | Some (name, digits) =>
      let username := strip name in
      let amount := digits_value 0 digits in
      if amount <=? 0 then (s, AmountNotPositive)
      else
        let by_name := find_user_by_username username (users s) in
        let found :=
          match by_name with
          | Some u => Some u
          | None =>
              match py_int username with
              | Some n => find_user_by_user_id n (users s)
              | None => None
              end
          end in
        match found with
        | None => (s, NoSuchUser)
        | Some u =>
            let user_id := u_id u in
            let current_balance := u_balance u in
            if current_balance <? amount then (s, CannotWithdraw)
            else
              match find_user_by_user_id tg (users s) with
              | None => (s, Failed)
              | Some operator =>
                  let new_balance := current_balance - amount in
                  let s1 := with_users s
                              (set_balance user_id new_balance (users s)) in
                  (with_logs s1
                     (balance_logs s ++
                      [mk_log user_id (- amount) withdraw (u_id operator)
                         (now clk)]),
                   Adjusted new_balance)
              end
        end
  end.

Definition deduct_by_username := admin_required deduct_by_username_body.

Definition clear_all_balances_body (s : state) (tg : Z)
  (a : list string * clock) : state * reply :=
  let '(args, clk) := a in
  match args with
  | [] => (s, NeedConfirm)
  | a0 :: _ =>
      if negb (String.eqb a0 "confirm") then (s, NeedConfirm)
      else
        match find_user_by_user_id tg (users s) with
        | None => (s, Failed)
        | Some operator =>
            let entries :=
              map (fun u => mk_log (u_id u) (- u_balance u) admin_clear
                              (u_id operator) (now clk))
                  (filter (fun u => u_balance u >? 0) (users s)) in
            let s1 := with_logs s (balance_logs s ++ entries) in
            (with_users s1 (map (fun u => set_balance_row u 0) (users s)),
             Cleared)
        end
  end.

Definition clear_all_balances :=
  super_admin_required clear_all_balances_body.

(** ** The round registry *)

(** The open round with the latest start time, the earliest row among
    equals. *)
Fixpoint latest_open (best : option round) (rs : list round)
  : option round :=
  match rs with
  | [] => best
  | r :: rest =>
      if is_open r then
        match best with
        | None => latest_open (Some r) rest
        | Some b =>
            if r_start_time b <? r_start_time r
            then latest_open (Some r) rest
            else latest_open best rest
        end
      else latest_open best rest
  end.

(** [get_active_round]: the global is assigned only when a round is
    found. *)
Definition get_active_round (s : state) : state * option string :=
  match latest_open None (rounds s) with
  | Some r => (with_current s (Some (r_id r)), Some (r_id r))
  | None => (s, None)
  end.

Definition check_pending_round (s : state) : bool :=
  existsb (fun r => match r_status r, r_end_time r with
                    | st_open, _ => true
                    | st_waiting, None => true
                    | _, _ => false
                    end) (rounds s).

(** The three ways [create_new_round] ends: it returns [None], it
    returns the new id, or the INSERT violates the primary key. *)
Inductive created := Pending | Created (rid : string) | KeyConflict.

(** [id LIKE today%] is a prefix test, [today] being digits. *)
Definition create_new_round (s : state) (clk : clock) : state * created :=
  if check_pending_round s then (s, Pending)
  else
    let today_rounds :=
      count (fun r => prefix (today clk) (r_id r)) (rounds s) in
    let round_number := today_rounds + 1 in
    let round_id := today clk ++ zfill 3 (str round_number) in
    if existsb (fun r => String.eqb (r_id r) round_id) (rounds s)
    then (s, KeyConflict)
    else
      let s1 := with_rounds s
                  (rounds s ++
                   [mk_round round_id (now clk) None None st_open]) in
      (with_current s1 (Some round_id), Created round_id).

Definition set_betting_status (flag : bool) (s : state) : state :=
  let c := settings s in
  with_settings s
    (mk_settings (min_bet c) (max_bet c) (max_size_odd_even_bets c)
       (max_sum_bets c) (max_leopard_bets c) (allow_irrelevant_msgs c)
       (odds_daxiao c) (odds_hezhi c) (odds_baozi c) flag).

Definition open_betting_body (s : state) (tg : Z) (clk : clock)
  : state * reply :=
  if betting_active (settings s) then (s, AlreadyOpen)
  else
    let s1 := set_betting_status true s in
    match get_active_round s1 with
    | (s2, Some rid) => (s2, Opened (Some rid))
    | (s2, None) =>
        match create_new_round s2 clk with
        | (s3, Created rid) => (s3, Opened (Some rid))
        | (s3, Pending) => (s3, Opened None)
        | (s3, KeyConflict) => (s3, Failed)
        end
    end.

Definition open_betting := admin_required open_betting_body.

Definition stop_betting_body (s : state) (tg : Z) (_ : unit)
  : state * reply :=
  if negb (betting_active (settings s)) then (s, AlreadyStopped)
  else (set_betting_status false s, Stopped).

Definition stop_betting := admin_required stop_betting_body.

(** ** Bet placement ([process_bet]) *)

Definition size_parity : list string := ["大"; "小"; "单"; "双"].

(** The opposing-side test on the existing and the new types. *)
Definition opposing (all_types : list string) : bool :=
  (mem "大" all_types && mem "小" all_types)
  || (mem "单" all_types && mem "双" all_types).

(** One turn of the insertion loop: the bet row and (in [place_logs])
    its ledger entry. *)
Definition place_bets (user_id : Z) (rid : string) (bet_time : Z)
  (intents : list intent) (bs : list bet) : list bet :=
  fold_left
    (fun acc i =>
       (acc ++ [mk_bet (next_rowid (map b_id acc)) user_id rid (itype i)
                  (ivalue i) (iamount i) bet_time None 0 active])%list)
    intents bs.

Definition place_logs (user_id : Z) (create_time : Z)
  (intents : list intent) : list log :=
  map (fun i => mk_log user_id (- iamount i) bet_log 0 create_time) intents.

(** The part of [process_bet] after the round is resolved: [s] already
    holds whatever [create_new_round] committed. *)
Definition place (s : state) (db_user : user) (rid : string)
  (message_text : string) (clk : clock) : state * reply :=
  let user_id := u_id db_user in
  let user_balance := u_balance db_user in
  let c := settings s in
  let current_bets := map b_type (active_bets_of user_id rid (bets s)) in
  let current_size_odd_even := count (fun t => mem t size_parity) current_bets in
  let current_sum := count (String.eqb "和值") current_bets in
  let current_leopard := count (String.eqb "豹子") current_bets in
  match parse_bet message_text with
  | None => (s, NoBetsFound)
  | Some new_bets =>
      let new_types := map itype new_bets in
      let new_size_odd_even := count (fun t => mem t size_parity) new_types in
      let new_sum := count (String.eqb "和值") new_types in
      let new_leopard := count (String.eqb "豹子") new_types in
      if (current_size_odd_even + new_size_odd_even
            >? max_size_odd_even_bets c)
         || (current_sum + new_sum >? max_sum_bets c)
         || (current_leopard + new_leopard >? max_leopard_bets c)
      then (s, LimitExceeded)
      else if opposing (current_bets ++ new_types)
      then (s, OpposingSides)
      else
        let total_amount := sum_Z (map iamount new_bets) in
        if user_balance <? total_amount then (s, InsufficientBalance)
        else if existsb (fun i => (iamount i <? min_bet c)
                                  || (iamount i >? max_bet c)) new_bets
        then (s, StakeOutOfRange)
        else
          let new_balance := user_balance - total_amount in
          let s1 := with_users s (set_balance user_id new_balance (users s)) in
          let s2 := with_bets s1
                      (place_bets user_id rid (now clk) new_bets (bets s)) in
          (with_logs s2
             (balance_logs s ++ place_logs user_id (now clk) new_bets),
           BetAccepted rid new_balance)
  end.

Definition process_bet (s : state) (tg : Z) (a : string * clock)
  : state * reply :=
  let '(text, clk) := a in
  if negb (betting_active (settings s)) then (s, BettingStopped)
  else
    let message_text := strip text in
    if String.eqb message_text "1" || String.eqb message_text "22"
       || String.eqb message_text "33"
    then (s, Query)
    else
      match find_user_by_user_id tg (users s) with
      | None => (s, NotRegistered)
      | Some db_user =>
          match get_active_round s with
          | (s1, Some rid) => place s1 db_user rid message_text clk
          | (_, None) =>
              let s1 := with_current s None in
              match create_new_round s1 clk with
              | (s2, Created rid) => place s2 db_user rid message_text clk
              | (s2, Pending) => (s2, RoundCreateFailed)
              | (s2, KeyConflict) => (s2, Failed)
              end
          end
      end.

(** ** Settlement ([settle_bets]) *)

(** The facts derived from the dice. *)
Definition is_leopard (dice_nums : list Z) : bool :=
  match dice_nums with
  | [] => false
  | d :: r => forallb (Z.eqb d) r
  end.

Definition size_of (total : Z) : string :=
  if total >? 10 then "大" else "小".

Definition odd_even_of (total : Z) : string :=
  if total mod 2 =? 1 then "单" else "双".

(** The result and the payout of one bet. *)
Definition settle_one (c : settings_row) (dice_nums : list Z) (b : bet)
  : bet_result * Z :=
  let total := sum_Z dice_nums in
  let size := size_of total in
  let odd_even := odd_even_of total in
  let bet_type := b_type b in
  if is_leopard dice_nums then
    if String.eqb bet_type "豹子"
    then (win, b_amount b * odds_baozi c)
    else (lose, 0)
  else if mem bet_type size_parity then
    if (String.eqb bet_type "大" && String.eqb size "大")
       || (String.eqb bet_type "小" && String.eqb size "小")
       || (String.eqb bet_type "单" && String.eqb odd_even "单")
       || (String.eqb bet_type "双" && String.eqb odd_even "双")
    then (win, b_amount b * odds_daxiao c)
    else (lose, 0)
  else if String.eqb bet_type "和值" && String.eqb (b_value b) (str total)
  then (win, b_amount b * odds_hezhi c)
  else (lose, 0).

(** [UPDATE bets SET result = ?, payout = ? WHERE id = ?] *)
Definition write_result (bet_id : Z) (r : bet_result) (p : Z)
  (bs : list bet) : list bet :=
  map (fun b => if b_id b =? bet_id then set_result_row b r p else b) bs.

(** One turn of the settlement loop; [None] is the exception raised when
    the owner of a winning bet has no row. *)
Definition settle_step (c : settings_row) (dice_nums : list Z)
  (create_time : Z) (acc : option (state * bool)) (b : bet)
  : option (state * bool) :=
  match acc with
  | None => None
  | Some (s, has_winners) =>
      let '(result, p) := settle_one c dice_nums b in
      let s1 := with_bets s (write_result (b_id b) result p (bets s)) in
      let has_winners' :=
        match result with win => true | lose => has_winners end in
      match result with
      | win =>
          if p >? 0 then
            match find_user_by_id (b_user_id b) (users s1) with
            | None => None
            | Some u =>
                let new_balance := u_balance u + p in
                let s2 := with_users s1
                            (set_balance (b_user_id b) new_balance
                               (users s1)) in
                Some (with_logs s2
                        (balance_logs s2 ++
                         [mk_log (b_user_id b) p payout 0 create_time]),
                      has_winners')
            end
          else Some (s1, has_winners')
      | lose => Some (s1, has_winners')
      end
  end.

(** [settle_bets(round_id, dice_result, conn)] inside the caller's
    transaction: the new state and [has_winners], or [None] when an
    exception rolls the transaction back. *)
Definition settle_bets (round_id dice_result : string) (create_time : Z)
  (s : state) : option (state * bool) :=
  match map_int (split_comma dice_result) with
  | None => None
  | Some dice_nums =>
      match active_bets_in round_id (bets s) with
      | [] => Some (s, false)
      | selected =>
          fold_left (settle_step (settings s) dice_nums create_time)
            selected (Some (s, false))
      end
  end.

(** ** The dice handler ([handle_dice]) *)

(** What [handle_dice] reads from the message: the value of a built-in
    dice, or the matches of the emoji class in the text.  A match that is
    the random-dice character carries the number drawn for it; any other
    match is a single character, which is no key of [DICE_EMOJI_MAP], so
    the lookup with default gives 0. *)
Inductive dice_message :=
  | BuiltinDice (value : Z)
  | EmojiText (matches : list (option Z)).

Definition emoji_value (m : option Z) : Z :=
  match m with Some drawn => drawn | None => 0 end.

Definition get_sequence (tg : Z) (d : list (Z * list Z)) : option (list Z) :=
  option_map snd (find (fun e => fst e =? tg) d).

Definition del_sequence (tg : Z) (d : list (Z * list Z))
  : list (Z * list Z) :=
  filter (fun e => negb (fst e =? tg)) d.

Definition set_sequence (tg : Z) (v : list Z) (d : list (Z * list Z))
  : list (Z * list Z) :=
  (tg, v) :: del_sequence tg d.

(** [UPDATE rounds SET status = 'closed', end_time = ?, dice_result = ?
    WHERE id = ?] *)
Definition close_round (rid : string) (end_time : Z) (dice : string)
  (rs : list round) : list round :=
  map (fun r => if String.eqb (r_id r) rid then close_row r end_time dice
                else r) rs.

Definition truthy (o : option string) : bool :=
  match o with
  | Some t => negb (is_empty t)
  | None => false
  end.

(** From the registration check to the end of the handler: closing the
    round and settling it in one transaction. *)
Definition close_and_settle (s : state) (tg : Z) (active_round_id : string)
  (dice_values : list Z) (clk : clock) : state * reply :=
  match find_user_by_user_id tg (users s) with
  | None => (s, NotRegistered)
  | Some _ =>
      match find_round active_round_id (rounds s) with
      | None => (s, RoundClosed)
      | Some round_data =>
          if negb (is_open round_data) then (s, RoundClosed)
          else if truthy (r_dice_result round_data)
          then (s, AlreadyHasResult)
          else
            match dice_values with
            | [d0; d1; d2] =>
                let dice_result :=
                  str d0 ++ "," ++ str d1 ++ "," ++ str d2 in
                let s1 := with_rounds s
                            (close_round active_round_id (now clk)
                               dice_result (rounds s)) in
                match settle_bets active_round_id dice_result (now clk) s1
                with
                | None => (s, Failed)
                | Some (s2, has_winners) =>
                    (with_current s2 None, Settled has_winners)
                end
            | _ => (s, InvalidDice)
            end
      end
  end.

(** The two checks between the collection of the dice and the
    transaction. *)
Definition check_and_close (s : state) (tg : Z) (active_round_id : string)
  (dice_values : list Z) (clk : clock) : state * reply :=
  if negb (Nat.eqb (List.length dice_values) 3) then (s, InvalidDice)
  else if existsb (fun v => (v <? 1) || (v >? 6)) dice_values
  then (s, InvalidDice)
  else close_and_settle s tg active_round_id dice_values clk.

Definition handle_dice (s : state) (tg : Z) (a : dice_message * clock)
  : state * reply :=
  let '(message, clk) := a in
  match get_active_round s with
  | (_, None) => (s, NoActiveRound)
  | (s1, Some active_round_id) =>
      match message with
      | BuiltinDice v =>
          let sequence :=
            (match get_sequence tg (dice_sequence s1) with
             | Some l => l
             | None => []
             end ++ [v])%list in
          if Nat.eqb (List.length sequence) 3
          then check_and_close
                 (with_dice s1 (del_sequence tg (dice_sequence s1)))
                 tg active_round_id sequence clk
          else (with_dice s1 (set_sequence tg sequence (dice_sequence s1)),
                NeedMoreDice)
      | EmojiText matches =>
          if Nat.eqb (List.length matches) 3
          then check_and_close s1 tg active_round_id
                 (map emoji_value matches) clk
          else (s1, NeedThreeEmojis)
      end
  end.

(** ** Cancellation ([cancel_bet]) *)

(** [UPDATE bets SET status = 'cancelled' WHERE id = ?] *)
Definition cancel_by_id (bet_id : Z) (bs : list bet) : list bet :=
  map (fun b => if b_id b =? bet_id then set_status_row b cancelled else b) bs.

(** The first active bet of the user in the round that matches a parsed
    bet. *)
Definition find_bet_record (user_id : Z) (rid : string) (i : intent)
  (bs : list bet) : option bet :=
  find (fun b => (b_user_id b =? user_id) && String.eqb (b_round_id b) rid
                 && String.eqb (b_type b) (itype i)
                 && String.eqb (b_value b) (ivalue i)
                 && (b_amount b =? iamount i) && is_active b) bs.

(** One turn of the loop over the bets parsed from the replied-to
    message: the bets table, the new ledger entries and the refund. *)
Definition cancel_step (user_id : Z) (rid : string) (create_time : Z)
  (acc : list bet * list log * Z) (i : intent) : list bet * list log * Z :=
  let '(bs, entries, total_refund) := acc in
  match find_bet_record user_id rid i bs with
  | Some bet_record =>
      (cancel_by_id (b_id bet_record) bs,
       (entries ++
        [mk_log user_id (b_amount bet_record) refund 0 create_time])%list,
       total_refund + b_amount bet_record)
  | None => acc
  end.

(** The content of an update for [cancel_bet]: the text of the
    replied-to message ([text or ""]) when there is one. *)
Definition cancel_bet (s : state) (tg : Z) (a : option string * clock)
  : state * reply :=
  let '(reply_to_message, clk) := a in
  match find_user_by_user_id tg (users s) with
  | None => (s, NotRegistered)
  | Some db_user =>
      let user_id := u_id db_user in
      match get_active_round s with
      | (_, None) => (s, NoActiveRound)
      | (s1, Some active_round_id) =>
          match find_round active_round_id (rounds s1) with
          | None => (s1, Failed)
          | Some round_data =>
              if negb (is_open round_data) then (s1, RoundOver)
              else
                let pending : reply + (list bet * list log * Z) :=
                  match reply_to_message with
                  | Some replied_text =>
                      match parse_bet replied_text with
                      | None => inl CannotParse
                      | Some bet_info =>
                          inr (fold_left
                                 (cancel_step user_id active_round_id
                                    (now clk))
                                 bet_info (bets s1, [], 0))
                      end
                  | None =>
                      match active_bets_of user_id active_round_id (bets s1)
                      with
                      | [] => inl NothingToCancel
                      | selected =>
                          let total_refund := sum_Z (map b_amount selected) in
                          inr (fold_left
                                 (fun bs b => cancel_by_id (b_id b) bs)
                                 selected (bets s1),
                               [mk_log user_id total_refund refund 0
                                  (now clk)],
                               total_refund)
                      end
                  end in
                match pending with
                | inl r => (s1, r)
                | inr (bs, entries, total_refund) =>
                    if total_refund >? 0 then
                      let s2 := with_bets s1 bs in
                      let s3 := with_logs s2 (balance_logs s1 ++ entries) in
                      (with_users s3
                         (add_balance user_id total_refund (users s1)),
                       Refunded total_refund)
                    else (s1, NoneFound)
                end
          end
      end
  end.

(** ** Settings and roles *)

Definition set_limits_row (c : settings_row) (mn mx : Z) : settings_row :=
  mk_settings mn mx (max_size_odd_even_bets c) (max_sum_bets c)
    (max_leopard_bets c) (allow_irrelevant_msgs c) (odds_daxiao c)
    (odds_hezhi c) (odds_baozi c) (betting_active c).

Definition set_bet_limits_body (s : state) (tg : Z) (args : list string)
  : state * reply :=
  match args with
  | [a0; a1; a2; a3] =>
      if negb (String.eqb a0 "最小") || negb (String.eqb a2 "最大")
      then (s, BadFormat)
      else
        match py_int a1, py_int a3 with
        | Some mn, Some mx =>
            if (mn <=? 0) || (mx <=? mn) then (s, BadRange)
            else (with_settings s (set_limits_row (settings s) mn mx),
                  SettingsUpdated)
        | _, _ => (s, BadNumber)
        end
  | _ => (s, BadFormat)
  end.

Definition set_bet_limits := admin_required set_bet_limits_body.

(** [str.lower()] on the ASCII letters. *)
Definition lower_char (c : ascii) : ascii :=
  let n := N_of_ascii c in
  if ((65 <=? n) && (n <=? 90))%N then ascii_of_N (n + 32) else c.

Fixpoint lower (s : string) : string :=
  match s with
  | EmptyString => EmptyString
  | String c r => String (lower_char c) (lower r)
  end.

(** [UPDATE settings SET odds_<name> = ?] *)
Definition set_odds_row (c : settings_row) (name : string) (v : Z)
  : settings_row :=
  mk_settings (min_bet c) (max_bet c) (max_size_odd_even_bets c)
    (max_sum_bets c) (max_leopard_bets c) (allow_irrelevant_msgs c)
    (if String.eqb name "daxiao" then v else odds_daxiao c)
    (if String.eqb name "hezhi" then v else odds_hezhi c)
    (if String.eqb name "baozi" then v else odds_baozi c)
    (betting_active c).

Definition set_odds_value_body (s : state) (tg : Z) (args : list string)
  : state * reply :=
  match args with
  | a0 :: a1 :: _ =>
      let odds_name := lower a0 in
      match py_int a1 with
      | None => (s, BadNumber)
      | Some odds_value =>
          if odds_value <=? 0 then (s, AmountNotPositive)
          else if negb (mem odds_name ["daxiao"; "hezhi"; "baozi"])
          then (s, BadName)
          else (with_settings s
                  (set_odds_row (settings s) odds_name odds_value),
                SettingsUpdated)
      end
  | _ => (s, BadFormat)
  end.

Definition set_odds_value := super_admin_required set_odds_value_body.

(** [set_allow_irrelevant] after its argument is recognised: [None] is
    an argument outside the two word lists. *)
Definition set_allow_irrelevant_body (s : state) (tg : Z)
  (allow : option bool) : state * reply :=
  match allow with
  | None => (s, BadFormat)
  | Some flag =>
      let c := settings s in
      (with_settings s
         (mk_settings (min_bet c) (max_bet c) (max_size_odd_even_bets c)
            (max_sum_bets c) (max_leopard_bets c) flag (odds_daxiao c)
            (odds_hezhi c) (odds_baozi c) (betting_active c)),
       SettingsUpdated)
  end.

Definition set_allow_irrelevant := admin_required set_allow_irrelevant_body.

(** [add_admin_by_username] and [remove_admin_by_username] resolve one
    row from their argument and write its [is_admin] flag.  The model
    takes the resolved row id and the flag written, which covers every
    outcome of the two commands. *)
Definition change_admin_body (s : state) (tg : Z) (a : Z * bool)
  : state * reply :=
  let '(target, flag) := a in
  match find_user_by_id target (users s) with
  | None => (s, NoSuchUser)
  | Some _ =>
      (with_users s
         (map (fun u => if u_id u =? target
                        then set_roles_row u flag (u_is_super_admin u)
                        else u) (users s)),
       SettingsUpdated)
  end.

Definition change_admin := super_admin_required change_admin_body.

(** ** The bot as a transition system *)

(** One incoming update, routed to its handler. *)
Inductive event :=
  | Start (tg : Z) (username : option string) (chat_id : Z) (clk : clock)
  | AdjustBalance (tg : Z) (reply_to_user : option Z) (text : string)
      (clk : clock)
  | DeductByUsername (tg : Z) (text : string) (clk : clock)
  | ClearAllBalances (tg : Z) (args : list string) (clk : clock)
  | OpenBetting (tg : Z) (clk : clock)
  | StopBetting (tg : Z)
  | ProcessBet (tg : Z) (text : string) (clk : clock)
  | HandleDice (tg : Z) (message : dice_message) (clk : clock)
  | CancelBet (tg : Z) (reply_to_message : option string) (clk : clock)
  | SetBetLimits (tg : Z) (args : list string)
  | SetOddsValue (tg : Z) (args : list string)
  | SetAllowIrrelevant (tg : Z) (allow : option bool)
  | ChangeAdmin (tg : Z) (target : Z) (flag : bool).

Definition handle (s : state) (e : event) : state * reply :=
  match e with
  | Start tg username chat_id clk => start s tg (username, chat_id, clk)
  | AdjustBalance tg r text clk => adjust_balance s tg (r, text, clk)
  | DeductByUsername tg text clk => deduct_by_username s tg (text, clk)
  | ClearAllBalances tg args clk => clear_all_balances s tg (args, clk)
  | OpenBetting tg clk => open_betting s tg clk
  | StopBetting tg => stop_betting s tg tt
  | ProcessBet tg text clk => process_bet s tg (text, clk)
  | HandleDice tg message clk => handle_dice s tg (message, clk)
  | CancelBet tg r clk => cancel_bet s tg (r, clk)
  | SetBetLimits tg args => set_bet_limits s tg args
  | SetOddsValue tg args => set_odds_value s tg args
  | SetAllowIrrelevant tg allow => set_allow_irrelevant s tg allow
  | ChangeAdmin tg target flag => change_admin s tg (target, flag)
  end.

Definition step (s : state) (e : event) : state := fst (handle s e).

Definition run (s : state) (es : list event) : state := fold_left step es s.

(** The states the bot can be in after [init_db]. *)
Definition reachable (s : state) : Prop := exists es, run init es = s.


(** ** Notions used in the statements *)

(** The sum of a user's ledger entries. *)
Definition ledger (uid : Z) (ls : list log) : Z :=
  sum_Z (map l_amount (filter (fun l => l_user_id l =? uid) ls)).

Definition open_rounds (s : state) : list round :=
  filter is_open (rounds s).

(** The replies by which [process_bet] turns a submission down after
    reading it as a bet. *)
Definition is_rejection (r : reply) : bool :=
  match r with
  | NoBetsFound | LimitExceeded | OpposingSides | InsufficientBalance
  | StakeOutOfRange => true
  | _ => false
  end.

Definition is_accepted (r : reply) : bool :=
  match r with
  | BetAccepted _ _ => true
  | _ => false
  end.

(** The types of the active bets a user holds in the open round. *)
Definition existing_types (s : state) (uid : Z) : list string :=
  match snd (get_active_round s) with
  | Some rid => map b_type (active_bets_of uid rid (bets s))
  | None => []
  end.

(** The text [handle_dice] records for three dice. *)
Definition dice_text (d0 d1 d2 : Z) : string :=
  str d0 ++ "," ++ str d1 ++ "," ++ str d2.


(** The bets a plain cancellation addresses. *)
Definition mine (uid : Z) (rid : string) (b : bet) : bool :=
  (b_user_id b =? uid) && String.eqb (b_round_id b) rid && is_active b.

(** Sample data for the instances below. *)
Definition noon : clock := mk_clock "20260101" 43200.

Definition two_users : list event :=
  [Start 100 (Some "boss") 1 noon; Start 200 (Some "bob") 1 noon;
   AdjustBalance 100 (Some 200) "+20000" noon].

Definition with_bets_placed : list event :=
  (two_users ++
   [ProcessBet 200 "大1500 11 3000" noon])%list.


Definition one_big_bet : list event :=
  (two_users ++ [ProcessBet 200 "大1500" noon])%list.

Definition bob_after_big : user :=
  mk_user 2 200 (Some "bob") 1 18500 43200 false false.

Definition two_dice_in : list event :=
  (one_big_bet ++
   [HandleDice 200 (BuiltinDice 3) noon;
    HandleDice 200 (BuiltinDice 4) noon])%list.

Definition after_settlement : state :=
  fst (handle_dice (run init two_dice_in) 200 (BuiltinDice 5, noon)).

Definition bob_row : user :=
  mk_user 2 200 (Some "bob") 1 15500 43200 false false.

(** ** Invariants of the database *)

(** At most one round is open. *)
Definition rounds_ok (rs : list round) : Prop :=
  (List.length (filter is_open rs) <= 1)%nat.

(** The ledger: row ids are distinct, no balance is negative, every
    balance is the sum of the user's entries, every entry names a row. *)
Definition ledger_ok (us : list user) (ls : list log) : Prop :=
  NoDup (map u_id us) /\
  (forall u, In u us ->
             0 <= u_balance u /\ u_balance u = ledger (u_id u) ls) /\
  (forall l, In l ls -> In (l_user_id l) (map u_id us)).

(** Bets have distinct ids and positive stakes. *)
Definition bets_ok (bs : list bet) : Prop :=
  NoDup (map b_id bs) /\ Forall (fun b => 0 < b_amount b) bs.

Definition settings_ok (c : settings_row) : Prop := 0 < min_bet c.

(** Every bet belongs to a row of [users]. *)
Definition owned (us : list user) (bs : list bet) : Prop :=
  forall b, In b bs -> In (b_user_id b) (map u_id us).

(** The rounds table: at most one open round, distinct ids. *)
Definition rounds_wf (rs : list round) : Prop :=
  rounds_ok rs /\ NoDup (map r_id rs).

Definition Inv (s : state) : Prop :=
  ledger_ok (users s) (balance_logs s) /\ bets_ok (bets s) /\
  rounds_wf (rounds s) /\ settings_ok (settings s).

(** What the loop of a quoted cancellation keeps: the bets table is
    well formed and the entries, all of the user, add up to the refund. *)
Definition cancel_acc_ok (uid : Z) (acc : list bet * list log * Z) : Prop :=
  let '(bs, entries, total) := acc in
  bets_ok bs /\ (forall e, In e entries -> l_user_id e = uid) /\
  sum_Z (map l_amount entries) = total.

(** ** Invariants of the bets a user holds in one round *)

(** The types of the active bets of one user in one round. *)
Definition held_types (uid : Z) (rid : string) (bs : list bet)
  : list string :=
  map b_type (active_bets_of uid rid bs).

(** The three ceilings of [process_bet] on a list of types. *)
Definition within_ceilings (c : settings_row) (ts : list string) : Prop :=
  count (fun t => mem t size_parity) ts <= max_size_odd_even_bets c /\
  count (String.eqb "和值") ts <= max_sum_bets c /\
  count (String.eqb "豹子") ts <= max_leopard_bets c.

Definition types_ok (c : settings_row) (ts : list string) : Prop :=
  opposing ts = false /\ within_ceilings c ts.

Definition table_ok (c : settings_row) (bs : list bet) : Prop :=
  forall uid rid, types_ok c (held_types uid rid bs).

(** A row rewrite that keeps owner, round and type and activates
    nothing. *)
Definition shrinking (f : bet -> bet) : Prop :=
  forall b, b_user_id (f b) = b_user_id b /\
            b_round_id (f b) = b_round_id b /\
            b_type (f b) = b_type b /\
            (is_active (f b) = true -> is_active b = true).

Definition same_ceilings (c c' : settings_row) : Prop :=
  max_size_odd_even_bets c' = max_size_odd_even_bets c /\
  max_sum_bets c' = max_sum_bets c /\
  max_leopard_bets c' = max_leopard_bets c.

(** No hedging and the ceilings, for ceilings [c0] that the settings
    row still carries. *)
Definition hedge_free (c0 : settings_row) (s : state) : Prop :=
  table_ok c0 (bets s) /\ same_ceilings c0 (settings s).

(** ** The life of rounds and bets *)

(** A round is open with neither end time nor result, or closed with an
    end time and the text of three dice. *)
Definition round_shape (r : round) : Prop :=
  match r_status r with
  | st_open => r_end_time r = None /\ r_dice_result r = None
  | st_closed =>
      exists t d0 d1 d2,
        r_end_time r = Some t /\
        r_dice_result r = Some (dice_text d0 d1 d2) /\
        1 <= d0 <= 6 /\ 1 <= d1 <= 6 /\ 1 <= d2 <= 6
  | st_waiting => False
  end.

(** A bet of the open round is unsettled; in a closed round an active
    bet is settled, with a positive payout exactly when it won, and a
    cancelled bet is not. *)
Definition bet_shape (rs : list round) (b : bet) : Prop :=
  match find_round (b_round_id b) rs with
  | None => False
  | Some r =>
      if is_open r then b_result b = None /\ b_payout b = 0
      else
        match b_status b, b_result b with
        | active, Some win => 0 < b_payout b
        | active, Some lose => b_payout b = 0
        | active, None => False
        | cancelled, None => b_payout b = 0
        | cancelled, Some _ => False
        end
  end.

Definition odds_pos (c : settings_row) : Prop :=
  0 < odds_daxiao c /\ 0 < odds_hezhi c /\ 0 < odds_baozi c.

Definition settings_sane (c : settings_row) : Prop :=
  min_bet c < max_bet c /\ odds_pos c.

Definition lifecycle (s : state) : Prop :=
  Forall round_shape (rounds s) /\
  Forall (bet_shape (rounds s)) (bets s) /\
  settings_sane (settings s).

(** The rows a settlement of round [rid] writes. *)
Definition in_round (rid : string) (b : bet) : bool :=
  String.eqb (b_round_id b) rid && is_active b.

(** [settle_bets] on the whole table, row by row. *)
Definition settled_row (c : settings_row) (dice_nums : list Z)
  (rid : string) (b : bet) : bet :=
  if in_round rid b
  then set_result_row b (fst (settle_one c dice_nums b))
         (snd (settle_one c dice_nums b))
  else b.

(** Sample data: the round of [one_big_bet] after the rolls 3, 4, 5. *)
Definition settled_scene : list event :=
  (two_dice_in ++ [HandleDice 200 (BuiltinDice 5) noon])%list.

Definition big_bet : bet :=
  mk_bet 1 2 "20260101001" "大" "" 1500 43200 None 0 active.

Definition big_bet_won : bet :=
  mk_bet 1 2 "20260101001" "大" "" 1500 43200 (Some win) 3000 active.

Definition round_one_closed : round :=
  mk_round "20260101001" 43200 (Some 43200) (Some "3,4,5") st_closed.

(** ** How the tables move *)

(** One update changes a bet only while it is active in an open round,
    and then only its status or its result and payout. *)
Definition touched (rs : list round) (b b' : bet) : Prop :=
  b' = b \/
  ((exists r, find_round (b_round_id b) rs = Some r /\ is_open r = true) /\
   b_status b = active /\
   (b' = set_status_row b cancelled \/
    exists res p, b' = set_result_row b res p)).

Definition bets_move (rs : list round) (bs bs' : list bet) : Prop :=
  exists f news,
    bs' = (map f bs ++ news)%list /\
    forall b, In b bs -> touched rs b (f b).

(** One update changes a round only by closing it while it is open. *)
Definition rounds_move (rs rs' : list round) : Prop :=
  exists g news,
    rs' = (map g rs ++ news)%list /\
    forall r, In r rs ->
              g r = r \/
              (is_open r = true /\ exists t d, g r = close_row r t d).

(** What never changes in a bet row. *)
Definition bet_key (b : bet) : Z * Z * string * string * string * Z * Z :=
  (b_id b, b_user_id b, b_round_id b, b_type b, b_value b, b_amount b,
   b_time b).

Definition moves (s s' : state) : Prop :=
  bets_move (rounds s) (bets s) (bets s') /\
  rounds_move (rounds s) (rounds s').

(** Sample data: a new bet after the settlement of [settled_scene]. *)
Definition next_round_bet : list event :=
  [ProcessBet 200 "小1000" noon].

(** ** The roll buffer *)

(** Every buffered sequence of rolls holds one or two values. *)
Definition buffer_ok (d : list (Z * list Z)) : Prop :=
  Forall (fun e => (1 <= List.length (snd e) <= 2)%nat) d.

(** The tables and settings, leaving aside the two globals. *)
Definition same_database (s s' : state) : Prop :=
  users s' = users s /\ bets s' = bets s /\ rounds s' = rounds s /\
  settings s' = settings s /\ balance_logs s' = balance_logs s.

(** Sample data: three dice characters, one of them not the random
    dice. *)
Definition keycap_text : dice_message :=
  EmojiText [Some 3; None; Some 4].

(** ** The users table and the roles *)

(** Telegram ids are distinct, row ids count up from 1, and the super
    admin flag marks row 1 and no other. *)
Definition users_wf (us : list user) : Prop :=
  NoDup (map u_user_id us) /\
  map u_id us = map Z.of_nat (seq 1 (List.length us)) /\
  (forall u, In u us -> (u_is_super_admin u = true <-> u_id u = 1)).

(** A row rewrite that keeps the identity and the super admin flag. *)
Definition keeps_identity (f : user -> user) : Prop :=
  forall u, u_user_id (f u) = u_user_id u /\ u_id (f u) = u_id u /\
            u_is_super_admin (f u) = u_is_super_admin u.

(** The sender of a command behind [admin_required]. *)
Definition admin_command (e : event) : option Z :=
  match e with
  | AdjustBalance tg _ _ _ | DeductByUsername tg _ _ | OpenBetting tg _
  | StopBetting tg | SetBetLimits tg _ | SetAllowIrrelevant tg _ => Some tg
  | _ => None
  end.

(** The sender of a command behind [super_admin_required]. *)
Definition super_admin_command (e : event) : option Z :=
  match e with
  | ClearAllBalances tg _ _ | SetOddsValue tg _ | ChangeAdmin tg _ _ =>
      Some tg
  | _ => None
  end.

(** Sample data: a third user who is no administrator. *)
Definition three_users : list event :=
  (two_users ++ [Start 300 (Some "eve") 1 noon])%list.

(** ** What a settlement pays *)

Definition is_win (r : bet_result) : bool :=
  match r with win => true | lose => false end.

(** The ledger entries of a settlement: one for every selected bet that
    wins a positive payout, in the order of the bets. *)
Definition payout_entries (c : settings_row) (dice_nums : list Z)
  (create_time : Z) (selected : list bet) : list log :=
  flat_map
    (fun b =>
       match settle_one c dice_nums b with
       | (win, p) =>
           if p >? 0
           then [mk_log (b_user_id b) p payout 0 create_time]
           else []
       | (lose, _) => []
       end) selected.

(** The dice values [handle_dice] collects from a message. *)
Definition dice_values_of (s : state) (tg : Z) (m : dice_message)
  : list Z :=
  match m with
  | BuiltinDice v =>
      (match get_sequence tg (dice_sequence s) with
       | Some l => l
       | None => []
       end ++ [v])%list
  | EmojiText matches => map emoji_value matches
  end.

(** The bet rows [process_bet] inserts for the parsed bets, the first
    with row id [first_id]. *)
Fixpoint new_rows (first_id user_id : Z) (rid : string) (bet_time : Z)
  (its : list intent) : list bet :=
  match its with
  | [] => []
  | i :: r =>
      mk_bet first_id user_id rid (itype i) (ivalue i) (iamount i)
        bet_time None 0 active
      :: new_rows (first_id + 1) user_id rid bet_time r
  end.

(** Sample data: bob before his first bet. *)
Definition bob_before_bet : user :=
  mk_user 2 200 (Some "bob") 1 20000 43200 false false.

(** ** The shape of parsed bets *)




(** ** Opening and stopping the betting *)

Definition is_open_betting (e : event) : bool :=
  match e with OpenBetting _ _ => true | _ => false end.

(** Sample data: the betting stopped by the first user, then a bet, a
    cancellation and a dice. *)
Definition stopped_scene : state :=
  run init (one_big_bet ++ [StopBetting 100])%list.

Definition while_stopped : list event :=
  [ProcessBet 200 "小1000" noon; CancelBet 200 None noon;
   HandleDice 200 (BuiltinDice 2) noon].


(** ** The rule for dice that are no triple *)

(** The outcome of a bet on dice with sum [total] that are not all
    equal, with the comparisons done on numbers. *)
Definition ordinary_rule (c : settings_row) (total : Z) (b : bet)
  : bet_result * Z :=
  let t := b_type b in
  if String.eqb t "大" then
    if 11 <=? total then (win, b_amount b * odds_daxiao c) else (lose, 0)
  else if String.eqb t "小" then
    if total <=? 10 then (win, b_amount b * odds_daxiao c) else (lose, 0)
  else if String.eqb t "单" then
    if Z.odd total then (win, b_amount b * odds_daxiao c) else (lose, 0)
  else if String.eqb t "双" then
    if Z.even total then (win, b_amount b * odds_daxiao c) else (lose, 0)
  else if String.eqb t "和值" then
    if String.eqb (b_value b) (str total)
    then (win, b_amount b * odds_hezhi c) else (lose, 0)
  else (lose, 0).


(** Sample data: a sum bet on 12 and non-triple dice with sum 12. *)
Definition sum_bet_12 : bet :=
  mk_bet 1 2 "20260101001" "和值" "12" 1000 43200 None 0 active.


(** ** Proof tools *)

Ltac case_match :=
  match goal with
  | |- context [match ?x with _ => _ end] => destruct x eqn:?
  end.

Ltac case_match_in H :=
  match type of H with
  | context [match ?x with _ => _ end] => destruct x eqn:?
  end.

Ltac frame := repeat case_match; simpl; auto.

(** ** The parser *)

Lemma intent_eqb_eq (a b : intent) : intent_eqb a b = true <-> a = b.
Proof.
  unfold intent_eqb. destruct a as [t v n], b as [t' v' n']; simpl.
  rewrite !andb_true_iff, !String.eqb_eq, Z.eqb_eq.
  split.
  - intros [[-> ->] ->]. reflexivity.
  - intros H. injection H as -> -> ->. auto.
Qed.

Lemma existsb_intent (x : intent) (l : list intent) :
  existsb (intent_eqb x) l = true <-> In x l.
Proof.
  rewrite existsb_exists. split.
  - intros [y [Hy E]]. apply intent_eqb_eq in E. now subst.
  - intros H. exists x. split; [assumption | now apply intent_eqb_eq].
Qed.

Lemma dedup_sound (l seen : list intent) (x : intent) :
  In x (dedup seen l) -> In x l /\ ~ In x seen.
Proof.
  revert seen. induction l as [|b r IH]; simpl; intros seen H.
  - contradiction.
  - destruct (existsb (intent_eqb b) seen) eqn:E.
    + apply IH in H. tauto.
    + destruct H as [<- | H].
      * split; [now left|]. intros Hin.
        apply existsb_intent in Hin. congruence.
      * apply IH in H. destruct H as [H1 H2]. split; [now right|].
        intros Hin. apply H2. now right.
Qed.

Lemma dedup_complete (l seen : list intent) (x : intent) :
  In x l -> ~ In x seen -> In x (dedup seen l).
Proof.
  revert seen. induction l as [|b r IH]; simpl; intros seen H Hs.
  - contradiction.
  - destruct (existsb (intent_eqb b) seen) eqn:E.
    + destruct H as [-> | H].
      * apply existsb_intent in E. contradiction.
      * now apply IH.
    + destruct (intent_eqb b x) eqn:Ebx.
      * apply intent_eqb_eq in Ebx. now left.
      * right. destruct H as [-> | H].
        -- assert (intent_eqb x x = true) by now apply intent_eqb_eq.
           congruence.
        -- apply IH; [assumption|]. intros [-> | Hin]; [|contradiction].
           assert (intent_eqb x x = true) by now apply intent_eqb_eq.
           congruence.
Qed.

Lemma dedup_NoDup (l seen : list intent) : NoDup (dedup seen l).
Proof.
  revert seen. induction l as [|b r IH]; simpl; intros seen.
  - constructor.
  - destruct (existsb (intent_eqb b) seen) eqn:E.
    + apply IH.
    + constructor; [|apply IH].
      intros Hin. apply dedup_sound in Hin. destruct Hin as [_ Hn].
      apply Hn. now left.
Qed.

Lemma unique_bets_NoDup (text : string) : NoDup (unique_bets text).
Proof.
  unfold unique_bets. destruct (type_pass _) as [bs rest]. apply dedup_NoDup.
Qed.


(** C8. Reference outputs of the parser: a single keyword bet, a
    compound keyword giving two bets with one stake (with and without a
    space before the stake), a sum bet, a sum outside 3..18 giving
    nothing, and no two bets of a result sharing type, value and stake
    while every bet found is kept once. *)
Theorem parse_bet_reference_outputs :
  parse_bet "大1000" = Some [mk_intent "大" "" 1000] /\
  parse_bet "大单2000"
    = Some [mk_intent "大" "" 2000; mk_intent "单" "" 2000] /\
  parse_bet "11 1000" = Some [mk_intent "和值" "11" 1000] /\
  parse_bet "19 1000" = None /\
  parse_bet "小双 3000"
    = Some [mk_intent "小" "" 3000; mk_intent "双" "" 3000] /\
  parse_bet "大1000 大 1000 11 1000 11 1000"
    = Some [mk_intent "大" "" 1000; mk_intent "和值" "11" 1000] /\
  (forall text, NoDup (unique_bets text)) /\
  (forall found seen x,
      In x (dedup seen found) <-> In x found /\ ~ In x seen).
Proof.
  repeat split; try reflexivity.
  - apply unique_bets_NoDup.
  - apply dedup_sound in H. tauto.
  - apply dedup_sound in H. tauto.
  - intros [H1 H2]. now apply dedup_complete.
Qed.

(** C9. The sum pattern takes no separator for granted: a two-digit sum
    directly followed by the stake is read as a sum bet, against the
    operating guide, which requires a space. *)
Theorem sum_bet_without_separator :
  parse_bet "111000" = Some [mk_intent "和值" "11" 1000] /\
  parse_bet "123" = Some [mk_intent "和值" "12" 3] /\
  parse_bet "1000" = Some [mk_intent "和值" "10" 0] /\
  findall_sum O "111000" = [("11", "1000")].
Proof. repeat split; reflexivity. Qed.

(** ** A sum and a stake written without a separator *)

Lemma digit_not_space (c : ascii) : is_digit c = true -> is_space c = false.
Proof.
  intros H.
  destruct c as [[] [] [] [] [] [] [] []]; try discriminate H; reflexivity.
Qed.

Lemma digit_no_keyword (c : ascii) (r : string) :
  is_digit c = true -> match_type_at keywords (String c r) = None.
Proof.
  intros H.
  destruct c as [[] [] [] [] [] [] [] []]; try discriminate H; reflexivity.
Qed.

Lemma digits_plain (s : string) :
  is_empty (drop_while is_digit s) = true ->
  lstrip s = s /\ rstrip s = s /\ collapse_ws false s = s /\
  take_while is_digit s = s /\ findall_type O s = [] /\
  take_while is_space s = EmptyString /\ drop_while is_space s = s.
Proof.
  unfold lstrip. induction s as [|c r IH]; intros H.
  - repeat split.
  - cbn [drop_while] in H. destruct (is_digit c) eqn:D; [|discriminate H].
    destruct (IH H) as [_ [I2 [I3 [I4 [I5 _]]]]].
    pose proof (digit_not_space c D) as Sp.
    repeat split.
    + cbn [drop_while]. now rewrite Sp.
    + cbn [rstrip]. cbv zeta. rewrite I2, Sp, andb_false_r. reflexivity.
    + cbn [collapse_ws]. now rewrite Sp, I3.
    + cbn [take_while]. now rewrite D, I4.
    + cbn [findall_type]. now rewrite (digit_no_keyword c r D), I5.
    + cbn [take_while]. now rewrite Sp.
    + cbn [drop_while]. now rewrite Sp.
Qed.

Lemma findall_sum_skip (s : string) (k : nat) :
  (String.length s <= k)%nat -> findall_sum k s = [].
Proof.
  revert k. induction s as [|c r IH]; simpl; intros k H; [reflexivity|].
  destruct k as [|k]; [lia|]. apply IH. lia.
Qed.

(** Every stake written straight after the two digits of 11 is accepted
    as a sum bet on 11. *)
Lemma glued_stake_is_a_sum_bet (ds : string) :
  all_digits ds = true ->
  parse_bet ("11" ++ ds)
  = Some [mk_intent "和值" "11" (digits_value 0 ds)].
Proof.
  unfold all_digits. intros H. apply andb_true_iff in H.
  destruct H as [Ne Hd].
  assert (Hall : is_empty (drop_while is_digit ("11" ++ ds)) = true)
    by exact Hd.
  destruct (digits_plain _ Hall) as [P1 [P2 [P3 [_ [P5 _]]]]].
  destruct (digits_plain _ Hd) as [_ [_ [_ [Q4 [_ [Q6 Q7]]]]]].
  assert (F : findall_sum O ("11" ++ ds) = [("11", ds)]).
  { change ("11" ++ ds) with (String "1" (String "1" ds)).
    cbn [findall_sum]. unfold match_sum_at.
    change (is_digit "1") with true. cbv iota.
    unfold match_amount. rewrite Q6, Q7, Q4.
    destruct ds as [|d ds']; [discriminate Ne|].
    cbn [is_empty String.length Nat.add pred]. cbv iota.
    rewrite findall_sum_skip; [reflexivity | cbn [String.length]; lia]. }
  unfold parse_bet, unique_bets, type_pass, sum_pass, strip.
  rewrite P1, P2, P3, P5. cbn [fold_left]. cbv iota beta.
  rewrite P1, P2. cbn [app]. rewrite F. reflexivity.
Qed.

(** ** Registration *)

Lemma start_registered (s : state) (tg : Z) (a : option string * Z * clock)
  (u : user) :
  find_user_by_user_id tg (users s) = Some u ->
  start s tg a = (s, AlreadyRegistered).
Proof.
  intros H. unfold start. destruct a as [[username chat_id] clk].
  now rewrite H.
Qed.

(** C10. Registration appends one row with balance 0 and leaves the
    other rows as they are; the new row carries both role flags exactly
    when the table was empty before, and neither flag otherwise. *)
Theorem first_user_is_super_admin :
  forall (s : state) (tg : Z) (username : option string) (chat_id : Z)
         (clk : clock),
    find_user_by_user_id tg (users s) = None ->
    let first := match users s with [] => true | _ :: _ => false end in
    users (fst (start s tg (username, chat_id, clk)))
    = (users s ++
       [mk_user (next_rowid (map u_id (users s))) tg username chat_id 0
          (now clk) first first])%list.
Proof.
  intros s tg username chat_id clk H. unfold start. rewrite H.
  cbv zeta. destruct (users s) as [|u0 us] eqn:E.
  - simpl. rewrite Z.eqb_refl. reflexivity.
  - assert (L : (Z.of_nat (List.length ((u0 :: us) ++
                   [mk_user (next_rowid (map u_id (u0 :: us))) tg username
                      chat_id 0 (now clk) false false])) =? 1) = false).
    { apply Z.eqb_neq. rewrite length_app. simpl. lia. }
    rewrite L. reflexivity.
Qed.

Lemma first_user_is_super_admin_witness :
  users (fst (start init 100 (Some "boss", 1, noon)))
  = [mk_user 1 100 (Some "boss") 1 0 43200 true true].
Proof.
  apply (first_user_is_super_admin init 100 (Some "boss") 1 noon).
  reflexivity.
Defined.

(** ** Decorators keep what their handler keeps *)

Lemma admin_required_preserves {A} (P : state -> Prop)
  (handler : state -> Z -> A -> state * reply) (s : state) (tg : Z) (a : A) :
  (P s -> P (fst (handler s tg a))) ->
  P s -> P (fst (admin_required handler s tg a)).
Proof.
  intros H Hs. unfold admin_required.
  repeat case_match; simpl; auto.
Qed.

Lemma super_admin_required_preserves {A} (P : state -> Prop)
  (handler : state -> Z -> A -> state * reply) (s : state) (tg : Z) (a : A) :
  (P s -> P (fst (handler s tg a))) ->
  P s -> P (fst (super_admin_required handler s tg a)).
Proof.
  intros H Hs. unfold super_admin_required.
  repeat case_match; simpl; auto.
Qed.

(** ** The round registry: at most one open round *)

Lemma check_pending_none_open (s : state) :
  check_pending_round s = false -> filter is_open (rounds s) = [].
Proof.
  unfold check_pending_round. induction (rounds s) as [|r rs IH]; simpl.
  - reflexivity.
  - intros H. apply orb_false_iff in H. destruct H as [H1 H2].
    unfold is_open. destruct (r_status r); try discriminate; auto.
Qed.

Lemma create_new_round_rounds (s : state) (clk : clock) :
  rounds (fst (create_new_round s clk)) = rounds s \/
  (filter is_open (rounds s) = [] /\
   exists r, is_open r = true /\
             rounds (fst (create_new_round s clk)) = (rounds s ++ [r])%list).
Proof.
  unfold create_new_round.
  destruct (check_pending_round s) eqn:P; [now left|].
  case_match; [now left|]. right. split.
  - now apply check_pending_none_open.
  - eexists. split; [|reflexivity]. reflexivity.
Qed.

Lemma create_new_round_ok (s : state) (clk : clock) :
  rounds_ok (rounds s) -> rounds_ok (rounds (fst (create_new_round s clk))).
Proof.
  intros H. destruct (create_new_round_rounds s clk) as [-> | [E [r [Hr ->]]]].
  - assumption.
  - unfold rounds_ok. rewrite filter_app, E. simpl. rewrite Hr. simpl. lia.
Qed.

Lemma close_round_open (rid : string) (t : Z) (d : string) (rs : list round) :
  (List.length (filter is_open (close_round rid t d rs))
   <= List.length (filter is_open rs))%nat.
Proof.
  induction rs as [|r rs IH]; simpl; [lia|].
  destruct (String.eqb (r_id r) rid); simpl.
  - destruct (is_open r); simpl; lia.
  - destruct (is_open r); simpl; lia.
Qed.

Lemma get_active_round_frame (s : state) :
  let s' := fst (get_active_round s) in
  users s' = users s /\ bets s' = bets s /\ rounds s' = rounds s /\
  settings s' = settings s /\ balance_logs s' = balance_logs s /\
  dice_sequence s' = dice_sequence s.
Proof.
  unfold get_active_round. destruct (latest_open None (rounds s)); simpl; auto 10.
Qed.

Lemma settle_step_rounds c dn t acc b s' w :
  settle_step c dn t acc b = Some (s', w) ->
  exists s0 w0, acc = Some (s0, w0) /\ rounds s' = rounds s0 /\
                settings s' = settings s0 /\
                current_round_id s' = current_round_id s0 /\
                dice_sequence s' = dice_sequence s0.
Proof.
  unfold settle_step. destruct acc as [[s0 w0]|]; [|discriminate].
  intros H. exists s0, w0. split; [reflexivity|].
  repeat case_match_in H; inversion H; subst; simpl; auto.
Qed.

Lemma settle_fold_rounds c dn t sel acc s' w :
  fold_left (settle_step c dn t) sel acc = Some (s', w) ->
  exists s0 w0, acc = Some (s0, w0) /\ rounds s' = rounds s0 /\
                settings s' = settings s0 /\
                current_round_id s' = current_round_id s0 /\
                dice_sequence s' = dice_sequence s0.
Proof.
  revert acc. induction sel as [|b sel IH]; simpl; intros acc H.
  - exists s', w. auto.
  - apply IH in H. destruct H as [s1 [w1 [E [R1 [R2 [R3 R4]]]]]].
    apply settle_step_rounds in E.
    destruct E as [s0 [w0 [-> [Q1 [Q2 [Q3 Q4]]]]]].
    exists s0, w0. repeat split; congruence.
Qed.

Lemma settle_bets_rounds rid d t s s' w :
  settle_bets rid d t s = Some (s', w) ->
  rounds s' = rounds s /\ settings s' = settings s /\
  current_round_id s' = current_round_id s /\
  dice_sequence s' = dice_sequence s.
Proof.
  unfold settle_bets. destruct (map_int _); [|discriminate].
  destruct (active_bets_in rid (bets s)) eqn:E.
  - intros H. inversion H; subst. auto.
  - intros H. apply settle_fold_rounds in H.
    destruct H as [s0 [w0 [E0 H]]]. inversion E0; subst. exact H.
Qed.

(** ** The ledger *)

Lemma sum_Z_app (a b : list Z) : sum_Z (a ++ b) = sum_Z a + sum_Z b.
Proof. unfold sum_Z. induction a; simpl; lia. Qed.

Lemma ledger_app (uid : Z) (a b : list log) :
  ledger uid (a ++ b) = ledger uid a + ledger uid b.
Proof. unfold ledger. now rewrite filter_app, map_app, sum_Z_app. Qed.

Lemma ledger_same (uid : Z) (es : list log) :
  (forall e, In e es -> l_user_id e = uid) ->
  ledger uid es = sum_Z (map l_amount es).
Proof.
  unfold ledger. induction es as [|e es IH]; simpl; intros H; [reflexivity|].
  rewrite (H e (or_introl eq_refl)), Z.eqb_refl. simpl.
  rewrite IH; [reflexivity|]. intros; apply H; now right.
Qed.

Lemma ledger_other (uid uid' : Z) (es : list log) :
  (forall e, In e es -> l_user_id e = uid') -> uid <> uid' ->
  ledger uid es = 0.
Proof.
  unfold ledger. induction es as [|e es IH]; simpl; intros H N; [reflexivity|].
  rewrite (H e (or_introl eq_refl)).
  destruct (uid' =? uid) eqn:E; [apply Z.eqb_eq in E; congruence|].
  apply IH; [|assumption]. intros; apply H; now right.
Qed.

Lemma find_user_by_id_In (uid : Z) (us : list user) (u : user) :
  find_user_by_id uid us = Some u -> In u us /\ u_id u = uid.
Proof.
  unfold find_user_by_id. intros H. apply find_some in H.
  destruct H as [H1 H2]. apply Z.eqb_eq in H2. auto.
Qed.

Lemma find_user_by_user_id_In (tg : Z) (us : list user) (u : user) :
  find_user_by_user_id tg us = Some u -> In u us /\ u_user_id u = tg.
Proof.
  unfold find_user_by_user_id. intros H. apply find_some in H.
  destruct H as [H1 H2]. apply Z.eqb_eq in H2. auto.
Qed.

Lemma same_id_same_balance (us : list user) (ls : list log) (u v : user) :
  ledger_ok us ls -> In u us -> In v us -> u_id u = u_id v ->
  u_balance u = u_balance v.
Proof.
  intros [_ [B _]] Hu Hv E.
  destruct (B u Hu) as [_ ->]. destruct (B v Hv) as [_ ->]. now rewrite E.
Qed.

(** The shape of every balance write: the rows of one user get a new
    balance, and entries of that user adding up to the change are
    appended. *)
Lemma ledger_update (us : list user) (ls : list log) (uid : Z)
  (entries : list log) (g : user -> Z) :
  ledger_ok us ls ->
  (forall e, In e entries -> l_user_id e = uid) ->
  (entries = [] \/ In uid (map u_id us)) ->
  (forall u, In u us -> u_id u = uid ->
             g u = u_balance u + sum_Z (map l_amount entries) /\ 0 <= g u) ->
  ledger_ok
    (map (fun u => if u_id u =? uid then set_balance_row u (g u) else u) us)
    (ls ++ entries).
Proof.
  intros [N [B L]] He Hin Hg.
  assert (Ids : map u_id
                  (map (fun u => if u_id u =? uid
                                 then set_balance_row u (g u) else u) us)
                = map u_id us).
  { rewrite map_map. apply map_ext. intros u.
    destruct (u_id u =? uid); reflexivity. }
  split; [|split].
  - now rewrite Ids.
  - intros u' Hu'. apply in_map_iff in Hu'. destruct Hu' as [u [<- Hu]].
    destruct (B u Hu) as [Bn Bl].
    destruct (u_id u =? uid) eqn:E.
    + apply Z.eqb_eq in E. destruct (Hg u Hu E) as [G1 G2]. simpl.
      split; [assumption|].
      rewrite ledger_app, E, (ledger_same uid entries He), G1, Bl, E.
      reflexivity.
    + apply Z.eqb_neq in E. split; [assumption|].
      rewrite ledger_app, (ledger_other (u_id u) uid entries He E). lia.
  - intros l Hl. rewrite Ids. apply in_app_or in Hl. destruct Hl as [Hl|Hl].
    + now apply L.
    + rewrite (He l Hl). destruct Hin as [-> | Hin]; [contradiction|assumption].
Qed.

Lemma ledger_set_balance (us : list user) (ls : list log) (uid d : Z)
  (u : user) (entries : list log) :
  ledger_ok us ls ->
  In u us -> u_id u = uid ->
  (forall e, In e entries -> l_user_id e = uid) ->
  sum_Z (map l_amount entries) = d ->
  0 <= u_balance u + d ->
  ledger_ok (set_balance uid (u_balance u + d) us) (ls ++ entries).
Proof.
  intros Ok Hu Hid He Hs Hn. unfold set_balance.
  apply (ledger_update us ls uid entries (fun _ => u_balance u + d));
    try assumption.
  - right. rewrite <- Hid. now apply in_map.
  - intros v Hv Ev.
    rewrite (same_id_same_balance us ls v u Ok Hv Hu) by congruence.
    split; [congruence | assumption].
Qed.

Lemma ledger_add_balance (us : list user) (ls : list log) (uid d : Z)
  (entries : list log) :
  ledger_ok us ls ->
  In uid (map u_id us) ->
  (forall e, In e entries -> l_user_id e = uid) ->
  sum_Z (map l_amount entries) = d ->
  0 <= d ->
  ledger_ok (add_balance uid d us) (ls ++ entries).
Proof.
  intros Ok Hin He Hs Hn. unfold add_balance.
  apply (ledger_update us ls uid entries (fun u => u_balance u + d));
    try assumption.
  - now right.
  - intros v Hv Ev. destruct Ok as [_ [B _]]. destruct (B v Hv) as [Bn _].
    split; [congruence | lia].
Qed.

(** Writes that leave ids and balances alone. *)
Lemma ledger_map_roles (us : list user) (ls : list log) (f : user -> user) :
  (forall u, u_id (f u) = u_id u /\ u_balance (f u) = u_balance u) ->
  ledger_ok us ls -> ledger_ok (map f us) ls.
Proof.
  intros Hf [N [B L]].
  assert (Ids : map u_id (map f us) = map u_id us).
  { rewrite map_map. apply map_ext. intros u. apply Hf. }
  split; [|split].
  - now rewrite Ids.
  - intros u' Hu'. apply in_map_iff in Hu'. destruct Hu' as [u [<- Hu]].
    destruct (Hf u) as [-> ->]. now apply B.
  - intros l Hl. rewrite Ids. now apply L.
Qed.

Lemma next_rowid_above (ids : list Z) (x : Z) :
  In x ids -> x < next_rowid ids.
Proof.
  unfold next_rowid. induction ids as [|y ids IH]; simpl; intros H.
  - contradiction.
  - destruct H as [-> | H]; [lia|]. apply IH in H. lia.
Qed.

Lemma next_rowid_fresh (ids : list Z) : ~ In (next_rowid ids) ids.
Proof. intros H. apply next_rowid_above in H. lia. Qed.

Lemma ledger_unknown (us : list user) (ls : list log) (uid : Z) :
  ledger_ok us ls -> ~ In uid (map u_id us) -> ledger uid ls = 0.
Proof.
  intros [_ [_ L]] N. unfold ledger.
  assert (E : filter (fun l => l_user_id l =? uid) ls = []).
  { induction ls as [|l ls IH]; simpl; [reflexivity|].
    destruct (l_user_id l =? uid) eqn:E.
    - apply Z.eqb_eq in E. exfalso. apply N. rewrite <- E.
      apply L. now left.
    - apply IH. intros l' Hl'. apply L. now right. }
  now rewrite E.
Qed.

Lemma ledger_register (us : list user) (ls : list log) (u : user) :
  ledger_ok us ls -> u_id u = next_rowid (map u_id us) -> u_balance u = 0 ->
  ledger_ok (us ++ [u]) ls.
Proof.
  intros Ok Hid Hb. pose proof (next_rowid_fresh (map u_id us)) as Fr.
  pose proof (ledger_unknown us ls _ Ok Fr) as Z0.
  destruct Ok as [N [B L]]. split; [|split].
  - rewrite map_app. simpl. rewrite <- Hid in Fr.
    apply (NoDup_Add (a := u_id u) (l := map u_id us)); [|split; assumption].
    clear. induction (map u_id us); simpl; constructor; assumption.
  - intros v Hv. apply in_app_or in Hv. destruct Hv as [Hv | [<- | []]].
    + now apply B.
    + rewrite Hb, Hid, Z0. lia.
  - intros l Hl. rewrite map_app. apply in_or_app. left. now apply L.
Qed.

(** ** The bets table *)

Lemma bets_ok_map (bs : list bet) (f : bet -> bet) :
  (forall b, b_id (f b) = b_id b /\ b_amount (f b) = b_amount b) ->
  bets_ok bs -> bets_ok (map f bs).
Proof.
  intros Hf [N P]. split.
  - rewrite map_map.
    rewrite (map_ext (fun b => b_id (f b)) b_id); [assumption|].
    intros b. apply Hf.
  - apply Forall_forall. intros b' Hb'. apply in_map_iff in Hb'.
    destruct Hb' as [b [<- Hb]]. destruct (Hf b) as [_ ->].
    rewrite Forall_forall in P. now apply P.
Qed.

Lemma write_result_ok (bid : Z) (r : bet_result) (p : Z) (bs : list bet) :
  bets_ok bs -> bets_ok (write_result bid r p bs).
Proof.
  apply bets_ok_map. intros b. destruct (b_id b =? bid); auto.
Qed.

Lemma cancel_by_id_ok (bid : Z) (bs : list bet) :
  bets_ok bs -> bets_ok (cancel_by_id bid bs).
Proof.
  apply bets_ok_map. intros b. destruct (b_id b =? bid); auto.
Qed.

Lemma NoDup_snoc {A} (l : list A) (a : A) :
  NoDup l -> ~ In a l -> NoDup (l ++ [a]).
Proof.
  intros N H. apply (NoDup_Add (a := a) (l := l)); [|split; assumption].
  clear. induction l; simpl; constructor; assumption.
Qed.

Lemma place_bets_ok (uid : Z) (rid : string) (t : Z) (its : list intent)
  (bs : list bet) :
  Forall (fun i => 0 < iamount i) its -> bets_ok bs ->
  bets_ok (place_bets uid rid t its bs).
Proof.
  unfold place_bets. revert bs.
  induction its as [|i its IH]; simpl; intros bs Hp Ok; [assumption|].
  inversion Hp; subst. apply IH; [assumption|].
  destruct Ok as [N P]. split.
  - rewrite map_app. simpl. apply NoDup_snoc; [assumption|].
    apply next_rowid_fresh.
  - apply Forall_app. split; [assumption|]. constructor; [|constructor].
    simpl. assumption.
Qed.

Lemma place_logs_sum (uid t : Z) (its : list intent) :
  sum_Z (map l_amount (place_logs uid t its)) = - sum_Z (map iamount its).
Proof.
  unfold place_logs. induction its as [|i its IH]; simpl; [reflexivity|].
  unfold sum_Z in *. simpl. lia.
Qed.

Lemma place_logs_owner (uid t : Z) (its : list intent) (e : log) :
  In e (place_logs uid t its) -> l_user_id e = uid.
Proof.
  unfold place_logs. intros H. apply in_map_iff in H.
  destruct H as [i [<- _]]. reflexivity.
Qed.

Lemma stakes_in_range (c : settings_row) (its : list intent) :
  settings_ok c ->
  existsb (fun i => (iamount i <? min_bet c) || (iamount i >? max_bet c)) its
  = false ->
  Forall (fun i => 0 < iamount i) its.
Proof.
  unfold settings_ok. intros Hc H. apply Forall_forall. intros i Hi.
  destruct (iamount i <? min_bet c) eqn:E.
  - assert (existsb (fun i => (iamount i <? min_bet c)
                              || (iamount i >? max_bet c)) its = true).
    { apply existsb_exists. exists i. split; [assumption|]. now rewrite E. }
    congruence.
  - apply Z.ltb_ge in E. lia.
Qed.

(** ** Every handler keeps the invariants *)

Lemma start_Inv (s : state) (tg : Z) (a : option string * Z * clock) :
  Inv s -> Inv (fst (start s tg a)).
Proof.
  intros I. unfold start. destruct a as [[username chat_id] clk].
  destruct (find_user_by_user_id tg (users s)).
  - exact I.
  - destruct I as [L [B [R C]]]. cbv zeta. simpl fst. split; [|split; [|split]]; simpl; try assumption.
    case_match.
    + apply ledger_map_roles.
      * intros u. destruct (u_user_id u =? tg); auto.
      * apply ledger_register; auto.
    + apply ledger_register; auto.
Qed.

Lemma adjust_target_inr (s : state) (r : option Z) (text : string)
  (tid bal a : Z) :
  adjust_target s r text = inr (tid, bal, a) ->
  exists u, In u (users s) /\ u_id u = tid /\ u_balance u = bal.
Proof.
  unfold adjust_target. intros H.
  repeat case_match_in H; try discriminate; inversion H; subst.
  - match goal with
    | F : find_user_by_user_id _ _ = Some ?u |- _ =>
        apply find_user_by_user_id_In in F; exists u; tauto
    end.
  - match goal with
    | F : find_user_by_id _ _ = Some ?u |- _ =>
        apply find_user_by_id_In in F; exists u; tauto
    end.
Qed.

Lemma adjust_balance_body_Inv (s : state) (tg : Z) (a : adjust_update) :
  Inv s -> Inv (fst (adjust_balance_body s tg a)).
Proof.
  intros I. unfold adjust_balance_body. destruct a as [[r text] clk].
  destruct (find_user_by_user_id tg (users s)) as [op|]; [|exact I].
  destruct (adjust_target s r text) as [rp|[[tid bal] amount]] eqn:T;
    [exact I|].
  destruct ((amount <? 0) && (bal + amount <? 0)) eqn:G; [exact I|].
  apply adjust_target_inr in T. destruct T as [u [Hu [Hid Hb]]].
  destruct I as [L [B [R C]]].
  split; [|split; [|split]]; simpl; try assumption.
  rewrite <- Hb. apply ledger_set_balance; auto.
  - intros e [<- | []]. reflexivity.
  - unfold sum_Z. simpl. lia.
  - destruct L as [_ [Bal _]]. destruct (Bal u Hu) as [Bn _].
    apply andb_false_iff in G. rewrite !Z.ltb_ge in G. lia.
Qed.

Lemma deduct_by_username_body_Inv (s : state) (tg : Z) (a : string * clock) :
  Inv s -> Inv (fst (deduct_by_username_body s tg a)).
Proof.
  intros I. unfold deduct_by_username_body. destruct a as [text clk].
  destruct (match_kou (strip text)) as [[name digits]|]; [|exact I].
  destruct (digits_value 0 digits <=? 0) eqn:Pos; [exact I|].
  match goal with
  | |- context [match ?x with Some u => _ | None => (s, NoSuchUser) end] =>
      destruct x as [u|] eqn:F; [|exact I]
  end.
  assert (Hu : In u (users s)).
  { repeat case_match_in F; try discriminate.
    - inversion F; subst.
      match goal with
      | H : find_user_by_username _ _ = Some _ |- _ =>
          apply find_some in H; tauto
      end.
    - apply find_user_by_user_id_In in F. tauto. }
  destruct (u_balance u <? digits_value 0 digits) eqn:G; [exact I|].
  destruct (find_user_by_user_id tg (users s)) as [op|]; [|exact I].
  destruct I as [L [B [R C]]].
  split; [|split; [|split]]; simpl; try assumption.
  replace (u_balance u - digits_value 0 digits)
    with (u_balance u + - digits_value 0 digits) by lia.
  apply ledger_set_balance; auto.
  - intros e [<- | []]. reflexivity.
  - unfold sum_Z. simpl. lia.
  - apply Z.ltb_ge in G. lia.
Qed.

Lemma clear_entries_other (us : list user) (uid op t : Z) :
  ~ In uid (map u_id us) ->
  ledger uid
    (map (fun u => mk_log (u_id u) (- u_balance u) admin_clear op t)
       (filter (fun u => u_balance u >? 0) us)) = 0.
Proof.
  unfold ledger. induction us as [|v r IH]; simpl; intros N; [reflexivity|].
  assert (Nv : u_id v <> uid) by tauto.
  assert (Nr : ~ In uid (map u_id r)) by tauto.
  destruct (u_balance v >? 0); simpl.
  - apply Z.eqb_neq in Nv. rewrite Nv. now apply IH.
  - now apply IH.
Qed.

Lemma clear_entries_own (us : list user) (u : user) (op t : Z) :
  NoDup (map u_id us) -> In u us ->
  (forall v, In v us -> 0 <= u_balance v) ->
  ledger (u_id u)
    (map (fun u => mk_log (u_id u) (- u_balance u) admin_clear op t)
       (filter (fun u => u_balance u >? 0) us)) = - u_balance u.
Proof.
  induction us as [|v r IH]; simpl; intros N Hu Hn; [contradiction|].
  inversion N as [|x l Nx Nr]; subst.
  destruct Hu as [-> | Hu].
  - pose proof (clear_entries_other r (u_id u) op t Nx) as Z0.
    destruct (u_balance u >? 0) eqn:P; simpl.
    + unfold ledger in *. simpl. rewrite Z.eqb_refl. simpl.
      unfold sum_Z in *. simpl. rewrite Z0. lia.
    + rewrite Z0. specialize (Hn u (or_introl eq_refl)).
      rewrite Z.gtb_ltb in P. apply Z.ltb_ge in P. lia.
  - assert (Ne : u_id v <> u_id u).
    { intros E. apply Nx. rewrite E. now apply in_map. }
    assert (IH' := IH Nr Hu (fun w Hw => Hn w (or_intror Hw))).
    destruct (u_balance v >? 0); simpl; [|assumption].
    unfold ledger in *. simpl. apply Z.eqb_neq in Ne. rewrite Ne. assumption.
Qed.

Lemma ledger_clear (us : list user) (ls : list log) (op t : Z) :
  ledger_ok us ls ->
  ledger_ok (map (fun u => set_balance_row u 0) us)
    (ls ++ map (fun u => mk_log (u_id u) (- u_balance u) admin_clear op t)
             (filter (fun u => u_balance u >? 0) us)).
Proof.
  intros [N [B L]].
  assert (Ids : map u_id (map (fun u => set_balance_row u 0) us)
                = map u_id us).
  { rewrite map_map. apply map_ext. reflexivity. }
  split; [|split].
  - now rewrite Ids.
  - intros u' Hu'. apply in_map_iff in Hu'. destruct Hu' as [u [<- Hu]].
    simpl. split; [lia|]. rewrite ledger_app.
    rewrite (clear_entries_own us u op t N Hu (fun v Hv => proj1 (B v Hv))).
    destruct (B u Hu) as [_ <-]. lia.
  - intros l Hl. rewrite Ids. apply in_app_or in Hl. destruct Hl as [Hl|Hl].
    + now apply L.
    + apply in_map_iff in Hl. destruct Hl as [u [<- Hu]]. simpl.
      apply filter_In in Hu. apply in_map. tauto.
Qed.

Lemma clear_all_balances_body_Inv (s : state) (tg : Z)
  (a : list string * clock) :
  Inv s -> Inv (fst (clear_all_balances_body s tg a)).
Proof.
  intros I. unfold clear_all_balances_body. destruct a as [args clk].
  destruct args as [|a0 args]; [exact I|].
  destruct (negb (String.eqb a0 "confirm")); [exact I|].
  destruct (find_user_by_user_id tg (users s)) as [op|]; [|exact I].
  destruct I as [L [B [R C]]].
  split; [|split; [|split]]; simpl; try assumption.
  now apply ledger_clear.
Qed.

Lemma get_active_round_Inv (s : state) :
  Inv s -> Inv (fst (get_active_round s)).
Proof.
  intros I. unfold get_active_round.
  destruct (latest_open None (rounds s)); exact I.
Qed.

Lemma create_new_round_frame (s : state) (clk : clock) :
  let s' := fst (create_new_round s clk) in
  users s' = users s /\ bets s' = bets s /\ settings s' = settings s /\
  balance_logs s' = balance_logs s /\ dice_sequence s' = dice_sequence s.
Proof.
  unfold create_new_round. repeat case_match; simpl; auto.
Qed.

Lemma create_new_round_ids (s : state) (clk : clock) :
  NoDup (map r_id (rounds s)) ->
  NoDup (map r_id (rounds (fst (create_new_round s clk)))).
Proof.
  intros N. unfold create_new_round.
  destruct (check_pending_round s); [exact N|].
  match goal with
  | |- context [existsb ?f ?l] => destruct (existsb f l) eqn:X
  end; [exact N|].
  simpl. rewrite map_app. simpl. apply NoDup_snoc; [exact N|].
  intros H. apply in_map_iff in H. destruct H as [r [E Hr]].
  assert (existsb
            (fun r0 => String.eqb (r_id r0)
               (today clk ++
                zfill 3
                  (str (count (fun r1 => prefix (today clk) (r_id r1))
                          (rounds s) + 1))))
            (rounds s) = true).
  { apply existsb_exists. exists r. split; [assumption|].
    now apply String.eqb_eq. }
  congruence.
Qed.

Lemma create_new_round_Inv (s : state) (clk : clock) :
  Inv s -> Inv (fst (create_new_round s clk)).
Proof.
  intros [L [B [[R N] C]]].
  destruct (create_new_round_frame s clk) as [E1 [E2 [E3 [E4 _]]]].
  split; [|split; [|split]].
  - now rewrite E1, E4.
  - now rewrite E2.
  - split; [now apply create_new_round_ok | now apply create_new_round_ids].
  - now rewrite E3.
Qed.

Lemma set_betting_status_Inv (flag : bool) (s : state) :
  Inv s -> Inv (set_betting_status flag s).
Proof. intros I. exact I. Qed.

Lemma open_betting_body_Inv (s : state) (tg : Z) (clk : clock) :
  Inv s -> Inv (fst (open_betting_body s tg clk)).
Proof.
  intros I. unfold open_betting_body.
  destruct (betting_active (settings s)); [exact I|].
  pose proof (get_active_round_Inv _ (set_betting_status_Inv true s I)) as I1.
  destruct (get_active_round (set_betting_status true s)) as [s2 [rid|]];
    simpl in I1; [exact I1|].
  pose proof (create_new_round_Inv s2 clk I1) as I2.
  destruct (create_new_round s2 clk) as [s3 []]; exact I2.
Qed.

Lemma stop_betting_body_Inv (s : state) (tg : Z) (a : unit) :
  Inv s -> Inv (fst (stop_betting_body s tg a)).
Proof.
  intros I. unfold stop_betting_body.
  destruct (negb (betting_active (settings s))); exact I.
Qed.

Lemma set_bet_limits_body_Inv (s : state) (tg : Z) (args : list string) :
  Inv s -> Inv (fst (set_bet_limits_body s tg args)).
Proof.
  intros I. unfold set_bet_limits_body.
  repeat case_match; try exact I.
  destruct I as [L [B [R C]]].
  split; [|split; [|split]]; simpl; try assumption.
  unfold settings_ok. simpl.
  match goal with
  | H : (_ <=? 0) || _ = false |- _ =>
      apply orb_false_iff in H; destruct H as [H _];
      apply Z.leb_gt in H; exact H
  end.
Qed.

Lemma set_odds_value_body_Inv (s : state) (tg : Z) (args : list string) :
  Inv s -> Inv (fst (set_odds_value_body s tg args)).
Proof.
  intros I. unfold set_odds_value_body.
  repeat case_match; exact I.
Qed.

Lemma set_allow_irrelevant_body_Inv (s : state) (tg : Z) (a : option bool) :
  Inv s -> Inv (fst (set_allow_irrelevant_body s tg a)).
Proof.
  intros I. unfold set_allow_irrelevant_body. destruct a; exact I.
Qed.

Lemma change_admin_body_Inv (s : state) (tg : Z) (a : Z * bool) :
  Inv s -> Inv (fst (change_admin_body s tg a)).
Proof.
  intros I. unfold change_admin_body. destruct a as [target flag].
  destruct (find_user_by_id target (users s)); [|exact I].
  destruct I as [L [B [R C]]].
  split; [|split; [|split]]; simpl; try assumption.
  apply ledger_map_roles; [|assumption].
  intros v. destruct (u_id v =? target); auto.
Qed.

Lemma place_Inv (s : state) (db_user : user) (rid text : string)
  (clk : clock) :
  Inv s -> In db_user (users s) ->
  Inv (fst (place s db_user rid text clk)).
Proof.
  intros I Hu. unfold place. cbv zeta.
  destruct (parse_bet text) as [new_bets|]; [|exact I].
  case_match; [exact I|].
  case_match; [exact I|].
  case_match; [exact I|].
  case_match; [exact I|].
  destruct I as [L [B [R C]]].
  split; [|split; [|split]]; simpl; try assumption.
  - replace (u_balance db_user - sum_Z (map iamount new_bets))
      with (u_balance db_user + - sum_Z (map iamount new_bets)) by lia.
    apply ledger_set_balance; auto.
    + apply place_logs_owner.
    + apply place_logs_sum.
    + match goal with
      | H : (u_balance db_user <? _) = false |- _ => apply Z.ltb_ge in H; lia
      end.
  - apply place_bets_ok; [|assumption].
    eapply stakes_in_range; eassumption.
Qed.

Lemma process_bet_Inv (s : state) (tg : Z) (a : string * clock) :
  Inv s -> Inv (fst (process_bet s tg a)).
Proof.
  intros I. unfold process_bet. destruct a as [text clk].
  destruct (negb (betting_active (settings s))); [exact I|].
  cbv zeta. case_match; [exact I|].
  destruct (find_user_by_user_id tg (users s)) as [db_user|] eqn:F;
    [|exact I].
  apply find_user_by_user_id_In in F. destruct F as [Hu _].
  pose proof (get_active_round_Inv s I) as I1.
  pose proof (get_active_round_frame s) as [E1 _].
  destruct (get_active_round s) as [s1 [rid|]]; simpl in I1, E1.
  - apply place_Inv; [assumption | now rewrite E1].
  - pose proof (create_new_round_Inv (with_current s None) clk I) as I2.
    pose proof (create_new_round_frame (with_current s None) clk) as [E2 _].
    destruct (create_new_round (with_current s None) clk) as [s2 [|rid|]];
      simpl in I2, E2; try exact I2.
    apply place_Inv; [assumption | now rewrite E2].
Qed.

Lemma settle_step_Inv c dn t s w b s' w' :
  Inv s -> settle_step c dn t (Some (s, w)) b = Some (s', w') -> Inv s'.
Proof.
  intros [L [B [R C]]] H. unfold settle_step in H.
  destruct (settle_one c dn b) as [result p].
  assert (B' : bets_ok (write_result (b_id b) result p (bets s)))
    by now apply write_result_ok.
  destruct result.
  - destruct (p >? 0) eqn:P.
    + simpl in H.
      destruct (find_user_by_id (b_user_id b) (users s)) as [u|] eqn:F;
        [|discriminate].
      inversion H; subst; clear H.
      apply find_user_by_id_In in F. destruct F as [Hu Hid].
      split; [|split; [|split]]; simpl; try assumption.
      apply ledger_set_balance; auto.
      * intros e [<- | []]. reflexivity.
      * unfold sum_Z. simpl. lia.
      * destruct L as [_ [Bal _]]. destruct (Bal u Hu) as [Bn _].
        rewrite Z.gtb_ltb in P. apply Z.ltb_lt in P. lia.
    + inversion H; subst. split; [|split; [|split]]; simpl; assumption.
  - inversion H; subst. split; [|split; [|split]]; simpl; assumption.
Qed.

Lemma settle_step_None c dn t b : settle_step c dn t None b = None.
Proof. reflexivity. Qed.

Lemma settle_fold_None c dn t sel :
  fold_left (settle_step c dn t) sel None = None.
Proof. induction sel; simpl; auto. Qed.

Lemma settle_fold_Inv c dn t sel s w s' w' :
  Inv s ->
  fold_left (settle_step c dn t) sel (Some (s, w)) = Some (s', w') ->
  Inv s'.
Proof.
  revert s w. induction sel as [|b sel IH]; intros s w I H;
    cbn [fold_left] in H.
  - inversion H; subst. assumption.
  - destruct (settle_step c dn t (Some (s, w)) b) as [[s1 w1]|] eqn:E.
    + apply (IH s1 w1); [|assumption]. eapply settle_step_Inv; eassumption.
    + rewrite settle_fold_None in H. discriminate.
Qed.

Lemma settle_bets_Inv rid d t s s' w :
  Inv s -> settle_bets rid d t s = Some (s', w) -> Inv s'.
Proof.
  intros I. unfold settle_bets. destruct (map_int _); [|discriminate].
  destruct (active_bets_in rid (bets s)).
  - intros H. inversion H; subst. assumption.
  - intros H. eapply settle_fold_Inv; eassumption.
Qed.

Lemma close_and_settle_Inv (s : state) (tg : Z) (rid : string)
  (dv : list Z) (clk : clock) :
  Inv s -> Inv (fst (close_and_settle s tg rid dv clk)).
Proof.
  intros I. unfold close_and_settle.
  destruct (find_user_by_user_id tg (users s)); [|exact I].
  destruct (find_round rid (rounds s)); [|exact I].
  case_match; [exact I|]. case_match; [exact I|].
  destruct dv as [|d0 [|d1 [|d2 [|d3 dv]]]]; try exact I.
  match goal with
  | |- context [settle_bets ?r ?d ?t ?s1] =>
      destruct (settle_bets r d t s1) as [[s2 w]|] eqn:E; [|exact I];
      apply (settle_bets_Inv r d t s1 s2 w) in E
  end.
  - exact E.
  - destruct I as [L [B [R C]]].
    split; [|split; [|split]]; simpl; try assumption.
    destruct R as [R N]. split.
    + unfold rounds_ok in *.
      eapply Nat.le_trans; [apply close_round_open | exact R].
    + unfold close_round. rewrite map_map.
      rewrite (map_ext _ r_id); [exact N|].
      intros x. destruct (String.eqb (r_id x) rid); reflexivity.
Qed.

Lemma check_and_close_Inv (s : state) (tg : Z) (rid : string)
  (dv : list Z) (clk : clock) :
  Inv s -> Inv (fst (check_and_close s tg rid dv clk)).
Proof.
  intros I. unfold check_and_close.
  case_match; [exact I|]. case_match; [exact I|].
  now apply close_and_settle_Inv.
Qed.

Lemma handle_dice_Inv (s : state) (tg : Z) (a : dice_message * clock) :
  Inv s -> Inv (fst (handle_dice s tg a)).
Proof.
  intros I. unfold handle_dice. destruct a as [message clk].
  pose proof (get_active_round_Inv s I) as I1.
  destruct (get_active_round s) as [s1 [rid|]]; simpl in I1; [|exact I].
  destruct message as [v|matches]; cbv zeta.
  - case_match.
    + apply check_and_close_Inv. exact I1.
    + exact I1.
  - case_match.
    + now apply check_and_close_Inv.
    + exact I1.
Qed.

Lemma cancel_all_ok (sel bs : list bet) :
  bets_ok bs ->
  bets_ok (fold_left (fun acc b => cancel_by_id (b_id b) acc) sel bs).
Proof.
  revert bs. induction sel as [|b sel IH]; simpl; intros bs Ok; [assumption|].
  apply IH. now apply cancel_by_id_ok.
Qed.

Lemma cancel_step_ok (uid : Z) (rid : string) (t : Z)
  (acc : list bet * list log * Z) (i : intent) :
  cancel_acc_ok uid acc -> cancel_acc_ok uid (cancel_step uid rid t acc i).
Proof.
  destruct acc as [[bs entries] total]. unfold cancel_step, cancel_acc_ok.
  intros [B [O S]].
  destruct (find_bet_record uid rid i bs) as [rec|]; [|auto].
  split; [|split].
  - now apply cancel_by_id_ok.
  - intros e He. apply in_app_or in He. destruct He as [He | [<- | []]].
    + now apply O.
    + reflexivity.
  - rewrite map_app, sum_Z_app, S. unfold sum_Z. simpl. lia.
Qed.

Lemma cancel_fold_ok (uid : Z) (rid : string) (t : Z) (its : list intent)
  (acc : list bet * list log * Z) :
  cancel_acc_ok uid acc ->
  cancel_acc_ok uid (fold_left (cancel_step uid rid t) its acc).
Proof.
  revert acc. induction its as [|i its IH]; simpl; intros acc Ok;
    [assumption|].
  apply IH. now apply cancel_step_ok.
Qed.

Lemma cancel_bet_Inv (s : state) (tg : Z) (a : option string * clock) :
  Inv s -> Inv (fst (cancel_bet s tg a)).
Proof.
  intros I. unfold cancel_bet. destruct a as [reply_to clk].
  destruct (find_user_by_user_id tg (users s)) as [db_user|] eqn:F;
    [|exact I].
  apply find_user_by_user_id_In in F. destruct F as [Hu _].
  pose proof (get_active_round_Inv s I) as I1.
  pose proof (get_active_round_frame s) as [E1 _].
  destruct (get_active_round s) as [s1 [rid|]]; simpl in I1, E1; [|exact I].
  destruct (find_round rid (rounds s1)); [|exact I1].
  case_match; [exact I1|].
  assert (Hid : In (u_id db_user) (map u_id (users s1))).
  { rewrite E1. now apply in_map. }
  destruct I1 as [L [B [R C]]].
  assert (K : forall bs entries total,
             cancel_acc_ok (u_id db_user) (bs, entries, total) ->
             Inv (fst (if total >? 0
                       then (with_users
                               (with_logs (with_bets s1 bs)
                                  (balance_logs s1 ++ entries))
                               (add_balance (u_id db_user) total (users s1)),
                             Refunded total)
                       else (s1, NoneFound)))).
  { intros bs entries total [B' [O S]].
    destruct (total >? 0) eqn:P.
    - split; [|split; [|split]]; simpl; try assumption.
      apply ledger_add_balance; auto.
      rewrite Z.gtb_ltb in P. apply Z.ltb_lt in P. lia.
    - split; [|split; [|split]]; assumption. }
  destruct reply_to as [replied_text|].
  - destruct (parse_bet replied_text) as [bet_info|].
    + pose proof (cancel_fold_ok (u_id db_user) rid (now clk) bet_info
                    (bets s1, [], 0)) as Ok.
      destruct (fold_left _ bet_info _) as [[bs entries] total].
      apply K. apply Ok.
      split; [assumption | split; [intros e [] | reflexivity]].
    + split; [|split; [|split]]; assumption.
  - destruct (active_bets_of (u_id db_user) rid (bets s1)) as [|b0 sel] eqn:A.
    + split; [|split; [|split]]; assumption.
    + apply K. split; [|split].
      * now apply cancel_all_ok.
      * intros e [<- | []]. reflexivity.
      * unfold sum_Z. simpl. lia.
Qed.

(** ** Invariants of every reachable state *)

Lemma init_Inv : Inv init.
Proof.
  split; [|split; [|split]]; simpl.
  - split; [constructor|]. split; intros ? [].
  - split; constructor.
  - split; [unfold rounds_ok; simpl; lia | constructor].
  - unfold settings_ok. simpl. lia.
Qed.

Lemma step_Inv (s : state) (e : event) : Inv s -> Inv (step s e).
Proof.
  intros I. unfold step. destruct e; unfold handle.
  - now apply start_Inv.
  - apply (admin_required_preserves Inv);
      [apply adjust_balance_body_Inv | exact I].
  - apply (admin_required_preserves Inv);
      [apply deduct_by_username_body_Inv | exact I].
  - apply (super_admin_required_preserves Inv);
      [apply clear_all_balances_body_Inv | exact I].
  - apply (admin_required_preserves Inv);
      [apply open_betting_body_Inv | exact I].
  - apply (admin_required_preserves Inv);
      [apply stop_betting_body_Inv | exact I].
  - now apply process_bet_Inv.
  - now apply handle_dice_Inv.
  - now apply cancel_bet_Inv.
  - apply (admin_required_preserves Inv);
      [apply set_bet_limits_body_Inv | exact I].
  - apply (super_admin_required_preserves Inv);
      [apply set_odds_value_body_Inv | exact I].
  - apply (admin_required_preserves Inv);
      [apply set_allow_irrelevant_body_Inv | exact I].
  - apply (super_admin_required_preserves Inv);
      [apply change_admin_body_Inv | exact I].
Qed.

Lemma run_Inv (es : list event) (s : state) : Inv s -> Inv (run s es).
Proof.
  revert s. induction es as [|e es IH]; simpl; intros s I; [assumption|].
  apply IH. now apply step_Inv.
Qed.

Lemma reachable_Inv (s : state) : reachable s -> Inv s.
Proof. intros [es <-]. apply run_Inv. apply init_Inv. Qed.



(** ** The single open round *)

Lemma place_rounds (s : state) (u : user) (rid text : string) (clk : clock) :
  rounds (fst (place s u rid text clk)) = rounds s.
Proof. unfold place. cbv zeta. frame. Qed.

Lemma process_bet_rounds_ok (s : state) (tg : Z) (a : string * clock) :
  rounds_ok (rounds s) -> rounds_ok (rounds (fst (process_bet s tg a))).
Proof.
  intros R. unfold process_bet. destruct a as [text clk].
  case_match; [exact R|]. cbv zeta. case_match; [exact R|].
  case_match; [|exact R].
  pose proof (get_active_round_frame s) as [_ [_ [E _]]].
  destruct (get_active_round s) as [s1 [rid|]]; simpl in E.
  - rewrite place_rounds. now rewrite E.
  - pose proof (create_new_round_ok (with_current s None) clk R) as R2.
    destruct (create_new_round (with_current s None) clk) as [s2 [|rid|]];
      simpl in R2; try exact R2.
    now rewrite place_rounds.
Qed.

Lemma close_and_settle_rounds_ok (s : state) (tg : Z) (rid : string)
  (dv : list Z) (clk : clock) :
  rounds_ok (rounds s) ->
  rounds_ok (rounds (fst (close_and_settle s tg rid dv clk))).
Proof.
  intros R. unfold close_and_settle.
  case_match; [|exact R]. case_match; [|exact R].
  case_match; [exact R|]. case_match; [exact R|].
  destruct dv as [|d0 [|d1 [|d2 [|d3 dv]]]]; try exact R.
  match goal with
  | |- context [settle_bets ?r ?d ?t ?s1] =>
      destruct (settle_bets r d t s1) as [[s2 w]|] eqn:E; [|exact R];
      apply settle_bets_rounds in E; destruct E as [E _]
  end.
  simpl. rewrite E. simpl. unfold rounds_ok in *.
  eapply Nat.le_trans; [apply close_round_open | exact R].
Qed.

Lemma handle_dice_rounds_ok (s : state) (tg : Z) (a : dice_message * clock) :
  rounds_ok (rounds s) -> rounds_ok (rounds (fst (handle_dice s tg a))).
Proof.
  intros R. unfold handle_dice. destruct a as [message clk].
  pose proof (get_active_round_frame s) as [_ [_ [E _]]].
  destruct (get_active_round s) as [s1 [rid|]]; simpl in E; [|exact R].
  rewrite <- E in R.
  destruct message as [v|matches]; cbv zeta; case_match; try exact R;
    unfold check_and_close; repeat (case_match; [exact R|]);
    now apply close_and_settle_rounds_ok.
Qed.

Lemma cancel_bet_rounds (s : state) (tg : Z) (a : option string * clock) :
  rounds (fst (cancel_bet s tg a)) = rounds s.
Proof.
  unfold cancel_bet. destruct a as [reply_to clk].
  pose proof (get_active_round_frame s) as [_ [_ [E _]]].
  destruct (get_active_round s) as [s1 o]; simpl in E. cbv zeta. frame.
Qed.

Lemma open_betting_body_rounds_ok (s : state) (tg : Z) (clk : clock) :
  rounds_ok (rounds s) ->
  rounds_ok (rounds (fst (open_betting_body s tg clk))).
Proof.
  intros R. unfold open_betting_body. case_match; [exact R|].
  pose proof (get_active_round_frame (set_betting_status true s))
    as [_ [_ [E _]]].
  destruct (get_active_round (set_betting_status true s)) as [s2 [rid|]];
    simpl in E.
  - simpl. now rewrite E.
  - assert (R2 : rounds_ok (rounds s2)) by now rewrite E.
    pose proof (create_new_round_ok s2 clk R2) as R3.
    destruct (create_new_round s2 clk) as [s3 []]; exact R3.
Qed.

Lemma step_rounds_ok (s : state) (e : event) :
  rounds_ok (rounds s) -> rounds_ok (rounds (step s e)).
Proof.
  intros R. unfold step. destruct e; unfold handle.
  - unfold start. frame.
  - apply (admin_required_preserves (fun s => rounds_ok (rounds s)));
      [|exact R].
    unfold adjust_balance_body. frame.
  - apply (admin_required_preserves (fun s => rounds_ok (rounds s)));
      [|exact R].
    unfold deduct_by_username_body. frame.
  - apply (super_admin_required_preserves (fun s => rounds_ok (rounds s)));
      [|exact R].
    unfold clear_all_balances_body. frame.
  - apply (admin_required_preserves (fun s => rounds_ok (rounds s)));
      [|exact R].
    apply open_betting_body_rounds_ok.
  - apply (admin_required_preserves (fun s => rounds_ok (rounds s)));
      [|exact R].
    unfold stop_betting_body. frame.
  - now apply process_bet_rounds_ok.
  - now apply handle_dice_rounds_ok.
  - now rewrite cancel_bet_rounds.
  - apply (admin_required_preserves (fun s => rounds_ok (rounds s)));
      [|exact R].
    unfold set_bet_limits_body. frame.
  - apply (super_admin_required_preserves (fun s => rounds_ok (rounds s)));
      [|exact R].
    unfold set_odds_value_body. frame.
  - apply (admin_required_preserves (fun s => rounds_ok (rounds s)));
      [|exact R].
    unfold set_allow_irrelevant_body. frame.
  - apply (super_admin_required_preserves (fun s => rounds_ok (rounds s)));
      [|exact R].
    unfold change_admin_body. frame.
Qed.

Lemma run_rounds_ok (es : list event) (s : state) :
  rounds_ok (rounds s) -> rounds_ok (rounds (run s es)).
Proof.
  revert s. induction es as [|e es IH]; simpl; intros s R; [assumption|].
  apply IH. now apply step_rounds_ok.
Qed.

(** C2. Single open round: from any state without an open round, after
    any sequence of updates (round openings by [create_new_round],
    closings by [handle_dice], and every other handler in between) at
    most one round has status open. *)
Theorem single_open_round :
  forall (s : state) (es : list event),
    open_rounds s = [] ->
    (List.length (open_rounds (run s es)) <= 1)%nat.
Proof.
  intros s es H. apply (run_rounds_ok es s).
  unfold rounds_ok. unfold open_rounds in H. rewrite H. simpl. lia.
Qed.

Lemma single_open_round_witness :
  (List.length (open_rounds (run init with_bets_placed)) <= 1)%nat.
Proof.
  apply (single_open_round init with_bets_placed). reflexivity.
Defined.

(** ** Every bet has an owner *)

Lemma owned_keep (us us' : list user) (bs bs' : list bet) :
  owned us bs ->
  incl (map u_id us) (map u_id us') ->
  (forall b', In b' bs' ->
              (exists b, In b bs /\ b_user_id b = b_user_id b') \/
              In (b_user_id b') (map u_id us')) ->
  owned us' bs'.
Proof.
  intros O I H b' Hb'. destruct (H b' Hb') as [[b [Hb E]] | K]; [|exact K].
  apply I. rewrite <- E. now apply O.
Qed.

Lemma map_same_owner (f : bet -> bet) (bs : list bet) (b' : bet) :
  (forall b, b_user_id (f b) = b_user_id b) ->
  In b' (map f bs) -> exists b, In b bs /\ b_user_id b = b_user_id b'.
Proof.
  intros Hf H. apply in_map_iff in H. destruct H as [b [<- Hb]].
  exists b. split; [assumption | now rewrite Hf].
Qed.

Lemma owned_map_bets (us : list user) (bs : list bet) (f : bet -> bet) :
  (forall b, b_user_id (f b) = b_user_id b) ->
  owned us bs -> owned us (map f bs).
Proof.
  intros Hf O. apply (owned_keep us us bs); [assumption | apply incl_refl|].
  intros b' Hb'. left. now apply (map_same_owner f).
Qed.

Lemma owned_map_users (us : list user) (bs : list bet) (f : user -> user) :
  (forall u, u_id (f u) = u_id u) ->
  owned us bs -> owned (map f us) bs.
Proof.
  intros Hf O b Hb. rewrite map_map.
  rewrite (map_ext _ u_id) by exact Hf. now apply O.
Qed.

Lemma owned_set_balance (us : list user) (bs : list bet) (uid nb : Z) :
  owned us bs -> owned (set_balance uid nb us) bs.
Proof.
  apply owned_map_users. intros u. destruct (u_id u =? uid); reflexivity.
Qed.

Lemma owned_add_balance (us : list user) (bs : list bet) (uid d : Z) :
  owned us bs -> owned (add_balance uid d us) bs.
Proof.
  apply owned_map_users. intros u. destruct (u_id u =? uid); reflexivity.
Qed.

Lemma owned_place (us : list user) (bs : list bet) (uid : Z) (rid : string)
  (t : Z) (its : list intent) :
  In uid (map u_id us) -> owned us bs ->
  owned us (place_bets uid rid t its bs).
Proof.
  intros Hu. unfold place_bets. revert bs.
  induction its as [|i its IH]; simpl; intros bs O; [assumption|].
  apply IH. intros b Hb. apply in_app_or in Hb.
  destruct Hb as [Hb | [<- | []]]; [now apply O | exact Hu].
Qed.

Lemma owned_cancel_all (us : list user) (sel bs : list bet) :
  owned us bs ->
  owned us (fold_left (fun acc b => cancel_by_id (b_id b) acc) sel bs).
Proof.
  revert bs. induction sel as [|x sel IH]; simpl; intros bs O; [assumption|].
  apply IH. unfold cancel_by_id. apply owned_map_bets; [|assumption].
  intros b. destruct (b_id b =? b_id x); reflexivity.
Qed.

Lemma owned_cancel_fold (us : list user) (uid : Z) (rid : string) (t : Z)
  (its : list intent) (acc : list bet * list log * Z) :
  owned us (fst (fst acc)) ->
  owned us (fst (fst (fold_left (cancel_step uid rid t) its acc))).
Proof.
  revert acc. induction its as [|i its IH]; simpl; intros acc O;
    [assumption|].
  apply IH. destruct acc as [[bs entries] total]. unfold cancel_step.
  destruct (find_bet_record uid rid i bs) as [rec|]; [|assumption].
  simpl. unfold cancel_by_id. apply owned_map_bets; [|assumption].
  intros b. destruct (b_id b =? b_id rec); reflexivity.
Qed.

Lemma settle_step_owned c dn t s w b s' w' :
  owned (users s) (bets s) ->
  settle_step c dn t (Some (s, w)) b = Some (s', w') ->
  owned (users s') (bets s').
Proof.
  intros O H. unfold settle_step in H.
  destruct (settle_one c dn b) as [result p].
  assert (O' : owned (users s) (write_result (b_id b) result p (bets s))).
  { unfold write_result. apply owned_map_bets; [|assumption].
    intros x. destruct (b_id x =? b_id b); reflexivity. }
  destruct result.
  - destruct (p >? 0).
    + simpl in H.
      destruct (find_user_by_id (b_user_id b) (users s)); [|discriminate].
      inversion H; subst; clear H. simpl. now apply owned_set_balance.
    + inversion H; subst. exact O'.
  - inversion H; subst. exact O'.
Qed.

Lemma settle_fold_owned c dn t sel s w s' w' :
  owned (users s) (bets s) ->
  fold_left (settle_step c dn t) sel (Some (s, w)) = Some (s', w') ->
  owned (users s') (bets s').
Proof.
  revert s w. induction sel as [|b sel IH]; intros s w O H;
    cbn [fold_left] in H.
  - inversion H; subst. assumption.
  - destruct (settle_step c dn t (Some (s, w)) b) as [[s1 w1]|] eqn:E.
    + apply (IH s1 w1); [|assumption]. eapply settle_step_owned; eassumption.
    + rewrite settle_fold_None in H. discriminate.
Qed.

Lemma settle_bets_owned rid d t s s' w :
  owned (users s) (bets s) -> settle_bets rid d t s = Some (s', w) ->
  owned (users s') (bets s').
Proof.
  intros O. unfold settle_bets. destruct (map_int _); [|discriminate].
  destruct (active_bets_in rid (bets s)).
  - intros H. inversion H; subst. assumption.
  - intros H. eapply settle_fold_owned; eassumption.
Qed.

Lemma place_owned (s : state) (u : user) (rid text : string) (clk : clock) :
  In u (users s) -> owned (users s) (bets s) ->
  owned (users (fst (place s u rid text clk)))
    (bets (fst (place s u rid text clk))).
Proof.
  intros Hu O. unfold place. cbv zeta. repeat case_match; simpl; auto.
  apply owned_set_balance. apply owned_place; [now apply in_map | exact O].
Qed.

Lemma step_owned (s : state) (e : event) :
  owned (users s) (bets s) ->
  owned (users (step s e)) (bets (step s e)).
Proof.
  intros O. unfold step. destruct e; unfold handle.
  - unfold start. repeat case_match; simpl; auto.
    + apply owned_map_users; [intros u; case_match; reflexivity|].
      intros b Hb. rewrite map_app. apply in_or_app. left. now apply O.
    + intros b Hb. rewrite map_app. apply in_or_app. left. now apply O.
  - apply (admin_required_preserves
             (fun s => owned (users s) (bets s))); [|exact O].
    intros _. unfold adjust_balance_body.
    repeat case_match; simpl; auto; now apply owned_set_balance.
  - apply (admin_required_preserves
             (fun s => owned (users s) (bets s))); [|exact O].
    intros _. unfold deduct_by_username_body.
    repeat case_match; simpl; auto; now apply owned_set_balance.
  - apply (super_admin_required_preserves
             (fun s => owned (users s) (bets s))); [|exact O].
    intros _. unfold clear_all_balances_body.
    repeat case_match; simpl; auto.
    apply owned_map_users; [reflexivity | exact O].
  - apply (admin_required_preserves
             (fun s => owned (users s) (bets s))); [|exact O].
    intros _. unfold open_betting_body. case_match; [exact O|].
    pose proof (get_active_round_frame (set_betting_status true s))
      as [E1 [E2 _]].
    destruct (get_active_round (set_betting_status true s)) as [s2 [rid|]];
      simpl in E1, E2; simpl.
    + now rewrite E1, E2.
    + pose proof (create_new_round_frame s2 clk) as [C1 [C2 _]].
      destruct (create_new_round s2 clk) as [s3 []]; simpl in *;
        now rewrite C1, C2, E1, E2.
  - apply (admin_required_preserves
             (fun s => owned (users s) (bets s))); [|exact O].
    unfold stop_betting_body. repeat case_match; simpl; auto.
  - unfold process_bet. case_match; [exact O|]. cbv zeta.
    case_match; [exact O|].
    destruct (find_user_by_user_id tg (users s)) as [u|] eqn:F; [|exact O].
    apply find_user_by_user_id_In in F. destruct F as [Hu _].
    pose proof (get_active_round_frame s) as [E1 [E2 _]].
    destruct (get_active_round s) as [s1 [rid|]]; simpl in E1, E2.
    + apply place_owned; now rewrite E1, ?E2.
    + pose proof (create_new_round_frame (with_current s None) clk)
        as [C1 [C2 _]].
      destruct (create_new_round (with_current s None) clk) as [s2 [|rid|]];
        simpl in C1, C2; simpl; try now rewrite C1, C2.
      apply place_owned; now rewrite C1, ?C2.
  - unfold handle_dice.
    pose proof (get_active_round_frame s) as [E1 [E2 _]].
    destruct (get_active_round s) as [s1 [rid|]]; simpl in E1, E2;
      [|exact O].
    assert (O1 : owned (users s1) (bets s1)) by now rewrite E1, E2.
    assert (K : forall s2 dv,
               owned (users s2) (bets s2) ->
               owned (users (fst (check_and_close s2 tg rid dv clk)))
                 (bets (fst (check_and_close s2 tg rid dv clk)))).
    { intros s2 dv O2. unfold check_and_close, close_and_settle.
      repeat (case_match; try exact O2).
      match goal with
      | H : settle_bets _ _ _ _ = Some _ |- _ =>
          apply settle_bets_owned in H; [exact H | exact O2]
      end. }
    destruct message as [v|matches]; cbv zeta; case_match;
      try exact O1; now apply K.
  - unfold cancel_bet.
    destruct (find_user_by_user_id tg (users s)) as [u|] eqn:F; [|exact O].
    pose proof (get_active_round_frame s) as [E1 [E2 _]].
    destruct (get_active_round s) as [s1 [rid|]]; simpl in E1, E2;
      [|exact O].
    assert (O1 : owned (users s1) (bets s1)) by now rewrite E1, E2.
    cbv zeta. case_match; [|exact O1]. case_match; [exact O1|].
    destruct reply_to_message as [replied_text|].
    + destruct (parse_bet replied_text) as [bet_info|]; [|exact O1].
      pose proof (owned_cancel_fold (users s1) (u_id u) rid (now clk)
                    bet_info (bets s1, [], 0) O1) as Q.
      destruct (fold_left _ bet_info _) as [[bs entries] total].
      simpl in Q. case_match; simpl; [|exact O1].
      now apply owned_add_balance.
    + destruct (active_bets_of (u_id u) rid (bets s1)) as [|b0 sel];
        [exact O1|].
      case_match; simpl; [|exact O1].
      apply owned_add_balance.
      apply (owned_cancel_all (users s1) (b0 :: sel) (bets s1) O1).
  - apply (admin_required_preserves
             (fun s => owned (users s) (bets s))); [|exact O].
    unfold set_bet_limits_body. repeat case_match; simpl; auto.
  - apply (super_admin_required_preserves
             (fun s => owned (users s) (bets s))); [|exact O].
    unfold set_odds_value_body. repeat case_match; simpl; auto.
  - apply (admin_required_preserves
             (fun s => owned (users s) (bets s))); [|exact O].
    unfold set_allow_irrelevant_body. repeat case_match; simpl; auto.
  - apply (super_admin_required_preserves
             (fun s => owned (users s) (bets s))); [|exact O].
    intros _. unfold change_admin_body. repeat case_match; simpl; auto.
    apply owned_map_users; [|exact O].
    intros v. case_match; reflexivity.
Qed.

(** In every reachable state the settlement finds the bets table with
    distinct ids and an owner row for every bet. *)
Lemma reachable_settle_ready (s : state) :
  reachable s ->
  NoDup (map b_id (bets s)) /\
  (forall b, In b (bets s) -> In (b_user_id b) (map u_id (users s))).
Proof.
  intros Re. split.
  - apply reachable_Inv in Re. apply Re.
  - destruct Re as [es <-]. revert es.
    assert (K : forall es s0, owned (users s0) (bets s0) ->
                              owned (users (run s0 es)) (bets (run s0 es))).
    { induction es as [|e es IH]; simpl; intros s0 O; [assumption|].
      apply IH. now apply step_owned. }
    intros es. apply K. intros b [].
Qed.

(** ** Updating selected rows by id *)

Section ById.
Variable h : bet -> bet -> bet.
Hypothesis h_id : forall x b, b_id (h x b) = b_id b.

Lemma fold_by_id_find (sel T : list bet) :
  NoDup (map b_id sel) ->
  fold_left
    (fun acc x => map (fun b => if b_id b =? b_id x then h x b else b) acc)
    sel T
  = map (fun b => match find (fun x => b_id x =? b_id b) sel with
                  | Some x => h x b
                  | None => b
                  end) T.
Proof.
  revert T. induction sel as [|x sel IH]; intros T N; simpl.
  - symmetry. rewrite <- (map_id T) at 2. reflexivity.
  - inversion N as [|y l Nx Ns]; subst. rewrite (IH _ Ns).
    rewrite map_map. apply map_ext. intros b.
    destruct (b_id b =? b_id x) eqn:E.
    + rewrite h_id. apply Z.eqb_eq in E. rewrite E, Z.eqb_refl.
      destruct (find (fun x0 => b_id x0 =? b_id x) sel) as [y|] eqn:F;
        [|reflexivity].
      apply find_some in F. destruct F as [Hy Ey]. apply Z.eqb_eq in Ey.
      exfalso. apply Nx. rewrite <- Ey. now apply in_map.
    + rewrite Z.eqb_sym, E. reflexivity.
Qed.

Lemma find_in_filter (p : bet -> bool) (bs : list bet) (b : bet) :
  NoDup (map b_id bs) -> In b bs ->
  find (fun x => b_id x =? b_id b) (filter p bs)
  = if p b then Some b else None.
Proof.
  induction bs as [|y bs IH]; simpl; intros N Hb; [contradiction|].
  inversion N as [|z l Ny Ns]; subst.
  destruct Hb as [-> | Hb].
  - destruct (p b) eqn:P; simpl.
    + now rewrite Z.eqb_refl.
    + destruct (find (fun x => b_id x =? b_id b) (filter p bs)) as [y|]
        eqn:F; [|reflexivity].
      apply find_some in F. destruct F as [Hy Ey]. apply Z.eqb_eq in Ey.
      apply filter_In in Hy. exfalso. apply Ny. rewrite <- Ey.
      apply in_map. tauto.
  - assert (Ne : (b_id y =? b_id b) = false).
    { apply Z.eqb_neq. intros E. apply Ny. rewrite E. now apply in_map. }
    destruct (p y); simpl; [rewrite Ne|]; now apply IH.
Qed.

Lemma NoDup_filter_ids (p : bet -> bool) (bs : list bet) :
  NoDup (map b_id bs) -> NoDup (map b_id (filter p bs)).
Proof.
  induction bs as [|y bs IH]; simpl; intros N; [constructor|].
  inversion N as [|z l Ny Ns]; subst.
  destruct (p y); simpl; [constructor|]; auto.
  intros H. apply Ny. apply in_map_iff in H. destruct H as [x [E Hx]].
  apply filter_In in Hx. rewrite <- E. apply in_map. tauto.
Qed.

Lemma fold_by_id_filter (p : bet -> bool) (bs : list bet) :
  NoDup (map b_id bs) ->
  fold_left
    (fun acc x => map (fun b => if b_id b =? b_id x then h x b else b) acc)
    (filter p bs) bs
  = map (fun b => if p b then h b b else b) bs.
Proof.
  intros N. rewrite fold_by_id_find by now apply NoDup_filter_ids.
  apply map_ext_in. intros b Hb. rewrite (find_in_filter p bs b N Hb).
  destruct (p b); reflexivity.
Qed.
End ById.

(** ** Settlement of a triple *)

Lemma dice_text_parses (d0 d1 d2 : Z) :
  1 <= d0 <= 6 -> 1 <= d1 <= 6 -> 1 <= d2 <= 6 ->
  map_int (split_comma (dice_text d0 d1 d2)) = Some [d0; d1; d2].
Proof.
  intros H0 H1 H2.
  assert (E0 : d0 = 1 \/ d0 = 2 \/ d0 = 3 \/ d0 = 4 \/ d0 = 5 \/ d0 = 6) by lia.
  assert (E1 : d1 = 1 \/ d1 = 2 \/ d1 = 3 \/ d1 = 4 \/ d1 = 5 \/ d1 = 6) by lia.
  assert (E2 : d2 = 1 \/ d2 = 2 \/ d2 = 3 \/ d2 = 4 \/ d2 = 5 \/ d2 = 6) by lia.
  destruct E0 as [->|[->|[->|[->|[->| ->]]]]];
    destruct E1 as [->|[->|[->|[->|[->| ->]]]]];
    destruct E2 as [->|[->|[->|[->|[->| ->]]]]]; reflexivity.
Qed.







(** ** Bet placement turned down *)

Lemma mem_app (x : string) (a b : list string) :
  mem x (a ++ b) = mem x a || mem x b.
Proof. unfold mem. apply existsb_app. Qed.

Lemma opposing_mono (a b : list string) :
  opposing b = true -> opposing (a ++ b) = true.
Proof.
  unfold opposing. rewrite !mem_app. intros H.
  apply orb_true_iff in H. apply orb_true_iff.
  destruct H as [H | H]; apply andb_true_iff in H; destruct H as [H1 H2];
    rewrite H1, H2, !orb_true_r; auto.
Qed.

(** [place] either changes nothing and turns the bet down, or accepts. *)
Lemma place_cases (s : state) (u : user) (rid text : string) (clk : clock) :
  (fst (place s u rid text clk) = s /\
   is_rejection (snd (place s u rid text clk)) = true) \/
  is_accepted (snd (place s u rid text clk)) = true.
Proof.
  unfold place. cbv zeta. repeat case_match; simpl; auto.
Qed.

Lemma place_opposing (s : state) (u : user) (rid text : string)
  (clk : clock) (new : list intent) :
  parse_bet text = Some new ->
  opposing (map b_type (active_bets_of (u_id u) rid (bets s))
            ++ map itype new) = true ->
  fst (place s u rid text clk) = s /\
  is_accepted (snd (place s u rid text clk)) = false.
Proof.
  intros P O. unfold place. cbv zeta. rewrite P, O.
  case_match; simpl; auto.
Qed.

(** C7. Opposing sides: when the types of the user's active bets in the
    open round together with the types of the new bets hold both big and
    small, or both odd and even, the submission is not accepted, and no
    bet row, no balance and no ledger entry changes. *)
Theorem opposing_sides_rejected :
  forall (s : state) (tg : Z) (text : string) (clk : clock) (u : user)
         (new : list intent),
    find_user_by_user_id tg (users s) = Some u ->
    parse_bet (strip text) = Some new ->
    opposing (existing_types s (u_id u) ++ map itype new) = true ->
    is_accepted (snd (process_bet s tg (text, clk))) = false /\
    users (fst (process_bet s tg (text, clk))) = users s /\
    bets (fst (process_bet s tg (text, clk))) = bets s /\
    balance_logs (fst (process_bet s tg (text, clk))) = balance_logs s.
Proof.
  intros s tg text clk u new F P O. unfold process_bet.
  case_match; [simpl; auto|]. cbv zeta. case_match; [simpl; auto|].
  rewrite F. unfold existing_types in O.
  pose proof (get_active_round_frame s) as [E1 [E2 [_ [_ [E5 _]]]]].
  destruct (get_active_round s) as [s1 [rid|]]; simpl in *.
  - destruct (place_opposing s1 u rid (strip text) clk new P) as [Q1 Q2].
    { now rewrite E2. }
    rewrite Q1, Q2. auto.
  - pose proof (create_new_round_frame (with_current s None) clk)
      as [C1 [C2 [_ [C4 _]]]].
    destruct (create_new_round (with_current s None) clk) as [s2 [|rid|]];
      simpl in *; auto.
    destruct (place_opposing s2 u rid (strip text) clk new P) as [Q1 Q2].
    { now apply opposing_mono. }
    rewrite Q1, Q2. auto.
Qed.

Lemma opposing_sides_rejected_witness :
  is_accepted
    (snd (process_bet (run init one_big_bet) 200 ("小500", noon))) = false /\
  users (fst (process_bet (run init one_big_bet) 200 ("小500", noon)))
  = users (run init one_big_bet) /\
  bets (fst (process_bet (run init one_big_bet) 200 ("小500", noon)))
  = bets (run init one_big_bet) /\
  balance_logs (fst (process_bet (run init one_big_bet) 200 ("小500", noon)))
  = balance_logs (run init one_big_bet).
Proof.
  apply (opposing_sides_rejected (run init one_big_bet) 200 "小500" noon
           bob_after_big [mk_intent "小" "" 500]); reflexivity.
Defined.

(** The claim of C4 as stated fails: a submission that is turned down
    while no round is open leaves a new open round behind, the round
    being created before the text is parsed. *)
Lemma rejected_bet_opens_round :
  is_rejection (snd (process_bet (run init two_users) 200 ("19 1000", noon)))
  = true /\
  rounds (run init two_users) = [] /\
  rounds (fst (process_bet (run init two_users) 200 ("19 1000", noon)))
  = [mk_round "20260101001" 43200 None None st_open] /\
  fst (process_bet (run init two_users) 200 ("19 1000", noon))
  <> run init two_users.
Proof.
  repeat split; try reflexivity.
  intros E. apply (f_equal rounds) in E. vm_compute in E. discriminate.
Qed.

(** C4, amended. A submission turned down as a bet (no bets found, limit
    exceeded, opposing sides, insufficient balance, stake out of range)
    changes no user, bet, ledger entry or setting; the rounds table is
    unchanged, or, when no round was open, holds one new open round. *)
Theorem rejected_bet_changes_no_account :
  forall (s : state) (tg : Z) (text : string) (clk : clock),
    is_rejection (snd (process_bet s tg (text, clk))) = true ->
    users (fst (process_bet s tg (text, clk))) = users s /\
    bets (fst (process_bet s tg (text, clk))) = bets s /\
    balance_logs (fst (process_bet s tg (text, clk))) = balance_logs s /\
    settings (fst (process_bet s tg (text, clk))) = settings s /\
    dice_sequence (fst (process_bet s tg (text, clk))) = dice_sequence s /\
    (rounds (fst (process_bet s tg (text, clk))) = rounds s \/
     (open_rounds s = [] /\
      exists r, is_open r = true /\
                rounds (fst (process_bet s tg (text, clk)))
                = (rounds s ++ [r])%list)).
Proof.
  intros s tg text clk. unfold process_bet.
  case_match; [simpl; discriminate|]. cbv zeta.
  case_match; [simpl; discriminate|].
  case_match; [|simpl; discriminate].
  pose proof (get_active_round_frame s) as [E1 [E2 [E3 [E4 [E5 E6]]]]].
  destruct (get_active_round s) as [s1 [rid|]]; simpl in *.
  - intros H. destruct (place_cases s1 u rid (strip text) clk) as [[Q _] | Q].
    + rewrite Q. auto 10.
    + destruct (snd (place s1 u rid (strip text) clk)); discriminate.
  - pose proof (create_new_round_frame (with_current s None) clk)
      as [C1 [C2 [C3 [C4 C5]]]].
    pose proof (create_new_round_rounds (with_current s None) clk) as CR.
    destruct (create_new_round (with_current s None) clk) as [s2 [|rid|]];
      simpl in *; try discriminate.
    intros H. destruct (place_cases s2 u rid (strip text) clk) as [[Q _] | Q].
    + rewrite Q. auto 10.
    + destruct (snd (place s2 u rid (strip text) clk)); discriminate.
Qed.

Lemma rejected_bet_changes_no_account_witness :
  users (fst (process_bet (run init two_users) 200 ("19 1000", noon)))
  = users (run init two_users) /\
  bets (fst (process_bet (run init two_users) 200 ("19 1000", noon)))
  = bets (run init two_users) /\
  balance_logs (fst (process_bet (run init two_users) 200 ("19 1000", noon)))
  = balance_logs (run init two_users) /\
  settings (fst (process_bet (run init two_users) 200 ("19 1000", noon)))
  = settings (run init two_users) /\
  dice_sequence (fst (process_bet (run init two_users) 200 ("19 1000", noon)))
  = dice_sequence (run init two_users) /\
  (rounds (fst (process_bet (run init two_users) 200 ("19 1000", noon)))
   = rounds (run init two_users) \/
   (open_rounds (run init two_users) = [] /\
    exists r, is_open r = true /\
              rounds (fst (process_bet (run init two_users) 200
                             ("19 1000", noon)))
              = (rounds (run init two_users) ++ [r])%list)).
Proof.
  apply (rejected_bet_changes_no_account (run init two_users) 200 "19 1000"
           noon).
  reflexivity.
Defined.

(** ** Closing a round *)

Lemma latest_open_none (rs : list round) (best : option round) :
  filter is_open rs = [] -> latest_open best rs = best.
Proof.
  revert best. induction rs as [|r rs IH]; simpl; intros best H.
  - reflexivity.
  - destruct (is_open r); [discriminate | now apply IH].
Qed.

Lemma latest_open_In (rs : list round) (best : option round) (r : round) :
  latest_open best rs = Some r ->
  best = Some r \/ (In r rs /\ is_open r = true).
Proof.
  revert best. induction rs as [|x rs IH]; simpl; intros best H.
  - now left.
  - destruct (is_open x) eqn:Ox.
    + destruct best as [b|].
      * destruct (r_start_time b <? r_start_time x).
        -- apply IH in H. destruct H as [H | [H1 H2]].
           ++ inversion H; subst. right. auto.
           ++ right. auto.
        -- apply IH in H. destruct H as [H | [H1 H2]]; auto.
      * apply IH in H. destruct H as [H | [H1 H2]].
        -- inversion H; subst. right. auto.
        -- right. auto.
    + apply IH in H. destruct H as [H | [H1 H2]]; auto.
Qed.

Lemma get_active_round_Some (s s1 : state) (rid : string) :
  get_active_round s = (s1, Some rid) ->
  exists r, In r (rounds s) /\ is_open r = true /\ r_id r = rid.
Proof.
  unfold get_active_round.
  destruct (latest_open None (rounds s)) as [r|] eqn:L; [|discriminate].
  intros H. inversion H; subst.
  apply latest_open_In in L. destruct L as [L | [L1 L2]]; [discriminate|].
  exists r. auto.
Qed.

Lemma get_active_round_None (s : state) :
  open_rounds s = [] -> get_active_round s = (s, None).
Proof.
  unfold open_rounds, get_active_round. intros H.
  now rewrite (latest_open_none _ None H).
Qed.

Lemma only_open_round (rs : list round) (r x : round) :
  rounds_ok rs -> In r rs -> is_open r = true ->
  In x rs -> is_open x = true -> x = r.
Proof.
  unfold rounds_ok. induction rs as [|y rs IH]; simpl; intros R Hr Or Hx Ox.
  - contradiction.
  - destruct (is_open y) eqn:Oy; simpl in R.
    + assert (E : filter is_open rs = []).
      { destruct (filter is_open rs); [reflexivity | simpl in R; lia]. }
      assert (K : forall z, In z rs -> is_open z = true -> False).
      { intros z Hz Oz.
        assert (In z (filter is_open rs)) by (apply filter_In; auto).
        rewrite E in H. contradiction. }
      destruct Hr as [-> | Hr]; destruct Hx as [-> | Hx]; auto;
        exfalso; eauto.
    + destruct Hr as [-> | Hr]; [congruence|].
      destruct Hx as [-> | Hx]; [congruence|]. now apply IH.
Qed.

Lemma close_round_none_open (rid : string) (t : Z) (d : string)
  (rs : list round) :
  (forall x, In x rs -> is_open x = true -> r_id x = rid) ->
  filter is_open (close_round rid t d rs) = [].
Proof.
  induction rs as [|y rs IH]; simpl; intros H; [reflexivity|].
  destruct (String.eqb (r_id y) rid) eqn:E.
  - simpl. apply IH. intros x Hx. apply H. now right.
  - destruct (is_open y) eqn:Oy.
    + apply String.eqb_neq in E. exfalso. apply E. apply H; auto.
    + apply IH. intros x Hx. apply H. now right.
Qed.

Lemma find_round_closed (rid : string) (t : Z) (d : string)
  (rs : list round) (r : round) :
  find_round rid rs = Some r ->
  find_round rid (close_round rid t d rs) = Some (close_row r t d).
Proof.
  unfold find_round, close_round.
  induction rs as [|y rs IH]; simpl; [discriminate|].
  destruct (String.eqb (r_id y) rid) eqn:E.
  - intros H. inversion H; subst. simpl. now rewrite E.
  - rewrite E. apply IH.
Qed.

Lemma append_not_empty (a b : string) (c : ascii) :
  is_empty (a ++ String c b) = false.
Proof. destruct a; reflexivity. Qed.

(** A round that is not open, or has its dice recorded, stops the
    transaction before any write. *)
Lemma close_and_settle_guard (s : state) (tg : Z) (rid : string)
  (dv : list Z) (clk : clock) (r : round) :
  find_round rid (rounds s) = Some r ->
  is_open r = false \/ truthy (r_dice_result r) = true ->
  fst (close_and_settle s tg rid dv clk) = s.
Proof.
  intros F G. unfold close_and_settle.
  destruct (find_user_by_user_id tg (users s)); [|reflexivity].
  rewrite F. destruct G as [G | G].
  - rewrite G. reflexivity.
  - rewrite G. destruct (negb (is_open r)); reflexivity.
Qed.

(** What a settled reply of the transaction tells. *)
Lemma close_and_settle_settled (s : state) (tg : Z) (rid : string)
  (dv : list Z) (clk : clock) (w : bool) :
  snd (close_and_settle s tg rid dv clk) = Settled w ->
  exists r d,
    find_round rid (rounds s) = Some r /\ is_empty d = false /\
    rounds (fst (close_and_settle s tg rid dv clk))
    = close_round rid (now clk) d (rounds s).
Proof.
  unfold close_and_settle.
  destruct (find_user_by_user_id tg (users s)); [|discriminate].
  destruct (find_round rid (rounds s)) as [r|]; [|discriminate].
  destruct (negb (is_open r)); [discriminate|].
  destruct (truthy (r_dice_result r)); [discriminate|].
  destruct dv as [|d0 [|d1 [|d2 [|d3 dv]]]]; try discriminate.
  match goal with
  | |- context [settle_bets ?a ?d ?t ?s1] =>
      destruct (settle_bets a d t s1) as [[s2 w2]|] eqn:E; [|discriminate];
      apply settle_bets_rounds in E; destruct E as [E _]
  end.
  intros _. exists r, (str d0 ++ "," ++ str d1 ++ "," ++ str d2).
  split; [reflexivity|]. split; [apply append_not_empty|].
  simpl. rewrite E. reflexivity.
Qed.

Lemma handle_dice_settled (s : state) (tg : Z) (message : dice_message)
  (clk : clock) (w : bool) :
  snd (handle_dice s tg (message, clk)) = Settled w ->
  exists rid r d,
    snd (get_active_round s) = Some rid /\
    find_round rid (rounds s) = Some r /\ is_empty d = false /\
    rounds (fst (handle_dice s tg (message, clk)))
    = close_round rid (now clk) d (rounds s).
Proof.
  unfold handle_dice.
  pose proof (get_active_round_frame s) as [_ [_ [E _]]].
  destruct (get_active_round s) as [s1 [rid|]]; simpl in E; [|discriminate].
  intros H. exists rid. rewrite <- E. simpl.
  assert (K : forall s2, rounds s2 = rounds s1 ->
              forall dv,
                snd (check_and_close s2 tg rid dv clk) = Settled w ->
                exists r d,
                  find_round rid (rounds s1) = Some r /\ is_empty d = false /\
                  rounds (fst (check_and_close s2 tg rid dv clk))
                  = close_round rid (now clk) d (rounds s1)).
  { intros s2 E2 dv. unfold check_and_close.
    destruct (negb (Nat.eqb (List.length dv) 3)); [discriminate|].
    destruct (existsb _ dv); [discriminate|].
    intros S. apply close_and_settle_settled in S. rewrite E2 in S.
    exact S. }
  destruct message as [v|matches]; cbv zeta in *.
  - destruct (Nat.eqb _ 3).
    + apply K in H; [|reflexivity]. destruct H as [r [d Q]].
      exists r, d. tauto.
    + discriminate.
  - destruct (Nat.eqb _ 3).
    + apply K in H; [|reflexivity]. destruct H as [r [d Q]].
      exists r, d. tauto.
    + discriminate.
Qed.

(** C3. Settlement exactly once: when a dice message has closed and
    settled the open round, the round is recorded closed with its dice,
    the guarded transaction run again on that round writes nothing, and
    every further dice message leaves the whole state as it is. *)
Theorem settlement_exactly_once :
  forall (s : state) (tg : Z) (message : dice_message) (clk : clock)
         (w : bool),
    rounds_ok (rounds s) ->
    snd (handle_dice s tg (message, clk)) = Settled w ->
    exists rid r,
      snd (get_active_round s) = Some rid /\
      find_round rid (rounds (fst (handle_dice s tg (message, clk))))
      = Some r /\
      r_status r = st_closed /\ truthy (r_dice_result r) = true /\
      (forall tg' dv clk',
          fst (close_and_settle (fst (handle_dice s tg (message, clk)))
                 tg' rid dv clk')
          = fst (handle_dice s tg (message, clk))) /\
      (forall tg' a',
          handle_dice (fst (handle_dice s tg (message, clk))) tg' a'
          = (fst (handle_dice s tg (message, clk)), NoActiveRound)).
Proof.
  intros s tg message clk w R H.
  destruct (handle_dice_settled s tg message clk w H)
    as [rid [r0 [d [A [F [D Rs]]]]]].
  set (s' := fst (handle_dice s tg (message, clk))) in *.
  exists rid, (close_row r0 (now clk) d).
  assert (F' : find_round rid (rounds s') = Some (close_row r0 (now clk) d)).
  { rewrite Rs. now apply find_round_closed. }
  assert (T : truthy (r_dice_result (close_row r0 (now clk) d)) = true).
  { simpl. now rewrite D. }
  split; [exact A|]. split; [exact F'|]. split; [reflexivity|].
  split; [exact T|]. split.
  - intros tg' dv clk'. apply (close_and_settle_guard _ _ _ _ _ _ F').
    now left.
  - intros tg' [m' clk']. unfold handle_dice.
    rewrite get_active_round_None; [reflexivity|].
    unfold open_rounds. rewrite Rs. apply close_round_none_open.
    intros x Hx Ox.
    destruct (get_active_round s) as [s1 o] eqn:G. simpl in A. subst o.
    destruct (get_active_round_Some s s1 rid G) as [r [Hr [Or Ir]]].
    rewrite (only_open_round (rounds s) r x R Hr Or Hx Ox). exact Ir.
Qed.

Lemma settlement_exactly_once_witness :
  handle_dice after_settlement 200 (BuiltinDice 6, noon)
  = (after_settlement, NoActiveRound) /\
  fst (close_and_settle after_settlement 200 "20260101001" [6; 6; 6] noon)
  = after_settlement.
Proof.
  destruct (settlement_exactly_once (run init two_dice_in) 200
              (BuiltinDice 5) noon true)
    as [rid [r [A [F [S [T [G N]]]]]]].
  - unfold rounds_ok. vm_compute. lia.
  - reflexivity.
  - vm_compute in A. inversion A; subst rid. split.
    + apply N.
    + apply G.
Defined.

(** ** Cancellation *)

Lemma find_round_unique (rs : list round) (r : round) :
  NoDup (map r_id rs) -> In r rs -> find_round (r_id r) rs = Some r.
Proof.
  unfold find_round. induction rs as [|y rs IH]; simpl; intros N H.
  - contradiction.
  - inversion N as [|z l Ny Ns]; subst. destruct H as [-> | H].
    + now rewrite String.eqb_refl.
    + destruct (String.eqb (r_id y) (r_id r)) eqn:E; [|now apply IH].
      apply String.eqb_eq in E. exfalso. apply Ny. rewrite E.
      now apply in_map.
Qed.





(** * Further properties of the handlers *)

(** ** What holds in every reachable state *)

(** X1. No balance is ever negative: bets are refused beyond the
    balance, withdrawals and deductions beyond the balance are refused,
    and every other balance write adds a positive amount or sets 0. *)
Theorem balances_never_negative :
  forall es : list event,
    Forall (fun u => 0 <= u_balance u) (users (run init es)).
Proof.
  intros es. destruct (run_Inv es init init_Inv) as [[_ [B _]] _].
  apply Forall_forall. intros u Hu. now apply B.
Qed.

(** X2. Bets have distinct ids and every recorded stake is positive,
    the lower stake limit being positive from [init_db] on and kept so by
    [set_bet_limits]. *)
Theorem bets_distinct_and_positive :
  forall es : list event,
    NoDup (map b_id (bets (run init es))) /\
    Forall (fun b => 0 < b_amount b) (bets (run init es)) /\
    0 < min_bet (settings (run init es)).
Proof.
  intros es. destruct (run_Inv es init init_Inv) as [_ [[N P] [_ C]]].
  auto.
Qed.

(** X3. Every bet and every ledger entry names a row of [users], and
    user ids and round ids are distinct. *)
Theorem references_resolve :
  forall es : list event,
    Forall (fun b => In (b_user_id b) (map u_id (users (run init es))))
      (bets (run init es)) /\
    Forall (fun l => In (l_user_id l) (map u_id (users (run init es))))
      (balance_logs (run init es)) /\
    NoDup (map u_id (users (run init es))) /\
    NoDup (map r_id (rounds (run init es))).
Proof.
  intros es.
  destruct (run_Inv es init init_Inv) as [[Nu [_ L]] [_ [[_ Nr] _]]].
  destruct (reachable_settle_ready (run init es)) as [_ O].
  { now exists es. }
  repeat split; try assumption; apply Forall_forall; assumption.
Qed.

(** ** No hedging, and the ceilings on bets per round *)

Lemma count_cons {A} (p : A -> bool) (x : A) (l : list A) :
  count p (x :: l) = (if p x then 1 else 0) + count p l.
Proof.
  unfold count. cbn [filter]. destruct (p x); cbn [List.length]; lia.
Qed.

Lemma count_app {A} (p : A -> bool) (a b : list A) :
  count p (a ++ b) = count p a + count p b.
Proof.
  unfold count. rewrite filter_app, length_app. lia.
Qed.

Lemma count_nonneg {A} (p : A -> bool) (l : list A) : 0 <= count p l.
Proof. unfold count. lia. Qed.

Lemma held_types_shrink (f : bet -> bet) (uid : Z) (rid : string)
  (bs : list bet) :
  shrinking f ->
  (forall x, mem x (held_types uid rid (map f bs)) = true ->
             mem x (held_types uid rid bs) = true) /\
  (forall p, count p (held_types uid rid (map f bs))
             <= count p (held_types uid rid bs)).
Proof.
  intros Hf. unfold held_types, active_bets_of.
  induction bs as [|b bs [IH1 IH2]].
  - split; intros; cbn; auto. lia.
  - destruct (Hf b) as [F1 [F2 [F3 F4]]]. cbn [map filter].
    rewrite F1, F2.
    destruct ((b_user_id b =? uid) && String.eqb (b_round_id b) rid) eqn:K;
      cbn [andb].
    + destruct (is_active (f b)) eqn:A.
      * rewrite (F4 eq_refl). cbn [map]. rewrite F3. split.
        -- intros x. unfold mem. cbn [existsb]. intros H.
           apply orb_true_iff in H. apply orb_true_iff.
           destruct H as [H | H]; [now left | right; now apply IH1].
        -- intros p. rewrite !count_cons. specialize (IH2 p). lia.
      * destruct (is_active b); cbn [map].
        -- split.
           ++ intros x H. unfold mem. cbn [existsb]. apply orb_true_iff.
              right. now apply IH1.
           ++ intros p. rewrite count_cons. specialize (IH2 p).
              destruct (p (b_type b)); lia.
        -- split; [exact IH1 | exact IH2].
    + split; [exact IH1 | exact IH2].
Qed.

Lemma types_ok_shrink (c : settings_row) (ts ts' : list string) :
  (forall x, mem x ts' = true -> mem x ts = true) ->
  (forall p, count p ts' <= count p ts) ->
  types_ok c ts -> types_ok c ts'.
Proof.
  intros M C [O [W1 [W2 W3]]]. split.
  - destruct (opposing ts') eqn:E; [|reflexivity].
    unfold opposing in *. apply orb_true_iff in E.
    assert (opposing ts = true).
    { unfold opposing. apply orb_true_iff.
      destruct E as [E | E]; apply andb_true_iff in E; destruct E as [E1 E2];
        [left | right]; apply andb_true_iff; split; now apply M. }
    unfold opposing in H. congruence.
  - repeat split.
    + specialize (C (fun t => mem t size_parity)). lia.
    + specialize (C (String.eqb "和值")). lia.
    + specialize (C (String.eqb "豹子")). lia.
Qed.

Lemma table_ok_map (c : settings_row) (f : bet -> bet) (bs : list bet) :
  shrinking f -> table_ok c bs -> table_ok c (map f bs).
Proof.
  intros Hf T uid rid.
  destruct (held_types_shrink f uid rid bs Hf) as [M C].
  exact (types_ok_shrink c _ _ M C (T uid rid)).
Qed.

Lemma shrinking_write (bid : Z) (r : bet_result) (p : Z) :
  shrinking (fun b => if b_id b =? bid then set_result_row b r p else b).
Proof. intros b. destruct (b_id b =? bid); cbn; auto. Qed.

Lemma shrinking_cancel (bid : Z) :
  shrinking (fun b => if b_id b =? bid then set_status_row b cancelled
                      else b).
Proof.
  intros b. destruct (b_id b =? bid); cbn; auto.
  repeat split. discriminate.
Qed.

Lemma table_ok_ceilings (c c' : settings_row) (bs : list bet) :
  same_ceilings c c' -> table_ok c bs -> table_ok c' bs.
Proof.
  intros [E1 [E2 E3]] T uid rid. destruct (T uid rid) as [O [W1 [W2 W3]]].
  split; [exact O|]. unfold within_ceilings. rewrite E1, E2, E3. auto.
Qed.

(** What the insertion loop appends. *)
Lemma place_bets_shape (uid : Z) (rid : string) (t : Z) (its : list intent)
  (bs : list bet) :
  exists news,
    place_bets uid rid t its bs = (bs ++ news)%list /\
    map b_type news = map itype its /\
    map b_value news = map ivalue its /\
    map b_amount news = map iamount its /\
    Forall (fun b => b_user_id b = uid /\ b_round_id b = rid /\
                     b_status b = active /\ b_result b = None /\
                     b_payout b = 0 /\ b_time b = t) news.
Proof.
  unfold place_bets. revert bs.
  induction its as [|i its IH]; intros bs; cbn [fold_left].
  - exists []. rewrite app_nil_r. repeat split; constructor.
  - destruct (IH (bs ++ [mk_bet (next_rowid (map b_id bs)) uid rid (itype i)
                           (ivalue i) (iamount i) t None 0 active])%list)
      as [news [E [T [V [A F]]]]].
    eexists (_ :: news). rewrite E, <- app_assoc. cbn [app map].
    rewrite T, V, A. repeat split. constructor; [|exact F].
    cbn. auto 10.
Qed.

Lemma held_types_app (uid : Z) (rid : string) (bs news : list bet) :
  held_types uid rid (bs ++ news)
  = (held_types uid rid bs ++ held_types uid rid news)%list.
Proof.
  unfold held_types, active_bets_of. now rewrite filter_app, map_app.
Qed.

Lemma held_types_news (uid uid' : Z) (rid rid' : string) (news : list bet) :
  Forall (fun b => b_user_id b = uid /\ b_round_id b = rid /\
                   b_status b = active) news ->
  held_types uid' rid' news
  = if (uid =? uid') && String.eqb rid rid' then map b_type news else [].
Proof.
  unfold held_types, active_bets_of.
  induction news as [|b news IH]; intros F.
  - destruct ((uid =? uid') && String.eqb rid rid'); reflexivity.
  - inversion F as [|x l [U [R S]] F']; subst. cbn [filter].
    unfold is_active at 1. rewrite S, andb_true_r.
    specialize (IH F').
    destruct ((b_user_id b =? uid') && String.eqb (b_round_id b) rid');
      cbn [map]; rewrite IH; reflexivity.
Qed.

Lemma place_table_ok (s : state) (u : user) (rid text : string)
  (clk : clock) :
  table_ok (settings s) (bets s) ->
  table_ok (settings (fst (place s u rid text clk)))
    (bets (fst (place s u rid text clk))).
Proof.
  intros T. unfold place. cbv zeta.
  destruct (parse_bet text) as [new_bets|]; [|exact T].
  match goal with
  | |- context [if ?a || ?b || ?c then _ else _] =>
      destruct (a || b || c) eqn:Lim
  end; [exact T|].
  destruct (opposing _) eqn:Opp; [exact T|].
  case_match; [exact T|]. case_match; [exact T|].
  cbn [fst bets settings with_logs with_bets with_users].
  destruct (place_bets_shape (u_id u) rid (now clk) new_bets (bets s))
    as [news [E [Ty [_ [_ F]]]]].
  rewrite E. intros uid' rid'. rewrite held_types_app.
  assert (N : held_types uid' rid' news
              = if (u_id u =? uid') && String.eqb rid rid'
                then map b_type news else []).
  { apply held_types_news. revert F. apply Forall_impl.
    intros b [H1 [H2 [H3 _]]]. auto. }
  rewrite N. destruct ((u_id u =? uid') && String.eqb rid rid') eqn:K.
  - apply andb_true_iff in K. destruct K as [K1 K2].
    apply Z.eqb_eq in K1. apply String.eqb_eq in K2. subst uid' rid'.
    rewrite Ty. fold (held_types (u_id u) rid (bets s)).
    split; [exact Opp|].
    apply orb_false_iff in Lim. destruct Lim as [Lim L3].
    apply orb_false_iff in Lim. destruct Lim as [L1 L2].
    rewrite Z.gtb_ltb in L1, L2, L3. apply Z.ltb_ge in L1, L2, L3.
    unfold within_ceilings. rewrite !count_app.
    unfold held_types. repeat split; assumption.
  - rewrite app_nil_r. apply T.
Qed.

Lemma settle_step_bets c dn t s w b s' w' :
  settle_step c dn t (Some (s, w)) b = Some (s', w') ->
  bets s' = write_result (b_id b) (fst (settle_one c dn b))
              (snd (settle_one c dn b)) (bets s) /\
  rounds s' = rounds s /\ settings s' = settings s.
Proof.
  unfold settle_step. destruct (settle_one c dn b) as [result p].
  cbn [fst snd]. intros H. destruct result.
  - destruct (p >? 0).
    + simpl in H.
      destruct (find_user_by_id (b_user_id b) (users s)); [|discriminate].
      inversion H; subst. simpl. auto.
    + inversion H; subst. simpl. auto.
  - inversion H; subst. simpl. auto.
Qed.

(** A property of the bets table that every single-row result write
    keeps is kept by the settlement. *)
Lemma settle_fold_keeps (P : list bet -> Prop) c dn t sel s w s' w' :
  (forall bid r p bs, P bs -> P (write_result bid r p bs)) ->
  P (bets s) ->
  fold_left (settle_step c dn t) sel (Some (s, w)) = Some (s', w') ->
  P (bets s').
Proof.
  intros HP. revert s w. induction sel as [|b sel IH]; intros s w P0 H;
    cbn [fold_left] in H.
  - inversion H; subst. assumption.
  - destruct (settle_step c dn t (Some (s, w)) b) as [[s1 w1]|] eqn:E.
    + apply (IH s1 w1); [|assumption]. apply settle_step_bets in E.
      destruct E as [E _]. rewrite E. now apply HP.
    + rewrite settle_fold_None in H. discriminate.
Qed.

Lemma settle_bets_keeps (P : list bet -> Prop) rid d t s s' w :
  (forall bid r p bs, P bs -> P (write_result bid r p bs)) ->
  P (bets s) -> settle_bets rid d t s = Some (s', w) -> P (bets s').
Proof.
  intros HP P0. unfold settle_bets. destruct (map_int _); [|discriminate].
  destruct (active_bets_in rid (bets s)).
  - intros H. inversion H; subst. assumption.
  - intros H. eapply settle_fold_keeps; eassumption.
Qed.

Lemma cancel_all_keeps (P : list bet -> Prop) (sel bs : list bet) :
  (forall bid bs, P bs -> P (cancel_by_id bid bs)) ->
  P bs -> P (fold_left (fun acc b => cancel_by_id (b_id b) acc) sel bs).
Proof.
  intros HP. revert bs. induction sel as [|x sel IH]; cbn [fold_left];
    intros bs P0; [assumption|].
  apply IH. now apply HP.
Qed.

Lemma cancel_fold_keeps (P : list bet -> Prop) (uid : Z) (rid : string)
  (t : Z) (its : list intent) (acc : list bet * list log * Z) :
  (forall bid bs, P bs -> P (cancel_by_id bid bs)) ->
  P (fst (fst acc)) ->
  P (fst (fst (fold_left (cancel_step uid rid t) its acc))).
Proof.
  intros HP. revert acc. induction its as [|i its IH]; cbn [fold_left];
    intros acc P0; [assumption|].
  apply IH. destruct acc as [[bs entries] total]. unfold cancel_step.
  destruct (find_bet_record uid rid i bs) as [rec|]; [|assumption].
  cbn [fst]. now apply HP.
Qed.

Lemma table_ok_write c0 bid r p bs :
  table_ok c0 bs -> table_ok c0 (write_result bid r p bs).
Proof. apply table_ok_map, shrinking_write. Qed.

Lemma table_ok_cancel c0 bid bs :
  table_ok c0 bs -> table_ok c0 (cancel_by_id bid bs).
Proof. apply table_ok_map, shrinking_cancel. Qed.

Lemma place_hedge_free (c0 : settings_row) (s : state) (u : user)
  (rid text : string) (clk : clock) :
  hedge_free c0 s -> hedge_free c0 (fst (place s u rid text clk)).
Proof.
  intros [T C].
  assert (E : settings (fst (place s u rid text clk)) = settings s).
  { unfold place. cbv zeta. repeat case_match; reflexivity. }
  split; [|now rewrite E].
  apply (table_ok_ceilings (settings s)).
  { destruct C as [C1 [C2 C3]]. repeat split; congruence. }
  pose proof (place_table_ok s u rid text clk) as K. rewrite E in K.
  apply K. now apply (table_ok_ceilings c0).
Qed.

Lemma hedge_free_frame (c0 : settings_row) (s s' : state) :
  bets s' = bets s -> settings s' = settings s ->
  hedge_free c0 s -> hedge_free c0 s'.
Proof. unfold hedge_free. intros -> ->. auto. Qed.

Lemma step_hedge_free (c0 : settings_row) (s : state) (e : event) :
  hedge_free c0 s -> hedge_free c0 (step s e).
Proof.
  intros O. unfold step. destruct e; unfold handle.
  - unfold start. repeat case_match; exact O.
  - apply (admin_required_preserves (hedge_free c0)); [|exact O].
    intros _. unfold adjust_balance_body.
    repeat case_match; try exact O; exact O.
  - apply (admin_required_preserves (hedge_free c0)); [|exact O].
    intros _. unfold deduct_by_username_body.
    repeat case_match; exact O.
  - apply (super_admin_required_preserves (hedge_free c0)); [|exact O].
    intros _. unfold clear_all_balances_body.
    repeat case_match; exact O.
  - apply (admin_required_preserves (hedge_free c0)); [|exact O].
    intros _. unfold open_betting_body. case_match; [exact O|].
    assert (O0 : hedge_free c0 (set_betting_status true s)) by exact O.
    pose proof (get_active_round_frame (set_betting_status true s))
      as [_ [E2 [_ [E4 _]]]].
    destruct (get_active_round (set_betting_status true s)) as [s2 [rid|]];
      cbn [fst] in E2, E4.
    + exact (hedge_free_frame c0 _ _ E2 E4 O0).
    + pose proof (create_new_round_frame s2 clk) as [_ [C2 [C3 _]]].
      pose proof (hedge_free_frame c0 _ _ E2 E4 O0) as O2.
      destruct (create_new_round s2 clk) as [s3 []]; cbn [fst] in *;
        exact (hedge_free_frame c0 _ _ C2 C3 O2).
  - apply (admin_required_preserves (hedge_free c0)); [|exact O].
    unfold stop_betting_body. repeat case_match; intros; exact O.
  - unfold process_bet. case_match; [exact O|]. cbv zeta.
    case_match; [exact O|].
    destruct (find_user_by_user_id tg (users s)) as [u|]; [|exact O].
    pose proof (get_active_round_frame s) as [_ [E2 [_ [E4 _]]]].
    destruct (get_active_round s) as [s1 [rid|]]; cbn [fst] in E2, E4.
    + apply place_hedge_free. exact (hedge_free_frame c0 _ _ E2 E4 O).
    + pose proof (create_new_round_frame (with_current s None) clk)
        as [_ [C2 [C3 _]]].
      assert (O2 : hedge_free c0
                     (fst (create_new_round (with_current s None) clk))).
      { exact (hedge_free_frame c0 _ _ C2 C3 O). }
      destruct (create_new_round (with_current s None) clk) as [s2 [|rid|]];
        cbn [fst] in O2; try exact O2.
      now apply place_hedge_free.
  - unfold handle_dice.
    pose proof (get_active_round_frame s) as [_ [E2 [_ [E4 _]]]].
    destruct (get_active_round s) as [s1 [rid|]]; cbn [fst] in E2, E4;
      [|exact O].
    assert (O1 : hedge_free c0 s1) by exact (hedge_free_frame c0 _ _ E2 E4 O).
    assert (K : forall s2 dv,
               hedge_free c0 s2 ->
               hedge_free c0 (fst (check_and_close s2 tg rid dv clk))).
    { intros s2 dv O2. unfold check_and_close, close_and_settle.
      repeat (case_match; try exact O2).
      match goal with
      | H : settle_bets _ _ _ _ = Some _ |- _ =>
          pose proof (settle_bets_rounds _ _ _ _ _ _ H) as [_ [S _]];
          apply (settle_bets_keeps (table_ok c0)) in H;
          [ split; [exact H | cbn in S |- *; rewrite S; apply O2]
          | intros; now apply table_ok_write
          | apply O2 ]
      end. }
    destruct message as [v|matches]; cbv zeta; case_match;
      try exact O1; now apply K.
  - unfold cancel_bet.
    destruct (find_user_by_user_id tg (users s)) as [u|]; [|exact O].
    pose proof (get_active_round_frame s) as [_ [E2 [_ [E4 _]]]].
    destruct (get_active_round s) as [s1 [rid|]]; cbn [fst] in E2, E4;
      [|exact O].
    assert (O1 : hedge_free c0 s1) by exact (hedge_free_frame c0 _ _ E2 E4 O).
    cbv zeta. case_match; [|exact O1]. case_match; [exact O1|].
    destruct reply_to_message as [replied_text|].
    + destruct (parse_bet replied_text) as [bet_info|]; [|exact O1].
      pose proof (cancel_fold_keeps (table_ok c0) (u_id u) rid (now clk)
                    bet_info (bets s1, [], 0)
                    (fun bid bs => table_ok_cancel c0 bid bs)
                    (proj1 O1)) as Q.
      destruct (fold_left _ bet_info _) as [[bs entries] total].
      cbn [fst] in Q. case_match; [|exact O1].
      split; [exact Q | apply O1].
    + destruct (active_bets_of (u_id u) rid (bets s1)) as [|b0 sel];
        [exact O1|].
      case_match; [|exact O1].
      split; [|apply O1].
      apply (cancel_all_keeps (table_ok c0) (b0 :: sel) (bets s1)
               (fun bid bs => table_ok_cancel c0 bid bs) (proj1 O1)).
  - apply (admin_required_preserves (hedge_free c0)); [|exact O].
    unfold set_bet_limits_body. repeat case_match; intros; exact O.
  - apply (super_admin_required_preserves (hedge_free c0)); [|exact O].
    unfold set_odds_value_body. repeat case_match; intros; exact O.
  - apply (admin_required_preserves (hedge_free c0)); [|exact O].
    unfold set_allow_irrelevant_body. repeat case_match; intros; exact O.
  - apply (super_admin_required_preserves (hedge_free c0)); [|exact O].
    intros _. unfold change_admin_body. repeat case_match; exact O.
Qed.

Lemma run_hedge_free (c0 : settings_row) (es : list event) (s : state) :
  hedge_free c0 s -> hedge_free c0 (run s es).
Proof.
  revert s. induction es as [|e es IH]; cbn [run fold_left]; intros s H;
    [assumption|].
  apply IH. now apply step_hedge_free.
Qed.

Lemma init_hedge_free : hedge_free default_settings init.
Proof.
  split; [|repeat split]. intros uid rid. cbn. repeat split; cbn; lia.
Qed.

(** X4. No hedging: in every reachable state, no user holds active bets
    on both 大 and 小, or on both 单 and 双, in one round (whatever was
    cancelled or settled in between). *)
Theorem no_hedged_position :
  forall (es : list event) (uid : Z) (rid : string),
    let held := map b_type (active_bets_of uid rid (bets (run init es))) in
    (mem "大" held && mem "小" held = false) /\
    (mem "单" held && mem "双" held = false).
Proof.
  intros es uid rid held.
  destruct (run_hedge_free default_settings es init init_hedge_free)
    as [T _].
  destruct (T uid rid) as [O _]. unfold opposing in O.
  apply orb_false_iff in O. exact O.
Qed.

(** X5. The ceilings on bets per user and round are never exceeded and
    never change: at most 2 active size or parity bets, 3 active sum
    bets and 1 active triple bet, in every reachable state. *)
Theorem bets_per_round_bounded :
  forall (es : list event) (uid : Z) (rid : string),
    let held := map b_type (active_bets_of uid rid (bets (run init es))) in
    let c := settings (run init es) in
    count (fun t => mem t size_parity) held <= 2 /\
    count (String.eqb "和值") held <= 3 /\
    count (String.eqb "豹子") held <= 1 /\
    max_size_odd_even_bets c = 2 /\ max_sum_bets c = 3 /\
    max_leopard_bets c = 1.
Proof.
  intros es uid rid held c.
  destruct (run_hedge_free default_settings es init init_hedge_free)
    as [T [C1 [C2 C3]]].
  destruct (T uid rid) as [_ [W1 [W2 W3]]].
  repeat split; assumption.
Qed.

(** ** The life of rounds and bets *)

Lemma find_round_app (rid : string) (rs xs : list round) (r : round) :
  find_round rid rs = Some r -> find_round rid (rs ++ xs) = Some r.
Proof.
  unfold find_round. induction rs as [|x rs IH]; cbn [find app];
    [discriminate|].
  destruct (String.eqb (r_id x) rid); auto.
Qed.

Lemma find_round_fresh (rid : string) (rs : list round) (x : round) :
  existsb (fun r => String.eqb (r_id r) rid) rs = false ->
  r_id x = rid ->
  find_round rid (rs ++ [x]) = Some x.
Proof.
  unfold find_round. intros H E.
  induction rs as [|y rs IH]; cbn [find app existsb] in *.
  - rewrite E, String.eqb_refl. reflexivity.
  - apply orb_false_iff in H. destruct H as [H1 H2]. rewrite H1. auto.
Qed.

Lemma find_round_close_other (x rid : string) (t : Z) (d : string)
  (rs : list round) :
  String.eqb x rid = false ->
  find_round x (close_round rid t d rs) = find_round x rs.
Proof.
  intros N. unfold find_round, close_round.
  induction rs as [|r rs IH]; cbn [find map]; [reflexivity|].
  destruct (String.eqb (r_id r) rid) eqn:E.
  - cbn [close_row r_id]. apply String.eqb_eq in E. rewrite E.
    rewrite String.eqb_sym, N. exact IH.
  - destruct (String.eqb (r_id r) x); [reflexivity | exact IH].
Qed.

Lemma bet_shape_app (rs xs : list round) (b : bet) :
  bet_shape rs b -> bet_shape (rs ++ xs) b.
Proof.
  unfold bet_shape.
  destruct (find_round (b_round_id b) rs) as [r|] eqn:F; [|intros []].
  now rewrite (find_round_app _ _ xs _ F).
Qed.

Lemma same_id_same_row (bs : list bet) (x y : bet) :
  NoDup (map b_id bs) -> In x bs -> In y bs -> b_id x = b_id y -> x = y.
Proof.
  induction bs as [|b bs IH]; intros N Hx Hy E; [destruct Hx|].
  inversion N as [|? ? Nb N']; subst.
  destruct Hx as [-> | Hx], Hy as [-> | Hy]; auto.
  - exfalso. apply Nb. rewrite E. now apply in_map.
  - exfalso. apply Nb. rewrite <- E. now apply in_map.
Qed.

Lemma settle_one_shape (c : settings_row) (dn : list Z) (b : bet) :
  0 < b_amount b -> odds_pos c ->
  match fst (settle_one c dn b) with
  | win => 0 < snd (settle_one c dn b)
  | lose => snd (settle_one c dn b) = 0
  end.
Proof.
  intros A [O1 [O2 O3]]. unfold settle_one. cbv zeta.
  destruct (is_leopard dn).
  - destruct (String.eqb (b_type b) "豹子"); cbn [fst snd]; nia.
  - destruct (mem (b_type b) size_parity).
    + match goal with
      | |- context [if ?x then (win, _) else _] => destruct x
      end; cbn [fst snd]; nia.
    + match goal with
      | |- context [if ?x then (win, _) else _] => destruct x
      end; cbn [fst snd]; nia.
Qed.

Lemma cancel_by_id_ids (bid : Z) (bs : list bet) :
  map b_id (cancel_by_id bid bs) = map b_id bs.
Proof.
  unfold cancel_by_id. rewrite map_map. apply map_ext.
  intros b. destruct (b_id b =? bid); reflexivity.
Qed.

Lemma find_bet_record_In (uid : Z) (rid : string) (i : intent)
  (bs : list bet) (rec : bet) :
  find_bet_record uid rid i bs = Some rec ->
  In rec bs /\ b_user_id rec = uid /\ b_round_id rec = rid /\
  b_type rec = itype i /\ b_value rec = ivalue i /\
  b_amount rec = iamount i /\ b_status rec = active.
Proof.
  unfold find_bet_record. intros H. apply find_some in H.
  destruct H as [Hin H].
  repeat (apply andb_true_iff in H; destruct H as [H ?]).
  repeat split; auto.
  - now apply Z.eqb_eq.
  - now apply String.eqb_eq.
  - now apply String.eqb_eq.
  - now apply String.eqb_eq.
  - now apply Z.eqb_eq.
  - unfold is_active in *. destruct (b_status rec); [reflexivity|discriminate].
Qed.

(** Cancelling a bet of the open round keeps the shapes. *)
Lemma cancel_by_id_shape (rs : list round) (r : round) (rec : bet)
  (bs : list bet) :
  find_round (b_round_id rec) rs = Some r -> is_open r = true ->
  In rec bs ->
  NoDup (map b_id bs) /\ Forall (bet_shape rs) bs ->
  NoDup (map b_id (cancel_by_id (b_id rec) bs)) /\
  Forall (bet_shape rs) (cancel_by_id (b_id rec) bs).
Proof.
  intros F O Hin [N S]. split; [now rewrite cancel_by_id_ids|].
  rewrite Forall_forall in *. intros x' Hx'. unfold cancel_by_id in Hx'.
  apply in_map_iff in Hx'. destruct Hx' as [x [<- Hx]].
  destruct (b_id x =? b_id rec) eqn:E; [|now apply S].
  apply Z.eqb_eq in E.
  assert (x = rec) by now apply (same_id_same_row bs). subst x.
  specialize (S rec Hin). unfold bet_shape in *.
  cbn [set_status_row b_round_id b_result b_payout].
  rewrite F in *. rewrite O in *. exact S.
Qed.

Lemma cancel_fold_found (P : list bet -> Prop) (uid : Z) (rid : string)
  (t : Z) (its : list intent) (acc : list bet * list log * Z) :
  (forall i rec bs, find_bet_record uid rid i bs = Some rec ->
                    P bs -> P (cancel_by_id (b_id rec) bs)) ->
  P (fst (fst acc)) ->
  P (fst (fst (fold_left (cancel_step uid rid t) its acc))).
Proof.
  intros HP. revert acc. induction its as [|i its IH]; cbn [fold_left];
    intros acc P0; [assumption|].
  apply IH. destruct acc as [[bs entries] total]. unfold cancel_step.
  destruct (find_bet_record uid rid i bs) as [rec|] eqn:F; [|assumption].
  cbn [fst]. now apply (HP i).
Qed.

Lemma cancel_all_form (uid : Z) (rid : string) (bs : list bet) :
  NoDup (map b_id bs) ->
  fold_left (fun acc b => cancel_by_id (b_id b) acc)
    (active_bets_of uid rid bs) bs
  = map (fun b => if mine uid rid b then set_status_row b cancelled else b)
      bs.
Proof.
  intros N. unfold active_bets_of, cancel_by_id.
  rewrite (fold_by_id_filter (fun _ b => set_status_row b cancelled));
    [reflexivity | reflexivity | assumption].
Qed.

Lemma settle_fold_form c dn t sel s w s' w' :
  fold_left (settle_step c dn t) sel (Some (s, w)) = Some (s', w') ->
  bets s'
  = fold_left
      (fun acc x =>
         map (fun b => if b_id b =? b_id x
                       then set_result_row b (fst (settle_one c dn x))
                              (snd (settle_one c dn x))
                       else b) acc)
      sel (bets s).
Proof.
  revert s w. induction sel as [|b sel IH]; intros s w H;
    cbn [fold_left] in *.
  - inversion H; subst. reflexivity.
  - destruct (settle_step c dn t (Some (s, w)) b) as [[s1 w1]|] eqn:E.
    + rewrite (IH s1 w1 H). apply settle_step_bets in E.
      destruct E as [E _]. rewrite E. reflexivity.
    + rewrite settle_fold_None in H. discriminate.
Qed.

(** The bets table after [settle_bets]: the active bets of the round
    carry the outcome of [settle_one], every other row is as before. *)
Lemma settle_bets_form rid d t s s' w :
  NoDup (map b_id (bets s)) ->
  settle_bets rid d t s = Some (s', w) ->
  exists dn,
    map_int (split_comma d) = Some dn /\
    bets s' = map (settled_row (settings s) dn rid) (bets s).
Proof.
  intros N. unfold settle_bets.
  destruct (map_int (split_comma d)) as [dn|]; [|discriminate].
  intros H. exists dn. split; [reflexivity|].
  assert (B : bets s'
              = fold_left
                  (fun acc x =>
                     map (fun b =>
                            if b_id b =? b_id x
                            then set_result_row b
                                   (fst (settle_one (settings s) dn x))
                                   (snd (settle_one (settings s) dn x))
                            else b) acc)
                  (active_bets_in rid (bets s)) (bets s)).
  { destruct (active_bets_in rid (bets s)) as [|b0 sel].
    - inversion H; subst. reflexivity.
    - now apply settle_fold_form in H. }
  rewrite B. unfold active_bets_in.
  rewrite (fold_by_id_filter
             (fun x b => set_result_row b
                           (fst (settle_one (settings s) dn x))
                           (snd (settle_one (settings s) dn x))));
    [reflexivity | reflexivity | assumption].
Qed.

Lemma create_new_round_lifecycle (s : state) (clk : clock) :
  lifecycle s -> lifecycle (fst (create_new_round s clk)).
Proof.
  intros [R [B O]]. unfold create_new_round.
  destruct (check_pending_round s); [exact (conj R (conj B O))|].
  cbv zeta.
  destruct (existsb _ (rounds s)); [exact (conj R (conj B O))|].
  split; [|split; [|exact O]]; cbn.
  - apply Forall_app. split; [exact R|].
    constructor; [|constructor]. cbn. auto.
  - revert B. apply Forall_impl. intros b. apply bet_shape_app.
Qed.

Lemma create_new_round_found (s s' : state) (clk : clock) (rid : string) :
  create_new_round s clk = (s', Created rid) ->
  find_round rid (rounds s')
  = Some (mk_round rid (now clk) None None st_open).
Proof.
  unfold create_new_round.
  destruct (check_pending_round s); [discriminate|]. cbv zeta.
  destruct (existsb _ (rounds s)) eqn:X; [discriminate|].
  intros H. inversion H; subst. cbn [rounds with_current with_rounds].
  now apply find_round_fresh.
Qed.

Lemma place_settings (s : state) (u : user) (rid text : string)
  (clk : clock) :
  settings (fst (place s u rid text clk)) = settings s.
Proof. unfold place. cbv zeta. repeat case_match; reflexivity. Qed.

Lemma place_bets_cases (s : state) (u : user) (rid text : string)
  (clk : clock) :
  bets (fst (place s u rid text clk)) = bets s \/
  exists its,
    parse_bet text = Some its /\
    bets (fst (place s u rid text clk))
    = place_bets (u_id u) rid (now clk) its (bets s).
Proof.
  unfold place. cbv zeta.
  destruct (parse_bet text) as [its|]; [|now left].
  repeat case_match; try (now left). right. exists its. auto.
Qed.

Lemma place_lifecycle (s : state) (u : user) (rid text : string)
  (clk : clock) (r : round) :
  find_round rid (rounds s) = Some r -> is_open r = true ->
  lifecycle s -> lifecycle (fst (place s u rid text clk)).
Proof.
  intros F Op [R [B O]]. unfold lifecycle.
  rewrite place_rounds, place_settings.
  split; [exact R|]. split; [|exact O].
  destruct (place_bets_cases s u rid text clk) as [E | [its [_ E]]];
    rewrite E; [exact B|].
  destruct (place_bets_shape (u_id u) rid (now clk) its (bets s))
    as [news [E' [_ [_ [_ Fn]]]]].
  rewrite E'. apply Forall_app. split; [exact B|].
  revert Fn. apply Forall_impl.
  intros b [_ [Rb [_ [Res [Pay _]]]]]. unfold bet_shape.
  rewrite Rb, F, Op. auto.
Qed.

Lemma dice_in_range (d0 d1 d2 : Z) :
  existsb (fun v => (v <? 1) || (v >? 6)) [d0; d1; d2] = false ->
  1 <= d0 <= 6 /\ 1 <= d1 <= 6 /\ 1 <= d2 <= 6.
Proof.
  cbn [existsb]. rewrite !orb_false_iff, !Z.gtb_ltb, !Z.ltb_ge. lia.
Qed.

Lemma close_round_shape (rid : string) (t d0 d1 d2 : Z)
  (rs : list round) :
  1 <= d0 <= 6 /\ 1 <= d1 <= 6 /\ 1 <= d2 <= 6 ->
  Forall round_shape rs ->
  Forall round_shape (close_round rid t (dice_text d0 d1 d2) rs).
Proof.
  intros D R. unfold close_round. rewrite Forall_forall in *.
  intros x' Hx'. apply in_map_iff in Hx'. destruct Hx' as [x [<- Hx]].
  destruct (String.eqb (r_id x) rid); [|now apply R].
  unfold round_shape. cbn [close_row r_status r_end_time r_dice_result].
  exists t, d0, d1, d2. tauto.
Qed.

(** The shapes after closing the open round [rid] and settling it. *)
Lemma settled_shape (c : settings_row) (dn : list Z) (rid : string)
  (t : Z) (d : string) (rs : list round) (r0 : round) (bs : list bet) :
  find_round rid rs = Some r0 -> is_open r0 = true ->
  odds_pos c -> Forall (fun b => 0 < b_amount b) bs ->
  Forall (bet_shape rs) bs ->
  Forall (bet_shape (close_round rid t d rs))
    (map (settled_row c dn rid) bs).
Proof.
  intros F Op O A B. rewrite Forall_forall in *.
  intros x' Hx'. apply in_map_iff in Hx'. destruct Hx' as [b [<- Hb]].
  specialize (A b Hb). specialize (B b Hb).
  unfold settled_row, in_round.
  destruct (String.eqb (b_round_id b) rid) eqn:E.
  - apply String.eqb_eq in E. unfold bet_shape in B. rewrite E, F, Op in B.
    destruct B as [Res Pay].
    pose proof (settle_one_shape c dn b A O) as S.
    unfold is_active. destruct (b_status b) eqn:St; cbn [andb];
      unfold bet_shape.
    + cbn [set_result_row b_round_id b_status b_result b_payout].
      rewrite E, (find_round_closed rid t d rs r0 F).
      cbn [is_open close_row r_status]. rewrite St.
      destruct (fst (settle_one c dn b)); exact S.
    + rewrite E, (find_round_closed rid t d rs r0 F).
      cbn [is_open close_row r_status]. rewrite St, Res. exact Pay.
  - cbn [andb]. unfold bet_shape in *.
    now rewrite (find_round_close_other _ rid t d rs E).
Qed.

Lemma check_and_close_lifecycle (s : state) (tg : Z) (rid : string)
  (dv : list Z) (clk : clock) :
  bets_ok (bets s) -> lifecycle s ->
  lifecycle (fst (check_and_close s tg rid dv clk)).
Proof.
  intros [N A] L. unfold check_and_close.
  destruct (negb (Nat.eqb (List.length dv) 3)); [exact L|].
  destruct (existsb _ dv) eqn:X; [exact L|].
  unfold close_and_settle.
  destruct (find_user_by_user_id tg (users s)); [|exact L].
  destruct (find_round rid (rounds s)) as [r0|] eqn:F; [|exact L].
  destruct (is_open r0) eqn:Op; cbn [negb]; [|exact L].
  destruct (truthy (r_dice_result r0)); [exact L|].
  destruct dv as [|d0 [|d1 [|d2 [|d3 dv]]]]; try exact L.
  apply dice_in_range in X.
  fold (dice_text d0 d1 d2).
  destruct (settle_bets rid (dice_text d0 d1 d2) (now clk)
              (with_rounds s
                 (close_round rid (now clk) (dice_text d0 d1 d2)
                    (rounds s))))
    as [[s2 w]|] eqn:E; [|exact L].
  pose proof (settle_bets_rounds _ _ _ _ _ _ E) as [Rs [Ss _]].
  apply settle_bets_form in E; [|exact N]. destruct E as [dn [_ Bs]].
  cbn [rounds bets settings with_rounds] in Rs, Ss, Bs.
  destruct L as [R [B O]].
  unfold lifecycle. cbn [fst rounds bets settings with_current].
  rewrite Rs, Ss, Bs. split; [now apply close_round_shape|].
  split; [|exact O]. apply (settled_shape _ _ _ _ _ _ r0); auto.
  apply O.
Qed.

Lemma lifecycle_frame (s s' : state) :
  bets s' = bets s -> rounds s' = rounds s -> settings s' = settings s ->
  lifecycle s -> lifecycle s'.
Proof. unfold lifecycle. intros -> -> ->. auto. Qed.

Lemma cancel_bet_lifecycle (s : state) (tg : Z)
  (a : option string * clock) :
  bets_ok (bets s) -> lifecycle s -> lifecycle (fst (cancel_bet s tg a)).
Proof.
  intros [N A] L. destruct a as [reply_to_message clk]. unfold cancel_bet.
  destruct (find_user_by_user_id tg (users s)) as [u|]; [|exact L].
  pose proof (get_active_round_frame s) as [_ [E2 [E3 [E4 _]]]].
  destruct (get_active_round s) as [s1 [rid|]]; cbn [fst] in E2, E3, E4;
    [|exact L].
  assert (L1 : lifecycle s1) by exact (lifecycle_frame _ _ E2 E3 E4 L).
  rewrite <- E2 in N. clear L.
  destruct (find_round rid (rounds s1)) as [r|] eqn:F; [|exact L1].
  destruct (is_open r) eqn:Op; cbn [negb]; [|exact L1]. cbv zeta.
  destruct L1 as [R [B O]].
  assert (K : forall bs, Forall (bet_shape (rounds s1)) bs ->
              forall entries total,
                lifecycle
                  (fst (if total >? 0
                        then (with_users
                                (with_logs (with_bets s1 bs)
                                   (balance_logs s1 ++ entries))
                                (add_balance (u_id u) total (users s1)),
                              Refunded total)
                        else (s1, NoneFound)))).
  { intros bs Hb entries total. destruct (total >? 0);
      [exact (conj R (conj Hb O)) | exact (conj R (conj B O))]. }
  destruct reply_to_message as [replied_text|].
  - destruct (parse_bet replied_text) as [bet_info|];
      [|exact (conj R (conj B O))].
    pose proof (cancel_fold_found
                  (fun bs => NoDup (map b_id bs) /\
                             Forall (bet_shape (rounds s1)) bs)
                  (u_id u) rid (now clk) bet_info (bets s1, [], 0)) as Q.
    cbn [fst] in Q.
    destruct (fold_left _ bet_info _) as [[bs entries] total].
    apply K. apply Q; [|now split].
    intros i rec bs0 Fr P. apply find_bet_record_In in Fr.
    destruct Fr as [Hin [_ [Rr _]]].
    apply (cancel_by_id_shape _ r); auto. now rewrite Rr.
  - destruct (active_bets_of (u_id u) rid (bets s1)) as [|b0 sel] eqn:S;
      [exact (conj R (conj B O))|].
    apply K. rewrite <- S, (cancel_all_form _ _ _ N).
    rewrite Forall_forall in *. intros x' Hx'.
    apply in_map_iff in Hx'. destruct Hx' as [b [<- Hb]].
    specialize (B b Hb). unfold mine.
    destruct ((b_user_id b =? u_id u) && String.eqb (b_round_id b) rid
              && is_active b) eqn:M; [|exact B].
    apply andb_true_iff in M. destruct M as [M _].
    apply andb_true_iff in M. destruct M as [_ M].
    apply String.eqb_eq in M. unfold bet_shape in *.
    cbn [set_status_row b_round_id b_result b_payout].
    rewrite M, F, Op in *. exact B.
Qed.

Lemma get_active_round_found (s s1 : state) (rid : string) :
  NoDup (map r_id (rounds s)) ->
  get_active_round s = (s1, Some rid) ->
  exists r, find_round rid (rounds s) = Some r /\ is_open r = true.
Proof.
  intros N G. destruct (get_active_round_Some s s1 rid G) as [r [Hr [Or Ir]]].
  exists r. split; [|exact Or]. rewrite <- Ir. now apply find_round_unique.
Qed.

Lemma step_lifecycle (s : state) (e : event) :
  Inv s -> lifecycle s -> lifecycle (step s e).
Proof.
  intros [_ [Bk [[_ Nr] _]]] O. unfold step. destruct e; unfold handle.
  - unfold start. repeat case_match; exact O.
  - apply (admin_required_preserves lifecycle); [|exact O].
    intros _. unfold adjust_balance_body. repeat case_match; exact O.
  - apply (admin_required_preserves lifecycle); [|exact O].
    intros _. unfold deduct_by_username_body. repeat case_match; exact O.
  - apply (super_admin_required_preserves lifecycle); [|exact O].
    intros _. unfold clear_all_balances_body. repeat case_match; exact O.
  - apply (admin_required_preserves lifecycle); [|exact O].
    intros _. unfold open_betting_body. case_match; [exact O|].
    assert (O0 : lifecycle (set_betting_status true s)) by exact O.
    pose proof (get_active_round_frame (set_betting_status true s))
      as [_ [E2 [E3 [E4 _]]]].
    pose proof (lifecycle_frame _ _ E2 E3 E4 O0) as O2.
    destruct (get_active_round (set_betting_status true s)) as [s2 [rid|]];
      cbn [fst] in O2; [exact O2|].
    pose proof (create_new_round_lifecycle s2 clk O2) as O3.
    destruct (create_new_round s2 clk) as [s3 []]; exact O3.
  - apply (admin_required_preserves lifecycle); [|exact O].
    unfold stop_betting_body. repeat case_match; intros; exact O.
  - unfold process_bet. case_match; [exact O|]. cbv zeta.
    case_match; [exact O|].
    destruct (find_user_by_user_id tg (users s)) as [u|]; [|exact O].
    pose proof (get_active_round_frame s) as [_ [E2 [E3 [E4 _]]]].
    pose proof (lifecycle_frame _ _ E2 E3 E4 O) as O1.
    destruct (get_active_round s) as [s1 [rid|]] eqn:G;
      cbn [fst] in E3, O1.
    + destruct (get_active_round_found s s1 rid Nr G) as [r [F Op]].
      rewrite <- E3 in F. now apply (place_lifecycle _ _ _ _ _ r).
    + pose proof (create_new_round_lifecycle (with_current s None) clk O)
        as O2.
      destruct (create_new_round (with_current s None) clk)
        as [s2 [|rid|]] eqn:C; cbn [fst] in O2; try exact O2.
      apply create_new_round_found in C.
      now apply (place_lifecycle _ _ _ _ _ _ C).
  - unfold handle_dice.
    pose proof (get_active_round_frame s) as [_ [E2 [E3 [E4 _]]]].
    pose proof (lifecycle_frame _ _ E2 E3 E4 O) as O1.
    destruct (get_active_round s) as [s1 [rid|]]; cbn [fst] in E2, O1;
      [|exact O].
    rewrite <- E2 in Bk.
    destruct message as [v|matches]; cbv zeta; case_match;
      try exact O1; now apply check_and_close_lifecycle.
  - now apply cancel_bet_lifecycle.
  - apply (admin_required_preserves lifecycle); [|exact O].
    unfold set_bet_limits_body. intros _.
    repeat case_match; try exact O.
    destruct O as [R [B [M P]]]. repeat split; try assumption; try apply P.
    cbn. match goal with
         | H : _ || _ = false |- _ =>
             apply orb_false_iff in H; destruct H as [_ H];
             apply Z.leb_gt in H; exact H
         end.
  - apply (super_admin_required_preserves lifecycle); [|exact O].
    unfold set_odds_value_body. intros _.
    repeat case_match; try exact O.
    destruct O as [R [B [M [P1 [P2 P3]]]]].
    match goal with
    | H : (_ <=? 0) = false |- _ => apply Z.leb_gt in H
    end.
    repeat split; try assumption; cbn; case_match; assumption.
  - apply (admin_required_preserves lifecycle); [|exact O].
    unfold set_allow_irrelevant_body. repeat case_match; intros; exact O.
  - apply (super_admin_required_preserves lifecycle); [|exact O].
    intros _. unfold change_admin_body. repeat case_match; exact O.
Qed.

Lemma init_lifecycle : lifecycle init.
Proof.
  repeat split; try constructor; cbn; lia.
Qed.

Lemma run_lifecycle (es : list event) (s : state) :
  Inv s -> lifecycle s -> lifecycle (run s es).
Proof.
  revert s. induction es as [|e es IH]; cbn [run fold_left]; intros s I L;
    [assumption|].
  apply IH; [now apply step_Inv | now apply step_lifecycle].
Qed.

(** X6. While a round is open none of its bets carries a result or a
    payout, and every bet belongs to a recorded round. *)
Theorem open_round_bets_unsettled :
  forall (es : list event) (b : bet),
    In b (bets (run init es)) ->
    exists r,
      find_round (b_round_id b) (rounds (run init es)) = Some r /\
      (is_open r = true -> b_result b = None /\ b_payout b = 0).
Proof.
  intros es b Hb.
  destruct (run_lifecycle es init init_Inv init_lifecycle) as [_ [B _]].
  rewrite Forall_forall in B. specialize (B b Hb). unfold bet_shape in B.
  destruct (find_round (b_round_id b) (rounds (run init es))) as [r|];
    [|destruct B].
  exists r. split; [reflexivity|]. intros Op. now rewrite Op in B.
Qed.

Lemma open_round_bets_unsettled_witness :
  exists r,
    find_round (b_round_id big_bet) (rounds (run init one_big_bet))
    = Some r /\
    (is_open r = true -> b_result big_bet = None /\ b_payout big_bet = 0).
Proof.
  apply (open_round_bets_unsettled one_big_bet big_bet).
  vm_compute. left. reflexivity.
Defined.

(** X7. In a closed round every active bet is settled, won with a
    positive payout or lost with payout 0, and no cancelled bet is ever
    settled or paid. *)
Theorem closed_round_bets_settled :
  forall (es : list event) (b : bet) (r : round),
    In b (bets (run init es)) ->
    find_round (b_round_id b) (rounds (run init es)) = Some r ->
    is_open r = false ->
    match b_status b with
    | active =>
        (b_result b = Some win /\ 0 < b_payout b) \/
        (b_result b = Some lose /\ b_payout b = 0)
    | cancelled => b_result b = None /\ b_payout b = 0
    end.
Proof.
  intros es b r Hb F Op.
  destruct (run_lifecycle es init init_Inv init_lifecycle) as [_ [B _]].
  rewrite Forall_forall in B. specialize (B b Hb). unfold bet_shape in B.
  rewrite F, Op in B.
  destruct (b_status b); destruct (b_result b) as [[]|];
    try contradiction; [left | right | ]; auto.
Qed.

Lemma closed_round_bets_settled_witness :
  (b_result big_bet_won = Some win /\ 0 < b_payout big_bet_won) \/
  (b_result big_bet_won = Some lose /\ b_payout big_bet_won = 0).
Proof.
  apply (closed_round_bets_settled settled_scene big_bet_won
           round_one_closed).
  - vm_compute. left. reflexivity.
  - reflexivity.
  - reflexivity.
Defined.

(** X8. Every round is either open, with neither end time nor result,
    or closed with an end time and the text of three dice, each between
    1 and 6. *)
Theorem rounds_open_or_closed :
  forall (es : list event) (r : round),
    In r (rounds (run init es)) ->
    (r_status r = st_open /\ r_end_time r = None /\
     r_dice_result r = None) \/
    (r_status r = st_closed /\
     exists t d0 d1 d2,
       r_end_time r = Some t /\
       r_dice_result r = Some (str d0 ++ "," ++ str d1 ++ "," ++ str d2) /\
       1 <= d0 <= 6 /\ 1 <= d1 <= 6 /\ 1 <= d2 <= 6).
Proof.
  intros es r Hr.
  destruct (run_lifecycle es init init_Inv init_lifecycle) as [R _].
  rewrite Forall_forall in R. specialize (R r Hr). unfold round_shape in R.
  destruct (r_status r); [left | right | destruct R]; auto.
Qed.

Lemma rounds_open_or_closed_witness :
  (r_status round_one_closed = st_open /\
   r_end_time round_one_closed = None /\
   r_dice_result round_one_closed = None) \/
  (r_status round_one_closed = st_closed /\
   exists t d0 d1 d2,
     r_end_time round_one_closed = Some t /\
     r_dice_result round_one_closed
     = Some (str d0 ++ "," ++ str d1 ++ "," ++ str d2) /\
     1 <= d0 <= 6 /\ 1 <= d1 <= 6 /\ 1 <= d2 <= 6).
Proof.
  apply (rounds_open_or_closed settled_scene round_one_closed).
  vm_compute. left. reflexivity.
Defined.

(** X9. The settings stay usable: the stake limits satisfy
    0 < min < max and the three odds are positive, whatever the
    administrators set. *)
Theorem settings_stay_sane :
  forall es : list event,
    let c := settings (run init es) in
    0 < min_bet c < max_bet c /\
    0 < odds_daxiao c /\ 0 < odds_hezhi c /\ 0 < odds_baozi c.
Proof.
  intros es c.
  destruct (run_lifecycle es init init_Inv init_lifecycle)
    as [_ [_ [M P]]].
  destruct (run_Inv es init init_Inv) as [_ [_ [_ C]]].
  unfold settings_ok in C. fold c in M, P, C. unfold odds_pos in P.
  repeat split; try apply P; assumption.
Qed.

(** ** How the tables move *)

Lemma bets_move_refl (rs : list round) (bs : list bet) :
  bets_move rs bs bs.
Proof.
  exists (fun b => b), []. rewrite map_id, app_nil_r.
  split; [reflexivity|]. intros b _. now left.
Qed.

Lemma bets_move_app (rs : list round) (bs news : list bet) :
  bets_move rs bs (bs ++ news).
Proof.
  exists (fun b => b), news. rewrite map_id.
  split; [reflexivity|]. intros b _. now left.
Qed.

Lemma bets_move_map (rs : list round) (bs : list bet) (f : bet -> bet) :
  (forall b, In b bs -> touched rs b (f b)) ->
  bets_move rs bs (map f bs).
Proof.
  intros H. exists f, []. now rewrite app_nil_r.
Qed.

Lemma rounds_move_refl (rs : list round) : rounds_move rs rs.
Proof.
  exists (fun r => r), []. rewrite map_id, app_nil_r.
  split; [reflexivity|]. intros r _. now left.
Qed.

Lemma rounds_move_app (rs news : list round) : rounds_move rs (rs ++ news).
Proof.
  exists (fun r => r), news. rewrite map_id.
  split; [reflexivity|]. intros r _. now left.
Qed.

Lemma rounds_move_close (rs : list round) (rid : string) (t : Z)
  (d : string) (r0 : round) :
  NoDup (map r_id rs) -> find_round rid rs = Some r0 -> is_open r0 = true ->
  rounds_move rs (close_round rid t d rs).
Proof.
  intros N F Op.
  exists (fun r => if String.eqb (r_id r) rid then close_row r t d else r), [].
  rewrite app_nil_r. split; [reflexivity|].
  intros r Hr. destruct (String.eqb (r_id r) rid) eqn:E; [|now left].
  right. apply String.eqb_eq in E.
  pose proof (find_round_unique rs r N Hr) as F'. rewrite E, F in F'.
  inversion F'; subst. split; [exact Op|]. now exists t, d.
Qed.

(** What the third dice does to the tables: nothing, or the round is
    closed and its active bets carry the outcome of [settle_one]. *)
Lemma check_and_close_form (s : state) (tg : Z) (rid : string)
  (dv : list Z) (clk : clock) :
  NoDup (map b_id (bets s)) ->
  let s' := fst (check_and_close s tg rid dv clk) in
  (rounds s' = rounds s /\ bets s' = bets s /\
   forall w, snd (check_and_close s tg rid dv clk) <> Settled w) \/
  (exists r0 d0 d1 d2 w,
      find_round rid (rounds s) = Some r0 /\ is_open r0 = true /\
      dv = [d0; d1; d2] /\
      1 <= d0 <= 6 /\ 1 <= d1 <= 6 /\ 1 <= d2 <= 6 /\
      snd (check_and_close s tg rid dv clk) = Settled w /\
      rounds s' = close_round rid (now clk) (dice_text d0 d1 d2) (rounds s) /\
      bets s' = map (settled_row (settings s) [d0; d1; d2] rid) (bets s)).
Proof.
  intros N. cbv zeta. unfold check_and_close.
  destruct (negb (Nat.eqb (List.length dv) 3));
    [left; repeat split; discriminate|].
  destruct (existsb _ dv) eqn:X; [left; repeat split; discriminate|].
  unfold close_and_settle.
  destruct (find_user_by_user_id tg (users s));
    [|left; repeat split; discriminate].
  destruct (find_round rid (rounds s)) as [r0|] eqn:F;
    [|left; repeat split; discriminate].
  destruct (is_open r0) eqn:Op; cbn [negb];
    [|left; repeat split; discriminate].
  destruct (truthy (r_dice_result r0)); [left; repeat split; discriminate|].
  destruct dv as [|d0 [|d1 [|d2 [|d3 dv]]]];
    try (left; repeat split; discriminate).
  apply dice_in_range in X. destruct X as [X0 [X1 X2]].
  fold (dice_text d0 d1 d2).
  destruct (settle_bets rid (dice_text d0 d1 d2) (now clk)
              (with_rounds s
                 (close_round rid (now clk) (dice_text d0 d1 d2)
                    (rounds s))))
    as [[s2 w]|] eqn:E; [|left; repeat split; discriminate].
  right. exists r0, d0, d1, d2, w.
  pose proof (settle_bets_rounds _ _ _ _ _ _ E) as [Rs _].
  apply settle_bets_form in E; [|exact N]. destruct E as [dn [M Bs]].
  rewrite (dice_text_parses d0 d1 d2 X0 X1 X2) in M. inversion M; subst dn.
  cbn [fst snd rounds bets settings with_rounds with_current] in *.
  repeat split; try assumption; try lia.
Qed.

Lemma settled_row_touched (c : settings_row) (dn : list Z) (rid : string)
  (rs : list round) (r0 : round) (b : bet) :
  find_round rid rs = Some r0 -> is_open r0 = true ->
  touched rs b (settled_row c dn rid b).
Proof.
  intros F Op. unfold settled_row, in_round.
  destruct (String.eqb (b_round_id b) rid) eqn:E; [|now left].
  unfold is_active. destruct (b_status b) eqn:St; cbn [andb]; [|now left].
  right. apply String.eqb_eq in E. split; [|split; [exact St|]].
  - exists r0. now rewrite E.
  - right. eauto.
Qed.

(** What a cancellation does to the bets: some active bets of the
    sender in the open round become cancelled. *)
Lemma cancel_bet_form (s : state) (tg : Z) (a : option string * clock) :
  NoDup (map b_id (bets s)) ->
  bets (fst (cancel_bet s tg a)) = bets s \/
  exists u rid r f,
    find_user_by_user_id tg (users s) = Some u /\
    find_round rid (rounds s) = Some r /\ is_open r = true /\
    bets (fst (cancel_bet s tg a)) = map f (bets s) /\
    forall b, In b (bets s) ->
              f b = b \/
              (f b = set_status_row b cancelled /\
               mine (u_id u) rid b = true).
Proof.
  intros N. destruct a as [reply_to_message clk]. unfold cancel_bet.
  destruct (find_user_by_user_id tg (users s)) as [u|]; [|now left].
  pose proof (get_active_round_frame s) as [_ [E2 [E3 _]]].
  destruct (get_active_round s) as [s1 [rid|]]; cbn [fst] in E2, E3;
    [|now left].
  destruct (find_round rid (rounds s1)) as [r|] eqn:F; [|now left].
  destruct (is_open r) eqn:Op; cbn [negb]; [|now left]. cbv zeta.
  rewrite E3 in F. rewrite E2.
  assert (K : forall bs entries total,
             (exists f, bs = map f (bets s) /\
                forall b, In b (bets s) ->
                          f b = b \/
                          (f b = set_status_row b cancelled /\
                           mine (u_id u) rid b = true)) ->
             bets (fst (if total >? 0
                        then (with_users
                                (with_logs (with_bets s1 bs)
                                   (balance_logs s1 ++ entries))
                                (add_balance (u_id u) total (users s1)),
                              Refunded total)
                        else (s1, NoneFound))) = bets s \/
             exists u' rid' r' f,
               Some u = Some u' /\
               find_round rid' (rounds s) = Some r' /\ is_open r' = true /\
               bets (fst (if total >? 0
                          then (with_users
                                  (with_logs (with_bets s1 bs)
                                     (balance_logs s1 ++ entries))
                                  (add_balance (u_id u) total (users s1)),
                                Refunded total)
                          else (s1, NoneFound))) = map f (bets s) /\
               forall b, In b (bets s) ->
                         f b = b \/
                         (f b = set_status_row b cancelled /\
                          mine (u_id u') rid' b = true)).
  { intros bs entries total [f [Eb Hf]]. destruct (total >? 0);
      [|now left].
    right. exists u, rid, r, f. repeat split; assumption. }
  destruct reply_to_message as [replied_text|].
  - destruct (parse_bet replied_text) as [bet_info|]; [|now left].
    pose proof (cancel_fold_found
                  (fun bs =>
                     NoDup (map b_id bs) /\
                     exists f, bs = map f (bets s) /\
                       forall b, In b (bets s) ->
                                 f b = b \/
                                 (f b = set_status_row b cancelled /\
                                  mine (u_id u) rid b = true))
                  (u_id u) rid (now clk) bet_info (bets s, [], 0)) as Q.
    cbn [fst] in Q.
    destruct (fold_left _ bet_info _) as [[bs entries] total].
    apply K. apply Q.
    + intros i rec bs0 Fr [N0 [f [Eb Hf]]]. split.
      { now rewrite cancel_by_id_ids. }
      apply find_bet_record_In in Fr.
      destruct Fr as [Hin [Ur [Rr [_ [_ [_ Sr]]]]]].
      exists (fun b => if b_id (f b) =? b_id rec
                       then set_status_row (f b) cancelled else f b).
      split.
      { rewrite Eb. unfold cancel_by_id. now rewrite map_map. }
      intros b Hb. destruct (b_id (f b) =? b_id rec) eqn:E;
        [|now apply Hf].
      apply Z.eqb_eq in E.
      assert (Hfb : In (f b) bs0) by (rewrite Eb; now apply in_map).
      pose proof (same_id_same_row bs0 (f b) rec N0 Hfb Hin E) as Same.
      destruct (Hf b Hb) as [Id | [C _]].
      * right. rewrite Id in *. subst rec. split; [reflexivity|].
        unfold mine, is_active. rewrite Ur, Rr, Sr, Z.eqb_refl,
          String.eqb_refl. reflexivity.
      * exfalso. rewrite C in Same. subst rec. discriminate Sr.
    + split; [exact N|]. exists (fun b => b). rewrite map_id.
      split; [reflexivity|]. intros b _. now left.
  - destruct (active_bets_of (u_id u) rid (bets s)) as [|b0 sel] eqn:S;
      [now left|].
    apply K. rewrite <- S, (cancel_all_form _ _ _ N).
    eexists. split; [reflexivity|].
    intros b _. cbv beta. destruct (mine (u_id u) rid b); auto.
Qed.

Lemma moves_frame (s s' : state) :
  bets s' = bets s -> rounds s' = rounds s -> moves s s'.
Proof.
  intros B R. unfold moves. rewrite B, R.
  split; [apply bets_move_refl | apply rounds_move_refl].
Qed.

Lemma create_new_round_moves (s : state) (clk : clock) :
  moves s (fst (create_new_round s clk)).
Proof.
  pose proof (create_new_round_frame s clk) as [_ [C2 _]].
  split; [rewrite C2; apply bets_move_refl|].
  destruct (create_new_round_rounds s clk) as [E | [_ [r [_ E]]]];
    rewrite E; [apply rounds_move_refl | apply rounds_move_app].
Qed.

Lemma place_bets_move (s : state) (u : user) (rid text : string)
  (clk : clock) (rs : list round) :
  bets_move rs (bets s) (bets (fst (place s u rid text clk))).
Proof.
  destruct (place_bets_cases s u rid text clk) as [E | [its [_ E]]];
    rewrite E; [apply bets_move_refl|].
  destruct (place_bets_shape (u_id u) rid (now clk) its (bets s))
    as [news [E' _]].
  rewrite E'. apply bets_move_app.
Qed.

Lemma step_moves (s : state) (e : event) : Inv s -> moves s (step s e).
Proof.
  intros [_ [[Nb _] [[_ Nr] _]]]. unfold step.
  pose proof (moves_frame s s eq_refl eq_refl) as O.
  destruct e; unfold handle.
  - unfold start. repeat case_match; exact O.
  - apply (admin_required_preserves (moves s)); [|exact O].
    intros _. unfold adjust_balance_body. repeat case_match; exact O.
  - apply (admin_required_preserves (moves s)); [|exact O].
    intros _. unfold deduct_by_username_body. repeat case_match; exact O.
  - apply (super_admin_required_preserves (moves s)); [|exact O].
    intros _. unfold clear_all_balances_body. repeat case_match; exact O.
  - apply (admin_required_preserves (moves s)); [|exact O].
    intros _. unfold open_betting_body. case_match; [exact O|].
    pose proof (get_active_round_frame (set_betting_status true s))
      as [_ [E2 [E3 _]]].
    destruct (get_active_round (set_betting_status true s)) as [s2 [rid|]];
      cbn [fst] in E2, E3; [now apply moves_frame|].
    pose proof (create_new_round_moves s2 clk) as M.
    unfold moves in M. rewrite E2, E3 in M.
    destruct (create_new_round s2 clk) as [s3 []]; exact M.
  - apply (admin_required_preserves (moves s)); [|exact O].
    unfold stop_betting_body. repeat case_match; intros; exact O.
  - unfold process_bet. case_match; [exact O|]. cbv zeta.
    case_match; [exact O|].
    destruct (find_user_by_user_id tg (users s)) as [u|]; [|exact O].
    pose proof (get_active_round_frame s) as [_ [E2 [E3 _]]].
    destruct (get_active_round s) as [s1 [rid|]]; cbn [fst] in E2, E3.
    + split.
      * rewrite <- E2. apply place_bets_move.
      * rewrite place_rounds, E3. apply rounds_move_refl.
    + pose proof (create_new_round_moves (with_current s None) clk)
        as [Mb Mr].
      pose proof (create_new_round_frame (with_current s None) clk)
        as [_ [C2 _]].
      destruct (create_new_round (with_current s None) clk)
        as [s2 [|rid|]]; cbn [fst] in *; try exact (conj Mb Mr).
      split.
      * change (bets (with_current s None)) with (bets s) in C2.
        rewrite <- C2. apply place_bets_move.
      * rewrite place_rounds. exact Mr.
  - unfold handle_dice.
    pose proof (get_active_round_frame s) as [_ [E2 [E3 _]]].
    destruct (get_active_round s) as [s1 [rid|]]; cbn [fst] in E2, E3;
      [|exact O].
    assert (O1 : moves s s1) by now apply moves_frame.
    assert (K : forall s2 dv,
               bets s2 = bets s -> rounds s2 = rounds s ->
               settings s2 = settings s2 ->
               moves s (fst (check_and_close s2 tg rid dv clk))).
    { intros s2 dv B2 R2 _.
      assert (N2 : NoDup (map b_id (bets s2))) by now rewrite B2.
      destruct (check_and_close_form s2 tg rid dv clk N2)
        as [[Er [Eb _]]
           | (r0 & d0 & d1 & d2 & w & F & Op & _ & _ & _ & _ & _ & Er & Eb)].
      - apply moves_frame; congruence.
      - rewrite R2 in *. rewrite B2 in *. split.
        + rewrite Eb. apply bets_move_map. intros b _.
          now apply (settled_row_touched _ _ _ _ r0).
        + rewrite Er. now apply (rounds_move_close _ _ _ _ r0). }
    destruct message as [v|matches]; cbv zeta; case_match;
      try exact O1; now apply K.
  - split.
    + destruct (cancel_bet_form s tg (reply_to_message, clk) Nb)
        as [E | [u [rid [r [f [_ [F [Op [E Hf]]]]]]]]]; rewrite E;
        [apply bets_move_refl|].
      apply bets_move_map. intros b Hb.
      destruct (Hf b Hb) as [Id | [C M]]; [left; exact Id|].
      right. unfold mine in M.
      apply andb_true_iff in M. destruct M as [M A].
      apply andb_true_iff in M. destruct M as [_ M].
      apply String.eqb_eq in M. split; [|split].
      * exists r. now rewrite M.
      * unfold is_active in A. destruct (b_status b);
          [reflexivity | discriminate].
      * now left.
    + rewrite cancel_bet_rounds. apply rounds_move_refl.
  - apply (admin_required_preserves (moves s)); [|exact O].
    unfold set_bet_limits_body. repeat case_match; intros; exact O.
  - apply (super_admin_required_preserves (moves s)); [|exact O].
    unfold set_odds_value_body. repeat case_match; intros; exact O.
  - apply (admin_required_preserves (moves s)); [|exact O].
    unfold set_allow_irrelevant_body. repeat case_match; intros; exact O.
  - apply (super_admin_required_preserves (moves s)); [|exact O].
    intros _. unfold change_admin_body. repeat case_match; exact O.
Qed.

Lemma run_app (s : state) (es es' : list event) :
  run s (es ++ es') = run (run s es) es'.
Proof. unfold run. apply fold_left_app. Qed.

Lemma run_keeps (P : state -> Prop) :
  (forall s e, Inv s -> lifecycle s -> P s -> P (step s e)) ->
  forall es s, Inv s -> lifecycle s -> P s -> P (run s es).
Proof.
  intros HP es. induction es as [|e es IH]; cbn [run fold_left];
    intros s I L H; [assumption|].
  apply IH; [now apply step_Inv | now apply step_lifecycle | now apply HP].
Qed.

Lemma touched_key (rs : list round) (b b' : bet) :
  touched rs b b' -> bet_key b' = bet_key b.
Proof.
  intros [-> | [_ [_ [-> | [res [p ->]]]]]]; reflexivity.
Qed.

Lemma step_bet_final (s : state) (e : event) (b : bet) :
  Inv s -> lifecycle s -> In b (bets s) ->
  b_status b = cancelled \/ b_result b <> None ->
  In b (bets (step s e)).
Proof.
  intros I [_ [B _]] Hb Fin.
  destruct (step_moves s e I) as [[f [news [E Hf]]] _].
  rewrite E. apply in_or_app. left.
  destruct (Hf b Hb) as [Id | [[r [F Op]] [St _]]].
  - rewrite <- Id. now apply in_map.
  - exfalso. destruct Fin as [C | R]; [congruence|].
    rewrite Forall_forall in B. specialize (B b Hb).
    unfold bet_shape in B. rewrite F, Op in B. now apply R.
Qed.

Lemma step_round_final (s : state) (e : event) (r : round) :
  Inv s -> In r (rounds s) -> is_open r = false ->
  In r (rounds (step s e)).
Proof.
  intros I Hr Cl.
  destruct (step_moves s e I) as [_ [g [news [E Hg]]]].
  rewrite E. apply in_or_app. left.
  destruct (Hg r Hr) as [Id | [Op _]]; [|congruence].
  rewrite <- Id. now apply in_map.
Qed.

Lemma step_bet_keys (s : state) (e : event) :
  Inv s ->
  exists news,
    map bet_key (bets (step s e)) = (map bet_key (bets s) ++ news)%list.
Proof.
  intros I. destruct (step_moves s e I) as [[f [news [E Hf]]] _].
  exists (map bet_key news). rewrite E, map_app, map_map. f_equal.
  apply map_ext_in. intros b Hb. apply (touched_key (rounds s)).
  now apply Hf.
Qed.

(** X10. A bet that is settled or cancelled is final: its row stays in
    the table, unchanged, whatever updates follow. *)
Theorem settled_or_cancelled_bet_is_final :
  forall (es es' : list event) (b : bet),
    In b (bets (run init es)) ->
    b_status b = cancelled \/ b_result b <> None ->
    In b (bets (run init (es ++ es'))).
Proof.
  intros es es' b Hb Fin. rewrite run_app.
  apply (run_keeps (fun s => In b (bets s))).
  - intros s e I L H. now apply step_bet_final.
  - apply run_Inv, init_Inv.
  - apply run_lifecycle; [apply init_Inv | apply init_lifecycle].
  - exact Hb.
Qed.

Lemma settled_or_cancelled_bet_is_final_witness :
  In big_bet_won (bets (run init (settled_scene ++ next_round_bet))).
Proof.
  apply (settled_or_cancelled_bet_is_final settled_scene next_round_bet
           big_bet_won).
  - vm_compute. left. reflexivity.
  - right. discriminate.
Defined.

(** X11. A closed round is final: its row, with its end time and dice
    result, stays in the table unchanged whatever updates follow. *)
Theorem closed_round_is_final :
  forall (es es' : list event) (r : round),
    In r (rounds (run init es)) -> is_open r = false ->
    In r (rounds (run init (es ++ es'))).
Proof.
  intros es es' r Hr Cl. rewrite run_app.
  apply (run_keeps (fun s => In r (rounds s))).
  - intros s e I _ H. now apply step_round_final.
  - apply run_Inv, init_Inv.
  - apply run_lifecycle; [apply init_Inv | apply init_lifecycle].
  - exact Hr.
Qed.

Lemma closed_round_is_final_witness :
  In round_one_closed (rounds (run init (settled_scene ++ next_round_bet))).
Proof.
  apply (closed_round_is_final settled_scene next_round_bet
           round_one_closed).
  - vm_compute. left. reflexivity.
  - reflexivity.
Defined.

(** X12. The bets table is append-only: no update deletes or reorders
    a bet, and the id, owner, round, type, value, stake and time of a
    bet never change. *)
Theorem bets_table_append_only :
  forall es es' : list event,
    exists news,
      map bet_key (bets (run init (es ++ es')))
      = (map bet_key (bets (run init es)) ++ news)%list.
Proof.
  intros es es'. rewrite run_app.
  assert (I : Inv (run init es)) by apply run_Inv, init_Inv.
  revert I. generalize (run init es). clear es.
  induction es' as [|e es' IH]; intros s I; cbn [run fold_left].
  - exists []. now rewrite app_nil_r.
  - destruct (step_bet_keys s e I) as [n1 E1].
    destruct (IH (step s e) (step_Inv _ _ I)) as [n2 E2].
    exists (n1 ++ n2)%list. unfold run in E2. rewrite E2, E1.
    now rewrite app_assoc.
Qed.

(** ** The roll buffer *)

Lemma place_dice (s : state) (u : user) (rid text : string) (clk : clock) :
  dice_sequence (fst (place s u rid text clk)) = dice_sequence s.
Proof. unfold place. cbv zeta. repeat case_match; reflexivity. Qed.

Lemma check_and_close_dice (s : state) (tg : Z) (rid : string)
  (dv : list Z) (clk : clock) :
  dice_sequence (fst (check_and_close s tg rid dv clk)) = dice_sequence s.
Proof.
  unfold check_and_close, close_and_settle.
  repeat (case_match; try reflexivity).
  match goal with
  | H : settle_bets _ _ _ _ = Some _ |- _ =>
      apply settle_bets_rounds in H; destruct H as [_ [_ [_ H]]]
  end.
  cbn in *. congruence.
Qed.

Lemma cancel_bet_dice (s : state) (tg : Z) (a : option string * clock) :
  dice_sequence (fst (cancel_bet s tg a)) = dice_sequence s.
Proof.
  destruct a as [reply_to_message clk]. unfold cancel_bet.
  destruct (find_user_by_user_id tg (users s)) as [u|]; [|reflexivity].
  pose proof (get_active_round_frame s) as [_ [_ [_ [_ [_ E]]]]].
  destruct (get_active_round s) as [s1 [rid|]]; cbn [fst] in E;
    [|reflexivity].
  rewrite <- E. cbv zeta.
  repeat (case_match; try reflexivity).
Qed.

Lemma del_sequence_ok (tg : Z) (d : list (Z * list Z)) :
  buffer_ok d -> buffer_ok (del_sequence tg d).
Proof.
  unfold buffer_ok, del_sequence. rewrite !Forall_forall.
  intros H e He. apply filter_In in He. now apply H.
Qed.

Lemma get_sequence_ok (tg : Z) (d : list (Z * list Z)) (l : list Z) :
  buffer_ok d -> get_sequence tg d = Some l ->
  (1 <= List.length l <= 2)%nat.
Proof.
  unfold buffer_ok, get_sequence. rewrite Forall_forall. intros H G.
  destruct (find (fun e => fst e =? tg) d) as [e|] eqn:F; [|discriminate].
  inversion G; subst. apply find_some in F. now apply H.
Qed.

Lemma step_buffer_ok (s : state) (e : event) :
  buffer_ok (dice_sequence s) -> buffer_ok (dice_sequence (step s e)).
Proof.
  intros O. unfold step. destruct e; unfold handle.
  - unfold start. repeat case_match; exact O.
  - apply (admin_required_preserves (fun s => buffer_ok (dice_sequence s)));
      [|exact O].
    intros _. unfold adjust_balance_body. repeat case_match; exact O.
  - apply (admin_required_preserves (fun s => buffer_ok (dice_sequence s)));
      [|exact O].
    intros _. unfold deduct_by_username_body. repeat case_match; exact O.
  - apply (super_admin_required_preserves
             (fun s => buffer_ok (dice_sequence s))); [|exact O].
    intros _. unfold clear_all_balances_body. repeat case_match; exact O.
  - apply (admin_required_preserves (fun s => buffer_ok (dice_sequence s)));
      [|exact O].
    intros _. unfold open_betting_body. case_match; [exact O|].
    pose proof (get_active_round_frame (set_betting_status true s))
      as [_ [_ [_ [_ [_ E]]]]].
    destruct (get_active_round (set_betting_status true s)) as [s2 [rid|]];
      cbn [fst] in E; cbn [fst]; [now rewrite E|].
    pose proof (create_new_round_frame s2 clk) as [_ [_ [_ [_ C]]]].
    destruct (create_new_round s2 clk) as [s3 []]; cbn [fst] in *;
      now rewrite C, E.
  - apply (admin_required_preserves (fun s => buffer_ok (dice_sequence s)));
      [|exact O].
    unfold stop_betting_body. repeat case_match; intros; exact O.
  - unfold process_bet. case_match; [exact O|]. cbv zeta.
    case_match; [exact O|].
    destruct (find_user_by_user_id tg (users s)) as [u|]; [|exact O].
    pose proof (get_active_round_frame s) as [_ [_ [_ [_ [_ E]]]]].
    destruct (get_active_round s) as [s1 [rid|]]; cbn [fst] in E.
    + now rewrite place_dice, E.
    + pose proof (create_new_round_frame (with_current s None) clk)
        as [_ [_ [_ [_ C]]]].
      destruct (create_new_round (with_current s None) clk)
        as [s2 [|rid|]]; cbn [fst] in *; rewrite ?place_dice, C; exact O.
  - unfold handle_dice.
    pose proof (get_active_round_frame s) as [_ [_ [_ [_ [_ E]]]]].
    destruct (get_active_round s) as [s1 [rid|]]; cbn [fst] in E;
      [|exact O].
    rewrite <- E in O.
    destruct message as [v|matches]; cbv zeta.
    + destruct (get_sequence tg (dice_sequence s1)) as [l|] eqn:G.
      * pose proof (get_sequence_ok _ _ _ O G) as [L1 L2].
        destruct (Nat.eqb (List.length (l ++ [v])) 3) eqn:T.
        -- rewrite check_and_close_dice. now apply del_sequence_ok.
        -- cbn [fst dice_sequence with_dice]. unfold set_sequence.
           constructor; [|now apply del_sequence_ok].
           cbn [snd]. apply Nat.eqb_neq in T.
           rewrite length_app in *. cbn [List.length] in *. lia.
      * cbn [app List.length Nat.eqb fst dice_sequence with_dice].
        unfold set_sequence. constructor; [|now apply del_sequence_ok].
        cbn. lia.
    + case_match; [|exact O]. now rewrite check_and_close_dice.
  - now rewrite cancel_bet_dice.
  - apply (admin_required_preserves (fun s => buffer_ok (dice_sequence s)));
      [|exact O].
    unfold set_bet_limits_body. repeat case_match; intros; exact O.
  - apply (super_admin_required_preserves
             (fun s => buffer_ok (dice_sequence s))); [|exact O].
    unfold set_odds_value_body. repeat case_match; intros; exact O.
  - apply (admin_required_preserves (fun s => buffer_ok (dice_sequence s)));
      [|exact O].
    unfold set_allow_irrelevant_body. repeat case_match; intros; exact O.
  - apply (super_admin_required_preserves
             (fun s => buffer_ok (dice_sequence s))); [|exact O].
    intros _. unfold change_admin_body. repeat case_match; exact O.
Qed.

Lemma run_buffer_ok (es : list event) (s : state) :
  buffer_ok (dice_sequence s) -> buffer_ok (dice_sequence (run s es)).
Proof.
  revert s. induction es as [|e es IH]; cbn [run fold_left]; intros s O;
    [exact O|].
  apply IH. now apply step_buffer_ok.
Qed.

(** X13. The roll buffer of a user never holds more than two values:
    the third built-in dice always empties it, whether or not the round
    is settled. *)
Theorem roll_buffer_bounded :
  forall (es : list event) (tg : Z) (l : list Z),
    get_sequence tg (dice_sequence (run init es)) = Some l ->
    List.length l = 1%nat \/ List.length l = 2%nat.
Proof.
  intros es tg l G.
  assert (O : buffer_ok (dice_sequence (run init es))).
  { apply run_buffer_ok. constructor. }
  pose proof (get_sequence_ok _ _ _ O G). lia.
Qed.

Lemma roll_buffer_bounded_witness :
  List.length [3; 4] = 1%nat \/ List.length [3; 4] = 2%nat.
Proof.
  apply (roll_buffer_bounded two_dice_in 200 [3; 4]). reflexivity.
Defined.

(** X14. In a text message only the random dice counts: when one of
    the three matched characters is anything else, its value is 0, the
    roll is refused and no table, setting or buffer changes. *)
Theorem other_dice_characters_rejected :
  forall (s : state) (tg : Z) (matches : list (option Z)) (clk : clock),
    In None matches ->
    let out := handle_dice s tg (EmojiText matches, clk) in
    same_database s (fst out) /\
    dice_sequence (fst out) = dice_sequence s /\
    (snd out = NoActiveRound \/ snd out = NeedThreeEmojis \/
     snd out = InvalidDice).
Proof.
  intros s tg matches clk H. cbv zeta. unfold handle_dice, same_database.
  pose proof (get_active_round_frame s) as [E1 [E2 [E3 [E4 [E5 E6]]]]].
  destruct (get_active_round s) as [s1 [rid|]]; cbn [fst] in *;
    [|cbn [fst snd]; auto 10].
  destruct (Nat.eqb (List.length matches) 3) eqn:T;
    [|cbn [fst snd]; auto 10].
  unfold check_and_close. rewrite length_map, T. cbn [negb].
  assert (X : existsb (fun v => (v <? 1) || (v >? 6))
                (map emoji_value matches) = true).
  { apply existsb_exists. exists 0. split; [|reflexivity].
    apply in_map_iff. exists None. split; [reflexivity | exact H]. }
  rewrite X. cbn [fst snd]. auto 10.
Qed.

Lemma other_dice_characters_rejected_witness :
  same_database (run init one_big_bet)
    (fst (handle_dice (run init one_big_bet) 200 (keycap_text, noon))) /\
  dice_sequence
    (fst (handle_dice (run init one_big_bet) 200 (keycap_text, noon)))
  = dice_sequence (run init one_big_bet) /\
  (snd (handle_dice (run init one_big_bet) 200 (keycap_text, noon))
   = NoActiveRound \/
   snd (handle_dice (run init one_big_bet) 200 (keycap_text, noon))
   = NeedThreeEmojis \/
   snd (handle_dice (run init one_big_bet) 200 (keycap_text, noon))
   = InvalidDice).
Proof.
  apply (other_dice_characters_rejected (run init one_big_bet) 200
           [Some 3; None; Some 4] noon).
  right. left. reflexivity.
Defined.

Lemma del_sequence_set (tg : Z) (v : list Z) (d : list (Z * list Z)) :
  del_sequence tg (set_sequence tg v d) = del_sequence tg d.
Proof.
  unfold set_sequence, del_sequence. cbn [filter fst].
  rewrite Z.eqb_refl. cbn [negb].
  induction d as [|e d IH]; cbn [filter]; [reflexivity|].
  destruct (negb (fst e =? tg)) eqn:K; cbn [filter]; rewrite ?K, IH;
    reflexivity.
Qed.

Lemma set_sequence_set (tg : Z) (v w : list Z) (d : list (Z * list Z)) :
  set_sequence tg v (set_sequence tg w d) = set_sequence tg v d.
Proof.
  unfold set_sequence at 1. rewrite del_sequence_set. reflexivity.
Qed.

Lemma get_sequence_set (tg : Z) (v : list Z) (d : list (Z * list Z)) :
  get_sequence tg (set_sequence tg v d) = Some v.
Proof.
  unfold get_sequence, set_sequence. cbn [find fst].
  now rewrite Z.eqb_refl.
Qed.

(** X15. Three built-in dice sent by one user while a round is open
    compose into one closing: the first two only fill the user's buffer,
    and the third closes and settles the round on the three values and
    empties the buffer. *)
Theorem three_builtin_rolls_compose :
  forall (s s1 : state) (rid : string) (tg v1 v2 v3 : Z)
         (c1 c2 c3 : clock),
    get_active_round s = (s1, Some rid) ->
    get_sequence tg (dice_sequence s) = None ->
    handle_dice
      (step (step s (HandleDice tg (BuiltinDice v1) c1))
         (HandleDice tg (BuiltinDice v2) c2))
      tg (BuiltinDice v3, c3)
    = check_and_close (with_dice s1 (del_sequence tg (dice_sequence s)))
        tg rid [v1; v2; v3] c3.
Proof.
  intros s s1 rid tg v1 v2 v3 c1 c2 c3 G N.
  unfold get_active_round in G.
  destruct (latest_open None (rounds s)) as [r|] eqn:L; [|discriminate].
  inversion G; subst s1 rid. clear G.
  unfold step, handle.
  assert (A : handle_dice s tg (BuiltinDice v1, c1)
              = (with_dice (with_current s (Some (r_id r)))
                   (set_sequence tg [v1] (dice_sequence s)),
                 NeedMoreDice)).
  { unfold handle_dice, get_active_round. rewrite L.
    cbn [dice_sequence with_current]. rewrite N. reflexivity. }
  rewrite A. cbn [fst].
  assert (B : handle_dice
                (with_dice (with_current s (Some (r_id r)))
                   (set_sequence tg [v1] (dice_sequence s)))
                tg (BuiltinDice v2, c2)
              = (with_dice (with_current s (Some (r_id r)))
                   (set_sequence tg [v1; v2] (dice_sequence s)),
                 NeedMoreDice)).
  { unfold handle_dice, get_active_round.
    cbn [rounds dice_sequence with_current with_dice]. rewrite L.
    cbn [rounds dice_sequence with_current with_dice].
    rewrite get_sequence_set. cbn [app List.length Nat.eqb].
    rewrite set_sequence_set. reflexivity. }
  rewrite B. cbn [fst].
  unfold handle_dice, get_active_round.
  cbn [rounds dice_sequence with_current with_dice]. rewrite L.
  cbn [rounds dice_sequence with_current with_dice].
  rewrite get_sequence_set. cbn [app List.length Nat.eqb].
  rewrite del_sequence_set. reflexivity.
Qed.

Lemma three_builtin_rolls_compose_witness :
  handle_dice
    (step (step (run init one_big_bet) (HandleDice 200 (BuiltinDice 3) noon))
       (HandleDice 200 (BuiltinDice 4) noon))
    200 (BuiltinDice 5, noon)
  = check_and_close
      (with_dice (with_current (run init one_big_bet) (Some "20260101001"))
         (del_sequence 200 (dice_sequence (run init one_big_bet))))
      200 "20260101001" [3; 4; 5] noon.
Proof.
  apply (three_builtin_rolls_compose (run init one_big_bet)
           (with_current (run init one_big_bet) (Some "20260101001"))
           "20260101001" 200 3 4 5 noon noon noon); reflexivity.
Defined.

(** ** The users table and the roles *)

Lemma max_seq (n : nat) :
  fold_right Z.max 0 (map Z.of_nat (seq 1 n)) = Z.of_nat n.
Proof.
  induction n as [|n IH]; [reflexivity|].
  rewrite seq_S, map_app, fold_right_app. cbn [map fold_right Nat.add].
  change (1 + n)%nat with (S n).
  assert (K : forall l a, 0 <= a ->
              (forall x, In x l -> x <= a) ->
              fold_right Z.max a l = a).
  { induction l as [|y l IHl]; intros a Ha H; cbn [fold_right];
      [reflexivity|].
    rewrite IHl; [|assumption | intros x Hx; apply H; now right].
    apply Z.max_r. apply H. now left. }
  apply K; [lia|].
  intros x Hx. apply in_map_iff in Hx. destruct Hx as [k [<- Hk]].
  apply in_seq in Hk. lia.
Qed.

Lemma users_wf_map (f : user -> user) (us : list user) :
  keeps_identity f -> users_wf us -> users_wf (map f us).
Proof.
  intros Hf [N [I S]]. split; [|split].
  - rewrite map_map. rewrite (map_ext _ u_user_id); [exact N|].
    intros u. apply Hf.
  - rewrite map_map, length_map. rewrite (map_ext _ u_id); [exact I|].
    intros u. apply Hf.
  - intros u' Hu'. apply in_map_iff in Hu'. destruct Hu' as [x [<- Hx]].
    destruct (Hf x) as [_ [E1 E2]]. rewrite E1, E2. now apply S.
Qed.

Lemma users_wf_set_balance (uid nb : Z) (us : list user) :
  users_wf us -> users_wf (set_balance uid nb us).
Proof.
  apply users_wf_map. intros u. destruct (u_id u =? uid); auto.
Qed.

Lemma users_wf_add_balance (uid d : Z) (us : list user) :
  users_wf us -> users_wf (add_balance uid d us).
Proof.
  apply users_wf_map. intros u. destruct (u_id u =? uid); auto.
Qed.

Lemma settle_step_users (P : list user -> Prop) c dn t s w b s' w' :
  (forall uid nb us, P us -> P (set_balance uid nb us)) ->
  P (users s) ->
  settle_step c dn t (Some (s, w)) b = Some (s', w') -> P (users s').
Proof.
  intros HP P0 H. unfold settle_step in H.
  destruct (settle_one c dn b) as [result p]. destruct result.
  - destruct (p >? 0).
    + simpl in H.
      destruct (find_user_by_id (b_user_id b) (users s)); [|discriminate].
      inversion H; subst. simpl. now apply HP.
    + inversion H; subst. exact P0.
  - inversion H; subst. exact P0.
Qed.

Lemma settle_bets_users_keep (P : list user -> Prop) rid d t s s' w :
  (forall uid nb us, P us -> P (set_balance uid nb us)) ->
  P (users s) -> settle_bets rid d t s = Some (s', w) -> P (users s').
Proof.
  intros HP P0. unfold settle_bets. destruct (map_int _) as [dn|];
    [|discriminate].
  assert (K : forall sel s0 w0,
             P (users s0) ->
             fold_left (settle_step (settings s) dn t) sel (Some (s0, w0))
             = Some (s', w) -> P (users s')).
  { induction sel as [|b sel IH]; intros s0 w0 Q H; cbn [fold_left] in H.
    - inversion H; subst. exact Q.
    - destruct (settle_step (settings s) dn t (Some (s0, w0)) b)
        as [[s1 w1]|] eqn:E.
      + apply (IH s1 w1); [|exact H].
        now apply (settle_step_users P _ _ _ _ _ _ _ _ HP Q E).
      + rewrite settle_fold_None in H. discriminate. }
  destruct (active_bets_in rid (bets s)).
  - intros H. inversion H; subst. exact P0.
  - intros H. now apply K in H.
Qed.

Lemma place_users (s : state) (u : user) (rid text : string) (clk : clock) :
  users (fst (place s u rid text clk)) = users s \/
  exists nb, users (fst (place s u rid text clk))
             = set_balance (u_id u) nb (users s).
Proof.
  unfold place. cbv zeta. repeat case_match; try (now left).
  right. eexists. reflexivity.
Qed.

Lemma start_users_wf (s : state) (tg : Z) (a : option string * Z * clock) :
  users_wf (users s) -> users_wf (users (fst (start s tg a))).
Proof.
  intros [N [I Su]]. destruct a as [[username chat_id] clk]. unfold start.
  destruct (find_user_by_user_id tg (users s)) eqn:F;
    [exact (conj N (conj I Su))|].
  cbv zeta. cbn [fst users with_users].
  assert (Fresh : ~ In tg (map u_user_id (users s))).
  { intros H. apply in_map_iff in H. destruct H as [x [E Hx]].
    unfold find_user_by_user_id in F.
    apply (find_none _ _ F) in Hx. rewrite E, Z.eqb_refl in Hx.
    discriminate. }
  assert (Id : next_rowid (map u_id (users s))
               = Z.of_nat (S (List.length (users s)))).
  { unfold next_rowid. rewrite I, max_seq. lia. }
  rewrite Id.
  destruct (users s) as [|u0 us] eqn:U.
  - cbn. rewrite Z.eqb_refl. split; [|split].
    + constructor; [intros []|constructor].
    + reflexivity.
    + intros x [<- | []]. cbn. tauto.
  - rewrite <- U in *.
    assert (L : (List.length (users s) >= 1)%nat) by (rewrite U; cbn; lia).
    assert (C : (Z.of_nat (List.length
                             (users s ++
                              [mk_user (Z.of_nat (S (List.length (users s))))
                                 tg username chat_id 0 (now clk) false
                                 false])) =? 1) = false).
    { rewrite length_app. cbn [List.length]. apply Z.eqb_neq. lia. }
    rewrite C. split; [|split].
    + rewrite map_app. cbn [map u_user_id].
      apply NoDup_snoc; assumption.
    + rewrite map_app, length_app. cbn [map u_id List.length].
      rewrite Nat.add_1_r, seq_S, map_app, I. reflexivity.
    + intros x Hx. apply in_app_or in Hx. destruct Hx as [Hx | [<- | []]].
      * now apply Su.
      * cbn [u_id u_is_super_admin]. split; [discriminate | lia].
Qed.

Lemma step_users_wf (s : state) (e : event) :
  users_wf (users s) -> users_wf (users (step s e)).
Proof.
  intros O. unfold step. destruct e; unfold handle.
  - now apply start_users_wf.
  - apply (admin_required_preserves (fun s => users_wf (users s)));
      [|exact O].
    intros _. unfold adjust_balance_body.
    repeat case_match; try exact O; now apply users_wf_set_balance.
  - apply (admin_required_preserves (fun s => users_wf (users s)));
      [|exact O].
    intros _. unfold deduct_by_username_body.
    repeat case_match; try exact O; now apply users_wf_set_balance.
  - apply (super_admin_required_preserves (fun s => users_wf (users s)));
      [|exact O].
    intros _. unfold clear_all_balances_body.
    repeat case_match; try exact O;
      (apply users_wf_map; [|exact O]); intros v; auto.
  - apply (admin_required_preserves (fun s => users_wf (users s)));
      [|exact O].
    intros _. unfold open_betting_body. case_match; [exact O|].
    pose proof (get_active_round_frame (set_betting_status true s))
      as [E _].
    destruct (get_active_round (set_betting_status true s)) as [s2 [rid|]];
      cbn [fst] in E; cbn [fst]; [now rewrite E|].
    pose proof (create_new_round_frame s2 clk) as [C _].
    destruct (create_new_round s2 clk) as [s3 []]; cbn [fst] in *;
      now rewrite C, E.
  - apply (admin_required_preserves (fun s => users_wf (users s)));
      [|exact O].
    unfold stop_betting_body. repeat case_match; intros; exact O.
  - unfold process_bet. case_match; [exact O|]. cbv zeta.
    case_match; [exact O|].
    destruct (find_user_by_user_id tg (users s)) as [u|]; [|exact O].
    pose proof (get_active_round_frame s) as [E _].
    assert (K : forall s2 rid, users s2 = users s ->
                users_wf (users (fst (place s2 u rid (strip text) clk)))).
    { intros s2 rid E2.
      destruct (place_users s2 u rid (strip text) clk) as [P | [nb P]];
        rewrite P, E2; [exact O | now apply users_wf_set_balance]. }
    destruct (get_active_round s) as [s1 [rid|]]; cbn [fst] in E.
    + now apply K.
    + pose proof (create_new_round_frame (with_current s None) clk)
        as [C _].
      destruct (create_new_round (with_current s None) clk)
        as [s2 [|rid|]]; cbn [fst] in *; try (rewrite C; exact O).
      now apply K.
  - unfold handle_dice.
    pose proof (get_active_round_frame s) as [E _].
    destruct (get_active_round s) as [s1 [rid|]]; cbn [fst] in E;
      [|exact O].
    rewrite <- E in O.
    assert (K : forall s2 dv,
               users_wf (users s2) ->
               users_wf (users (fst (check_and_close s2 tg rid dv clk)))).
    { intros s2 dv O2. unfold check_and_close, close_and_settle.
      repeat (case_match; try exact O2).
      match goal with
      | H : settle_bets _ _ _ _ = Some _ |- _ =>
          apply (settle_bets_users_keep users_wf) in H;
          [exact H | intros; now apply users_wf_set_balance | exact O2]
      end. }
    destruct message as [v|matches]; cbv zeta; case_match;
      try exact O; now apply K.
  - unfold cancel_bet.
    destruct (find_user_by_user_id tg (users s)) as [u|]; [|exact O].
    pose proof (get_active_round_frame s) as [E _].
    destruct (get_active_round s) as [s1 [rid|]]; cbn [fst] in E;
      [|exact O].
    rewrite <- E in O. cbv zeta.
    repeat (case_match; try exact O);
      cbn [fst users with_users]; now apply users_wf_add_balance.
  - apply (admin_required_preserves (fun s => users_wf (users s)));
      [|exact O].
    unfold set_bet_limits_body. repeat case_match; intros; exact O.
  - apply (super_admin_required_preserves (fun s => users_wf (users s)));
      [|exact O].
    unfold set_odds_value_body. repeat case_match; intros; exact O.
  - apply (admin_required_preserves (fun s => users_wf (users s)));
      [|exact O].
    unfold set_allow_irrelevant_body. repeat case_match; intros; exact O.
  - apply (super_admin_required_preserves (fun s => users_wf (users s)));
      [|exact O].
    intros _. unfold change_admin_body. repeat case_match; try exact O;
      (apply users_wf_map; [|exact O]);
      intros v; destruct (u_id v =? target); auto.
Qed.

Lemma run_users_wf (es : list event) (s : state) :
  users_wf (users s) -> users_wf (users (run s es)).
Proof.
  revert s. induction es as [|e es IH]; cbn [run fold_left]; intros s O;
    [exact O|].
  apply IH. now apply step_users_wf.
Qed.

Lemma init_users_wf : users_wf (users init).
Proof.
  split; [constructor | split; [reflexivity | intros u []]].
Qed.

(** X16. No two rows of [users] share a Telegram id, and the row ids
    count up from 1 in registration order: users are never deleted or
    renumbered. *)
Theorem users_registered_once :
  forall es : list event,
    NoDup (map u_user_id (users (run init es))) /\
    map u_id (users (run init es))
    = map Z.of_nat (seq 1 (List.length (users (run init es)))).
Proof.
  intros es. destruct (run_users_wf es init init_users_wf) as [N [I _]].
  auto.
Qed.

(** X17. The first registered user, and nobody else, is super admin:
    no update grants or revokes the flag afterwards. *)
Theorem only_first_user_is_super_admin :
  forall (es : list event) (u : user),
    In u (users (run init es)) ->
    (u_is_super_admin u = true <-> u_id u = 1).
Proof.
  intros es u Hu. destruct (run_users_wf es init init_users_wf) as [_ [_ S]].
  now apply S.
Qed.

Lemma only_first_user_is_super_admin_witness :
  u_is_super_admin bob_row = true <-> u_id bob_row = 1.
Proof.
  apply (only_first_user_is_super_admin with_bets_placed bob_row).
  vm_compute. right. left. reflexivity.
Defined.

(** X18. Commands behind a permission check do nothing for a sender
    without the role: an unregistered sender or one who is neither admin
    nor super admin cannot adjust balances, deduct, open or stop betting
    or change limits, and only a super admin can clear balances, set
    odds or change administrators. *)
Theorem commands_need_their_role :
  forall (s : state) (e : event) (tg : Z),
    (admin_command e = Some tg /\
     forall u, find_user_by_user_id tg (users s) = Some u ->
               u_is_admin u = false /\ u_is_super_admin u = false) \/
    (super_admin_command e = Some tg /\
     forall u, find_user_by_user_id tg (users s) = Some u ->
               u_is_super_admin u = false) ->
    handle s e = (s, NoPermission).
Proof.
  intros s e tg [[C H] | [C H]].
  - destruct e; try discriminate C; inversion C; subst; unfold handle;
      match goal with
      | |- ?h _ _ _ = _ => unfold h
      end; unfold admin_required;
      (destruct (find_user_by_user_id tg (users s)) as [u|];
       [destruct (H u eq_refl) as [-> ->] |]; reflexivity).
  - destruct e; try discriminate C; inversion C; subst; unfold handle;
      match goal with
      | |- ?h _ _ _ = _ => unfold h
      end; unfold super_admin_required;
      (destruct (find_user_by_user_id tg (users s)) as [u|];
       [rewrite (H u eq_refl) |]; reflexivity).
Qed.

Lemma commands_need_their_role_witness :
  handle (run init three_users) (ClearAllBalances 300 ["confirm"] noon)
  = (run init three_users, NoPermission).
Proof.
  apply (commands_need_their_role (run init three_users)
           (ClearAllBalances 300 ["confirm"] noon) 300).
  right. split; [reflexivity|].
  intros u H. vm_compute in H. inversion H. reflexivity.
Defined.

(** ** What a settlement pays *)

Lemma settle_step_logs c dn t s w b s' w' :
  settle_step c dn t (Some (s, w)) b = Some (s', w') ->
  balance_logs s' = (balance_logs s ++ payout_entries c dn t [b])%list /\
  w' = w || is_win (fst (settle_one c dn b)).
Proof.
  unfold settle_step, payout_entries. cbn [flat_map].
  destruct (settle_one c dn b) as [result p]. cbn [fst].
  intros H. destruct result.
  - destruct (p >? 0).
    + simpl in H.
      destruct (find_user_by_id (b_user_id b) (users s)); [|discriminate].
      inversion H; subst. simpl. rewrite orb_true_r. auto.
    + inversion H; subst. simpl. rewrite orb_true_r, app_nil_r. auto.
  - inversion H; subst. simpl. rewrite orb_false_r, app_nil_r. auto.
Qed.

Lemma payout_entries_cons c dn t b sel :
  payout_entries c dn t (b :: sel)
  = (payout_entries c dn t [b] ++ payout_entries c dn t sel)%list.
Proof.
  unfold payout_entries. cbn [flat_map]. now rewrite app_nil_r.
Qed.

Lemma settle_fold_logs c dn t sel s w s' w' :
  fold_left (settle_step c dn t) sel (Some (s, w)) = Some (s', w') ->
  balance_logs s' = (balance_logs s ++ payout_entries c dn t sel)%list /\
  w' = w || existsb (fun b => is_win (fst (settle_one c dn b))) sel.
Proof.
  revert s w. induction sel as [|b sel IH]; intros s w H;
    cbn [fold_left] in H.
  - inversion H; subst. cbn. rewrite app_nil_r, orb_false_r. auto.
  - destruct (settle_step c dn t (Some (s, w)) b) as [[s1 w1]|] eqn:E.
    + apply settle_step_logs in E. destruct E as [E1 E2].
      destruct (IH s1 w1 H) as [I1 I2].
      rewrite I1, E1, I2, E2, (payout_entries_cons c dn t b sel),
        <- app_assoc.
      cbn [existsb]. split; [reflexivity|]. now rewrite <- orb_assoc.
    + rewrite settle_fold_None in H. discriminate.
Qed.

Lemma settle_bets_logs rid d t s s' w dn :
  map_int (split_comma d) = Some dn ->
  settle_bets rid d t s = Some (s', w) ->
  balance_logs s'
  = (balance_logs s
     ++ payout_entries (settings s) dn t (active_bets_in rid (bets s)))%list
  /\
  w = existsb (fun b => is_win (fst (settle_one (settings s) dn b)))
        (active_bets_in rid (bets s)).
Proof.
  intros M. unfold settle_bets. rewrite M.
  destruct (active_bets_in rid (bets s)) as [|b0 sel].
  - intros H. inversion H; subst. cbn. now rewrite app_nil_r.
  - intros H. apply settle_fold_logs in H. exact H.
Qed.

(** The outcome of [handle_dice] when it announces a settlement. *)
Lemma handle_dice_outcome (s : state) (tg : Z) (m : dice_message)
  (clk : clock) (w : bool) :
  NoDup (map b_id (bets s)) ->
  snd (handle_dice s tg (m, clk)) = Settled w ->
  exists rid r0 d0 d1 d2,
    snd (get_active_round s) = Some rid /\
    find_round rid (rounds s) = Some r0 /\ is_open r0 = true /\
    dice_values_of s tg m = [d0; d1; d2] /\
    1 <= d0 <= 6 /\ 1 <= d1 <= 6 /\ 1 <= d2 <= 6 /\
    let s' := fst (handle_dice s tg (m, clk)) in
    let sel := active_bets_in rid (bets s) in
    rounds s' = close_round rid (now clk) (dice_text d0 d1 d2) (rounds s) /\
    bets s' = map (settled_row (settings s) [d0; d1; d2] rid) (bets s) /\
    balance_logs s'
    = (balance_logs s
       ++ payout_entries (settings s) [d0; d1; d2] (now clk) sel)%list /\
    w = existsb
          (fun b => is_win (fst (settle_one (settings s) [d0; d1; d2] b)))
          sel.
Proof.
  intros N. unfold handle_dice, dice_values_of.
  pose proof (get_active_round_frame s) as [_ [E2 [E3 [E4 [E5 E6]]]]].
  destruct (get_active_round s) as [s1 [rid|]]; cbn [fst snd] in *;
    [|discriminate].
  rewrite <- E2, <- E3, <- E4, <- E5, <- E6. rewrite <- E2 in N.
  assert (K : forall s2 dv,
             bets s2 = bets s1 -> rounds s2 = rounds s1 ->
             settings s2 = settings s1 ->
             balance_logs s2 = balance_logs s1 ->
             snd (check_and_close s2 tg rid dv clk) = Settled w ->
             exists rid' r0 d0 d1 d2,
               Some rid = Some rid' /\
               find_round rid' (rounds s1) = Some r0 /\ is_open r0 = true /\
               dv = [d0; d1; d2] /\
               1 <= d0 <= 6 /\ 1 <= d1 <= 6 /\ 1 <= d2 <= 6 /\
               rounds (fst (check_and_close s2 tg rid dv clk))
               = close_round rid' (now clk) (dice_text d0 d1 d2)
                   (rounds s1) /\
               bets (fst (check_and_close s2 tg rid dv clk))
               = map (settled_row (settings s1) [d0; d1; d2] rid')
                   (bets s1) /\
               balance_logs (fst (check_and_close s2 tg rid dv clk))
               = (balance_logs s1
                  ++ payout_entries (settings s1) [d0; d1; d2] (now clk)
                       (active_bets_in rid' (bets s1)))%list /\
               w = existsb
                     (fun b =>
                        is_win
                          (fst (settle_one (settings s1) [d0; d1; d2] b)))
                     (active_bets_in rid' (bets s1))).
  { intros s2 dv B2 R2 S2 L2 H.
    assert (N2 : NoDup (map b_id (bets s2))) by now rewrite B2.
    destruct (check_and_close_form s2 tg rid dv clk N2)
      as [[_ [_ Ne]]
         | (r0 & d0 & d1 & d2 & w2 & F & Op & Dv & X0 & X1 & X2 & Sw & Er
            & Eb)].
    { exfalso. now apply (Ne w). }
    exists rid, r0, d0, d1, d2. rewrite <- R2, <- B2, <- S2, <- L2.
    repeat split; try assumption; try lia.
    all: subst dv; revert H; unfold check_and_close, close_and_settle;
      cbn [List.length Nat.eqb negb];
      destruct (existsb _ [d0; d1; d2]); [discriminate|];
      destruct (find_user_by_user_id tg (users s2)); [|discriminate];
      rewrite F, Op; cbn [negb];
      destruct (truthy (r_dice_result r0)); [discriminate|];
      fold (dice_text d0 d1 d2);
      destruct (settle_bets rid (dice_text d0 d1 d2) (now clk)
                  (with_rounds s2
                     (close_round rid (now clk) (dice_text d0 d1 d2)
                        (rounds s2))))
        as [[s3 w3]|] eqn:E; [|discriminate];
      apply (settle_bets_logs _ _ _ _ _ _ [d0; d1; d2]) in E;
      [|now apply dice_text_parses];
      destruct E as [E1 E0]; cbn [fst snd]; intros H;
      inversion H; subst w3;
      cbn [balance_logs bets settings with_rounds with_current] in *;
      congruence. }
  destruct m as [v|matches]; cbv zeta.
  - destruct (Nat.eqb _ 3); [|discriminate].
    intros H. apply K in H; try reflexivity. exact H.
  - destruct (Nat.eqb _ 3); [|discriminate].
    intros H. apply K in H; try reflexivity. exact H.
Qed.

(** X19. When [handle_dice] announces a settlement, the open round is
    closed with the three collected values as its result, exactly the
    active bets of that round carry the result and payout computed by
    the rule of [settle_bets], every other bet is untouched, and the
    announced flag tells whether some bet won. *)
Theorem announced_settlement_outcome :
  forall (s : state) (tg : Z) (m : dice_message) (clk : clock) (w : bool),
    reachable s ->
    snd (handle_dice s tg (m, clk)) = Settled w ->
    exists rid d0 d1 d2,
      snd (get_active_round s) = Some rid /\
      dice_values_of s tg m = [d0; d1; d2] /\
      1 <= d0 <= 6 /\ 1 <= d1 <= 6 /\ 1 <= d2 <= 6 /\
      rounds (fst (handle_dice s tg (m, clk)))
      = close_round rid (now clk) (dice_text d0 d1 d2) (rounds s) /\
      bets (fst (handle_dice s tg (m, clk)))
      = map (settled_row (settings s) [d0; d1; d2] rid) (bets s) /\
      w = existsb
            (fun b => is_win (fst (settle_one (settings s) [d0; d1; d2] b)))
            (active_bets_in rid (bets s)).
Proof.
  intros s tg m clk w Re H. apply reachable_Inv in Re.
  destruct Re as [_ [[N _] _]].
  destruct (handle_dice_outcome s tg m clk w N H)
    as (rid & r0 & d0 & d1 & d2 & A & _ & _ & D & X0 & X1 & X2 & R & B & _
        & W).
  exists rid, d0, d1, d2. auto 10.
Qed.

Lemma announced_settlement_outcome_witness :
  exists rid d0 d1 d2,
    snd (get_active_round (run init two_dice_in)) = Some rid /\
    dice_values_of (run init two_dice_in) 200 (BuiltinDice 5)
    = [d0; d1; d2] /\
    1 <= d0 <= 6 /\ 1 <= d1 <= 6 /\ 1 <= d2 <= 6 /\
    rounds (fst (handle_dice (run init two_dice_in) 200
                   (BuiltinDice 5, noon)))
    = close_round rid (now noon) (dice_text d0 d1 d2)
        (rounds (run init two_dice_in)) /\
    bets (fst (handle_dice (run init two_dice_in) 200 (BuiltinDice 5, noon)))
    = map (settled_row (settings (run init two_dice_in)) [d0; d1; d2] rid)
        (bets (run init two_dice_in)) /\
    true = existsb
             (fun b =>
                is_win
                  (fst (settle_one (settings (run init two_dice_in))
                          [d0; d1; d2] b)))
             (active_bets_in rid (bets (run init two_dice_in))).
Proof.
  apply (announced_settlement_outcome (run init two_dice_in) 200
           (BuiltinDice 5) noon true).
  - exists two_dice_in. reflexivity.
  - reflexivity.
Defined.

(** X20. A settlement appends one payout entry for every winning
    active bet of the round, in bet order, and nothing else, and every
    user's balance grows by exactly the total of the user's entries. *)
Theorem winners_are_credited :
  forall (s : state) (tg : Z) (m : dice_message) (clk : clock) (w : bool),
    reachable s ->
    snd (handle_dice s tg (m, clk)) = Settled w ->
    exists rid entries,
      snd (get_active_round s) = Some rid /\
      entries = payout_entries (settings s) (dice_values_of s tg m)
                  (now clk) (active_bets_in rid (bets s)) /\
      balance_logs (fst (handle_dice s tg (m, clk)))
      = (balance_logs s ++ entries)%list /\
      forall u u',
        In u (users s) ->
        In u' (users (fst (handle_dice s tg (m, clk)))) ->
        u_id u' = u_id u ->
        u_balance u' = u_balance u + ledger (u_id u) entries.
Proof.
  intros s tg m clk w Re H. apply reachable_Inv in Re.
  pose proof (step_Inv s (HandleDice tg m clk) Re) as Re'.
  unfold step, handle in Re'.
  destruct Re as [[_ [Bal _]] [[N _] _]].
  destruct Re' as [[_ [Bal' _]] _].
  destruct (handle_dice_outcome s tg m clk w N H)
    as (rid & r0 & d0 & d1 & d2 & A & _ & _ & D & _ & _ & _ & _ & _ & L
        & _).
  cbv zeta in L. rewrite <- D in L.
  eexists rid, _. split; [exact A|]. split; [reflexivity|].
  split; [exact L|].
  intros u u' Hu Hu' E.
  destruct (Bal u Hu) as [_ B1]. destruct (Bal' u' Hu') as [_ B2].
  rewrite B2, L, ledger_app, E, <- B1. reflexivity.
Qed.

Lemma winners_are_credited_witness :
  exists rid entries,
    snd (get_active_round (run init two_dice_in)) = Some rid /\
    entries
    = payout_entries (settings (run init two_dice_in))
        (dice_values_of (run init two_dice_in) 200 (BuiltinDice 5))
        (now noon) (active_bets_in rid (bets (run init two_dice_in))) /\
    balance_logs (fst (handle_dice (run init two_dice_in) 200
                         (BuiltinDice 5, noon)))
    = (balance_logs (run init two_dice_in) ++ entries)%list /\
    forall u u',
      In u (users (run init two_dice_in)) ->
      In u' (users (fst (handle_dice (run init two_dice_in) 200
                           (BuiltinDice 5, noon)))) ->
      u_id u' = u_id u ->
      u_balance u' = u_balance u + ledger (u_id u) entries.
Proof.
  apply (winners_are_credited (run init two_dice_in) 200 (BuiltinDice 5)
           noon true).
  - exists two_dice_in. reflexivity.
  - reflexivity.
Defined.

(** ** What an accepted bet writes *)

Lemma max_fold (l : list Z) (a : Z) :
  0 <= a -> fold_right Z.max a l = Z.max a (fold_right Z.max 0 l).
Proof.
  intros Ha. induction l as [|x l IH]; cbn [fold_right]; [lia|].
  rewrite IH. lia.
Qed.

Lemma next_rowid_snoc (ids : list Z) :
  next_rowid (ids ++ [next_rowid ids]) = next_rowid ids + 1.
Proof.
  unfold next_rowid. rewrite fold_right_app. cbn [fold_right].
  assert (M : 0 <= fold_right Z.max 0 ids).
  { induction ids as [|x l IH]; cbn [fold_right]; lia. }
  rewrite max_fold by lia. lia.
Qed.

Lemma place_bets_rows (uid : Z) (rid : string) (t : Z) (its : list intent)
  (bs : list bet) :
  place_bets uid rid t its bs
  = (bs ++ new_rows (next_rowid (map b_id bs)) uid rid t its)%list.
Proof.
  unfold place_bets. revert bs.
  induction its as [|i its IH]; intros bs; cbn [fold_left new_rows].
  - now rewrite app_nil_r.
  - rewrite IH, map_app. cbn [map b_id]. rewrite next_rowid_snoc.
    now rewrite <- app_assoc.
Qed.

Lemma place_accepted (s : state) (u : user) (rid text : string)
  (clk : clock) (rid' : string) (nb : Z) :
  snd (place s u rid text clk) = BetAccepted rid' nb ->
  exists its,
    parse_bet text = Some its /\ rid' = rid /\
    nb = u_balance u - sum_Z (map iamount its) /\ 0 <= nb /\
    Forall (fun i => min_bet (settings s) <= iamount i
                     <= max_bet (settings s)) its /\
    users (fst (place s u rid text clk))
    = set_balance (u_id u) nb (users s) /\
    bets (fst (place s u rid text clk))
    = (bets s ++ new_rows (next_rowid (map b_id (bets s))) (u_id u) rid
                   (now clk) its)%list /\
    balance_logs (fst (place s u rid text clk))
    = (balance_logs s
       ++ map (fun i => mk_log (u_id u) (- iamount i) bet_log 0 (now clk))
            its)%list.
Proof.
  unfold place. cbv zeta.
  destruct (parse_bet text) as [its|]; [|discriminate].
  match goal with
  | |- context [if ?a || ?b || ?c then _ else _] =>
      destruct (a || b || c); [discriminate|]
  end.
  destruct (opposing _); [discriminate|].
  destruct (u_balance u <? sum_Z (map iamount its)) eqn:Bal;
    [discriminate|].
  destruct (existsb _ its) eqn:X; [discriminate|].
  cbn [fst snd]. intros H. inversion H; subst. exists its.
  apply Z.ltb_ge in Bal.
  repeat split; try lia.
  - apply Forall_forall. intros i Hi.
    assert (K : (iamount i <? min_bet (settings s))
                || (iamount i >? max_bet (settings s)) = false).
    { destruct ((iamount i <? min_bet (settings s))
                || (iamount i >? max_bet (settings s))) eqn:Q;
        [|reflexivity].
      rewrite <- X. symmetry. apply existsb_exists. exists i. auto. }
    apply orb_false_iff in K. destruct K as [K1 K2].
    rewrite Z.gtb_ltb in K2. apply Z.ltb_ge in K1, K2. lia.
  - cbn [bets with_logs with_bets]. apply place_bets_rows.
Qed.

(** What [process_bet] has done when it accepts. *)
Lemma process_bet_accepted :
  forall (s : state) (tg : Z) (text : string) (clk : clock)
         (rid : string) (nb : Z),
    snd (process_bet s tg (text, clk)) = BetAccepted rid nb ->
    exists u its r,
      find_user_by_user_id tg (users s) = Some u /\
      parse_bet (strip text) = Some its /\
      nb = u_balance u - sum_Z (map iamount its) /\ 0 <= nb /\
      Forall (fun i => min_bet (settings s) <= iamount i
                       <= max_bet (settings s)) its /\
      In r (rounds (fst (process_bet s tg (text, clk)))) /\
      r_id r = rid /\ is_open r = true /\
      users (fst (process_bet s tg (text, clk)))
      = set_balance (u_id u) nb (users s) /\
      bets (fst (process_bet s tg (text, clk)))
      = (bets s ++ new_rows (next_rowid (map b_id (bets s))) (u_id u) rid
                     (now clk) its)%list /\
      balance_logs (fst (process_bet s tg (text, clk)))
      = (balance_logs s
         ++ map (fun i => mk_log (u_id u) (- iamount i) bet_log 0 (now clk))
              its)%list.
Proof.
  intros s tg text clk rid nb. unfold process_bet.
  destruct (negb (betting_active (settings s))); [discriminate|].
  cbv zeta.
  match goal with
  | |- context [if ?c then (s, Query) else _] =>
      destruct c; [discriminate|]
  end.
  destruct (find_user_by_user_id tg (users s)) as [u|]; [|discriminate].
  pose proof (get_active_round_frame s) as [E1 [E2 [E3 [E4 [E5 _]]]]].
  destruct (get_active_round s) as [s1 [rid0|]] eqn:G; cbn [fst] in *.
  - intros H. destruct (place_accepted _ _ _ _ _ _ _ H)
      as (its & P & -> & Nb & Pos & Rg & U & B & L).
    destruct (get_active_round_Some s s1 rid0 G) as [r [Hr [Or Ir]]].
    exists u, its, r. rewrite E4 in Rg.
    rewrite place_rounds, U, B, L, ?E1, ?E2, ?E3, ?E5.
    auto 12.
  - pose proof (create_new_round_frame (with_current s None) clk)
      as [C1 [C2 [C3 [C4 _]]]].
    destruct (create_new_round (with_current s None) clk)
      as [s2 [|rid0|]] eqn:C; cbn [fst] in *; try discriminate.
    intros H. destruct (place_accepted _ _ _ _ _ _ _ H)
      as (its & P & -> & Nb & Pos & Rg & U & B & L).
    pose proof (create_new_round_found _ _ _ _ C) as F.
    unfold find_round in F. apply find_some in F. destruct F as [Hr Ir].
    exists u, its, (mk_round rid0 (now clk) None None st_open).
    rewrite C3 in Rg. cbn [settings with_current] in Rg.
    rewrite place_rounds, U, B, L, ?C1, ?C2, ?C4.
    cbn [users bets settings balance_logs with_current].
    apply String.eqb_eq in Ir. cbn [r_id] in Ir.
    repeat split; auto.
Qed.

(** X21. An accepted bet message debits exactly the total of its
    stakes, which the balance covers, writes one active unsettled bet
    row per parsed bet, in order and with consecutive new ids, in a round
    that is open, appends one negative ledger entry per bet, and every
    stake lies within the limits. *)
Theorem accepted_bet_effect :
  forall (s : state) (tg : Z) (text : string) (clk : clock)
         (rid : string) (nb : Z),
    snd (process_bet s tg (text, clk)) = BetAccepted rid nb ->
    exists u its r,
      find_user_by_user_id tg (users s) = Some u /\
      parse_bet (strip text) = Some its /\
      nb = u_balance u - sum_Z (map iamount its) /\ 0 <= nb /\
      Forall (fun i => min_bet (settings s) <= iamount i
                       <= max_bet (settings s)) its /\
      In r (rounds (fst (process_bet s tg (text, clk)))) /\
      r_id r = rid /\ is_open r = true /\
      users (fst (process_bet s tg (text, clk)))
      = set_balance (u_id u) nb (users s) /\
      bets (fst (process_bet s tg (text, clk)))
      = (bets s ++ new_rows (next_rowid (map b_id (bets s))) (u_id u) rid
                     (now clk) its)%list /\
      balance_logs (fst (process_bet s tg (text, clk)))
      = (balance_logs s
         ++ map (fun i => mk_log (u_id u) (- iamount i) bet_log 0 (now clk))
              its)%list.
Proof. exact process_bet_accepted. Qed.

Lemma accepted_bet_effect_witness :
  exists u its r,
    find_user_by_user_id 200 (users (run init two_users)) = Some u /\
    parse_bet (strip "大1500") = Some its /\
    18500 = u_balance u - sum_Z (map iamount its) /\ 0 <= 18500 /\
    Forall (fun i => min_bet (settings (run init two_users)) <= iamount i
                     <= max_bet (settings (run init two_users))) its /\
    In r (rounds (fst (process_bet (run init two_users) 200
                         ("大1500", noon)))) /\
    r_id r = "20260101001" /\ is_open r = true /\
    users (fst (process_bet (run init two_users) 200 ("大1500", noon)))
    = set_balance (u_id u) 18500 (users (run init two_users)) /\
    bets (fst (process_bet (run init two_users) 200 ("大1500", noon)))
    = (bets (run init two_users)
       ++ new_rows (next_rowid (map b_id (bets (run init two_users))))
            (u_id u) "20260101001" (now noon) its)%list /\
    balance_logs (fst (process_bet (run init two_users) 200
                         ("大1500", noon)))
    = (balance_logs (run init two_users)
       ++ map (fun i => mk_log (u_id u) (- iamount i) bet_log 0 (now noon))
            its)%list.
Proof.
  apply (accepted_bet_effect (run init two_users) 200 "大1500" noon
           "20260101001" 18500).
  reflexivity.
Defined.

(** ** The shape of parsed bets *)















(** ** Opening and stopping the betting *)

Lemma check_pending_reachable (s : state) :
  Forall round_shape (rounds s) -> filter is_open (rounds s) = [] ->
  check_pending_round s = false.
Proof.
  unfold check_pending_round. intros R.
  induction R as [|r rs Hr R IH]; cbn [filter existsb]; [reflexivity|].
  unfold round_shape in Hr. unfold is_open at 1.
  destruct (r_status r); [discriminate | | destruct Hr].
  intros H. now rewrite (IH H).
Qed.

Lemma latest_open_some (rs : list round) (r : round) :
  latest_open (Some r) rs <> None.
Proof.
  revert r. induction rs as [|x rs IH]; intros r; cbn [latest_open];
    [discriminate|].
  destruct (is_open x); [|apply IH].
  destruct (r_start_time r <? r_start_time x); apply IH.
Qed.

Lemma get_active_round_none_open (s s1 : state) :
  get_active_round s = (s1, None) -> filter is_open (rounds s) = [].
Proof.
  unfold get_active_round.
  destruct (latest_open None (rounds s)) as [r|] eqn:L; [discriminate|].
  intros _. revert L. generalize (rounds s). intros rs.
  induction rs as [|x rs IH]; cbn [latest_open filter]; [reflexivity|].
  destruct (is_open x); [|exact IH].
  intros L. exfalso. now apply (latest_open_some rs x).
Qed.

Lemma create_new_round_not_pending (s : state) (clk : clock) :
  Forall round_shape (rounds s) -> filter is_open (rounds s) = [] ->
  snd (create_new_round s clk) <> Pending.
Proof.
  intros R H. unfold create_new_round.
  rewrite (check_pending_reachable s R H). cbv zeta.
  destruct (existsb _ (rounds s)); discriminate.
Qed.

(** X23. Creating a round never fails for a pending round: in every
    reachable state [process_bet] never answers that the round could not
    be created, and when [open_betting] reports the betting opened, the
    betting is active and an open round exists whose id it reports. *)
Theorem round_is_always_available :
  forall (es : list event) (tg : Z) (text : string) (clk : clock),
    snd (process_bet (run init es) tg (text, clk)) <> RoundCreateFailed /\
    forall o,
      snd (open_betting (run init es) tg clk) = Opened o ->
      betting_active (settings (fst (open_betting (run init es) tg clk)))
      = true /\
      exists rid r,
        o = Some rid /\
        In r (rounds (fst (open_betting (run init es) tg clk))) /\
        r_id r = rid /\ is_open r = true.
Proof.
  intros es tg text clk.
  destruct (run_lifecycle es init init_Inv init_lifecycle) as [R _].
  set (s := run init es) in *. split.
  - unfold process_bet.
    destruct (negb (betting_active (settings s))); [discriminate|].
    cbv zeta.
    match goal with
    | |- context [if ?c then (s, Query) else _] =>
        destruct c; [discriminate|]
    end.
    destruct (find_user_by_user_id tg (users s)) as [u|]; [|discriminate].
    destruct (get_active_round s) as [s1 [rid|]] eqn:G.
    + unfold place. cbv zeta. repeat case_match; discriminate.
    + apply get_active_round_none_open in G.
      pose proof (create_new_round_not_pending (with_current s None) clk
                    R G) as NP.
      destruct (create_new_round (with_current s None) clk)
        as [s2 [|rid|]]; cbn [snd] in *; try discriminate.
      * now exfalso.
      * unfold place. cbv zeta. repeat case_match; discriminate.
  - intros o. unfold open_betting, admin_required.
    destruct (find_user_by_user_id tg (users s)) as [u|]; [|discriminate].
    destruct (negb (u_is_admin u) && negb (u_is_super_admin u));
      [discriminate|].
    unfold open_betting_body.
    destruct (betting_active (settings s)); [discriminate|].
    pose proof (get_active_round_frame (set_betting_status true s))
      as [_ [_ [E3 [E4 _]]]].
    destruct (get_active_round (set_betting_status true s))
      as [s2 [rid|]] eqn:G; cbn [fst snd] in *.
    + intros H. inversion H; subst o. split; [now rewrite E4|].
      destruct (get_active_round_Some _ _ _ G) as [r [Hr [Or Ir]]].
      exists rid, r. rewrite E3. auto.
    + pose proof (create_new_round_frame s2 clk) as [_ [_ [C3 _]]].
      assert (NP : snd (create_new_round s2 clk) <> Pending).
      { apply create_new_round_not_pending; rewrite E3; [exact R|].
        now apply get_active_round_none_open in G. }
      destruct (create_new_round s2 clk) as [s3 [|rid|]] eqn:C;
        cbn [fst snd] in *; try discriminate.
      * now exfalso.
      * intros H. inversion H; subst o. split; [now rewrite C3, E4|].
        apply create_new_round_found in C.
        unfold find_round in C. apply find_some in C.
        destruct C as [Hr Ir]. apply String.eqb_eq in Ir.
        eexists rid, _. split; [reflexivity|].
        split; [exact Hr|]. split; [exact Ir | reflexivity].
Qed.

Lemma round_is_always_available_witness :
  betting_active (settings (fst (open_betting stopped_scene 100 noon)))
  = true /\
  exists rid r,
    Some "20260101001" = Some rid /\
    In r (rounds (fst (open_betting stopped_scene 100 noon))) /\
    r_id r = rid /\ is_open r = true.
Proof.
  destruct (round_is_always_available (one_big_bet ++ [StopBetting 100])
              100 "" noon) as [_ H].
  apply (H (Some "20260101001")). reflexivity.
Defined.

Lemma write_result_ids (bid : Z) (r : bet_result) (p : Z) (bs : list bet) :
  map b_id (write_result bid r p bs) = map b_id bs.
Proof.
  unfold write_result. rewrite map_map. apply map_ext.
  intros b. destruct (b_id b =? bid); reflexivity.
Qed.

(** Only [process_bet] with the betting active adds a bet, and only
    [open_betting] activates the betting. *)
Lemma step_while_stopped (s : state) (e : event) :
  betting_active (settings s) = false -> is_open_betting e = false ->
  betting_active (settings (step s e)) = false /\
  map b_id (bets (step s e)) = map b_id (bets s).
Proof.
  intros Off Ne. unfold step.
  set (P := fun s' : state =>
              betting_active (settings s') = false /\
              map b_id (bets s') = map b_id (bets s)).
  assert (O : P s) by (split; [exact Off | reflexivity]).
  change (P (fst (handle s e))).
  destruct e; try discriminate Ne; unfold handle.
  - unfold start. repeat case_match; exact O.
  - apply (admin_required_preserves P); [|exact O].
    intros _. unfold adjust_balance_body. repeat case_match; exact O.
  - apply (admin_required_preserves P); [|exact O].
    intros _. unfold deduct_by_username_body. repeat case_match; exact O.
  - apply (super_admin_required_preserves P); [|exact O].
    intros _. unfold clear_all_balances_body. repeat case_match; exact O.
  - apply (admin_required_preserves P); [|exact O].
    intros _. unfold stop_betting_body. rewrite Off. exact O.
  - unfold process_bet. rewrite Off. exact O.
  - unfold handle_dice.
    pose proof (get_active_round_frame s) as [_ [E2 [_ [E4 _]]]].
    destruct (get_active_round s) as [s1 [rid|]]; cbn [fst] in E2, E4;
      [|exact O].
    assert (K : forall s2 dv,
               bets s2 = bets s -> settings s2 = settings s ->
               P (fst (check_and_close s2 tg rid dv clk))).
    { intros s2 dv B2 S2. unfold check_and_close, close_and_settle.
      assert (O2 : P s2) by (unfold P; now rewrite B2, S2).
      repeat (case_match; try exact O2).
      match goal with
      | H : settle_bets _ _ _ _ = Some _ |- _ =>
          pose proof (settle_bets_rounds _ _ _ _ _ _ H) as [_ [Ss _]];
          apply (settle_bets_keeps
                   (fun bs => map b_id bs = map b_id (bets s))) in H;
          [ split; [cbn in Ss |- *; now rewrite Ss, S2 | exact H]
          | intros; now rewrite write_result_ids
          | cbn; now rewrite B2 ]
      end. }
    destruct message as [v|matches]; cbv zeta; case_match;
      try (unfold P; cbn; now rewrite E2, E4); now apply K.
  - unfold cancel_bet.
    destruct (find_user_by_user_id tg (users s)) as [u|]; [|exact O].
    pose proof (get_active_round_frame s) as [_ [E2 [_ [E4 _]]]].
    destruct (get_active_round s) as [s1 [rid|]]; cbn [fst] in E2, E4;
      [|exact O].
    assert (O1 : P s1) by (unfold P; now rewrite E2, E4).
    cbv zeta. case_match; [|exact O1]. case_match; [exact O1|].
    destruct reply_to_message as [replied_text|].
    + destruct (parse_bet replied_text) as [bet_info|]; [|exact O1].
      pose proof (cancel_fold_keeps
                    (fun bs => map b_id bs = map b_id (bets s))
                    (u_id u) rid (now clk) bet_info (bets s1, [], 0)) as Q.
      cbn [fst] in Q.
      destruct (fold_left _ bet_info _) as [[bs entries] total].
      case_match; [|exact O1].
      split; [cbn; now rewrite E4|].
      cbn [fst bets with_users with_logs with_bets].
      apply Q; [|now rewrite E2].
      intros bid bs0 H0. now rewrite cancel_by_id_ids.
    + destruct (active_bets_of (u_id u) rid (bets s1)) as [|b0 sel];
        [exact O1|].
      case_match; [|exact O1].
      split; [cbn; now rewrite E4|].
      cbn [fst bets with_users with_logs with_bets].
      apply (cancel_all_keeps (fun bs => map b_id bs = map b_id (bets s)));
        [|now rewrite E2].
      intros bid bs0 H0. now rewrite cancel_by_id_ids.
  - apply (admin_required_preserves P); [|exact O].
    unfold set_bet_limits_body. repeat case_match; intros; exact O.
  - apply (super_admin_required_preserves P); [|exact O].
    unfold set_odds_value_body. repeat case_match; intros; try exact O;
      (split; [exact Off | reflexivity]).
  - apply (admin_required_preserves P); [|exact O].
    unfold set_allow_irrelevant_body. repeat case_match; intros; exact O.
  - apply (super_admin_required_preserves P); [|exact O].
    intros _. unfold change_admin_body. repeat case_match; exact O.
Qed.

(** X24. While the betting is stopped no bet is added: until an
    administrator opens the betting again the flag stays off and the
    bets table gets no new row, whatever else is sent; dice and
    cancellations still work on the bets that exist. *)
Theorem stopped_betting_adds_no_bet :
  forall (s : state) (es : list event),
    betting_active (settings s) = false ->
    forallb (fun e => negb (is_open_betting e)) es = true ->
    betting_active (settings (run s es)) = false /\
    map b_id (bets (run s es)) = map b_id (bets s).
Proof.
  intros s es. revert s.
  induction es as [|e es IH]; intros s Off H; cbn [run fold_left];
    [auto|].
  cbn [forallb] in H. apply andb_true_iff in H. destruct H as [H1 H2].
  apply negb_true_iff in H1.
  destruct (step_while_stopped s e Off H1) as [Off' Ids].
  destruct (IH (step s e) Off' H2) as [A B].
  split; [exact A|]. unfold run in B. now rewrite B.
Qed.

Lemma stopped_betting_adds_no_bet_witness :
  betting_active (settings (run stopped_scene while_stopped)) = false /\
  map b_id (bets (run stopped_scene while_stopped))
  = map b_id (bets stopped_scene).
Proof.
  apply (stopped_betting_adds_no_bet stopped_scene while_stopped);
    reflexivity.
Defined.

(** ** The total of the balances *)





(** ** Taking a bet back *)









(** ** The rule for dice that are no triple *)

Lemma str_injective_on_sums (n m : Z) :
  3 <= n <= 18 -> 3 <= m <= 18 ->
  String.eqb (str n) (str m) = (n =? m).
Proof.
  intros Hn Hm.
  assert (En : n = 3 \/ n = 4 \/ n = 5 \/ n = 6 \/ n = 7 \/ n = 8 \/ n = 9 \/
               n = 10 \/ n = 11 \/ n = 12 \/ n = 13 \/ n = 14 \/ n = 15 \/
               n = 16 \/ n = 17 \/ n = 18) by lia.
  assert (Em : m = 3 \/ m = 4 \/ m = 5 \/ m = 6 \/ m = 7 \/ m = 8 \/ m = 9 \/
               m = 10 \/ m = 11 \/ m = 12 \/ m = 13 \/ m = 14 \/ m = 15 \/
               m = 16 \/ m = 17 \/ m = 18) by lia.
  clear Hn Hm.
  repeat (destruct En as [-> | En]); try subst n;
    repeat (destruct Em as [-> | Em]); try subst m; reflexivity.
Qed.

Lemma odd_test (total : Z) : (total mod 2 =? 1) = Z.odd total.
Proof.
  rewrite Zmod_odd. destruct (Z.odd total); reflexivity.
Qed.

Lemma settle_one_ordinary (c : settings_row) (dn : list Z) (b : bet) :
  is_leopard dn = false ->
  settle_one c dn b = ordinary_rule c (sum_Z dn) b.
Proof.
  intros NL. unfold settle_one, ordinary_rule. cbv zeta. rewrite NL.
  unfold size_of, odd_even_of. rewrite odd_test.
  rewrite <- (Z.negb_odd (sum_Z dn)).
  assert (G : (sum_Z dn >? 10) = (11 <=? sum_Z dn)).
  { rewrite Z.gtb_ltb. destruct (11 <=? sum_Z dn) eqn:E.
    - apply Z.leb_le in E. apply Z.ltb_lt. lia.
    - apply Z.leb_gt in E. apply Z.ltb_ge. lia. }
  assert (G' : (sum_Z dn <=? 10) = negb (11 <=? sum_Z dn)).
  { destruct (11 <=? sum_Z dn) eqn:E.
    - apply Z.leb_le in E. apply Z.leb_gt. lia.
    - apply Z.leb_gt in E. apply Z.leb_le. lia. }
  rewrite G, G'. unfold mem, size_parity. cbn [existsb].
  destruct (String.eqb (b_type b) "大") eqn:E1.
  { apply String.eqb_eq in E1. rewrite E1.
    destruct (11 <=? sum_Z dn), (Z.odd (sum_Z dn)); reflexivity. }
  destruct (String.eqb (b_type b) "小") eqn:E2.
  { apply String.eqb_eq in E2. rewrite E2.
    destruct (11 <=? sum_Z dn), (Z.odd (sum_Z dn)); reflexivity. }
  destruct (String.eqb (b_type b) "单") eqn:E3.
  { apply String.eqb_eq in E3. rewrite E3.
    destruct (11 <=? sum_Z dn), (Z.odd (sum_Z dn)); reflexivity. }
  destruct (String.eqb (b_type b) "双") eqn:E4.
  { apply String.eqb_eq in E4. rewrite E4.
    destruct (11 <=? sum_Z dn), (Z.odd (sum_Z dn)); reflexivity. }
  cbn [orb andb].
  destruct (String.eqb (b_type b) "和值"); cbn [andb]; reflexivity.
Qed.

(** X27. On dice that are not all equal a bet on 大 wins when the sum
    is at least 11 and a bet on 小 when it is at most 10, a bet on 单 when
    the sum is odd and on 双 when it is even, each paying the stake times
    the size odds; a sum bet wins when its value is the text of the sum,
    which for a value parsed from a number between 3 and 18 means that the
    number equals the sum, and pays the stake times the sum odds; a triple
    bet and any other type lose. *)
Theorem ordinary_settlement_rule :
  forall (c : settings_row) (d0 d1 d2 : Z) (b : bet),
    1 <= d0 <= 6 -> 1 <= d1 <= 6 -> 1 <= d2 <= 6 ->
    ~ (d0 = d1 /\ d0 = d2) ->
    settle_one c [d0; d1; d2] b = ordinary_rule c (d0 + d1 + d2) b /\
    forall n, 3 <= n <= 18 ->
              String.eqb (str n) (str (d0 + d1 + d2)) = (n =? d0 + d1 + d2).
Proof.
  intros c d0 d1 d2 b H0 H1 H2 NT. split.
  - replace (d0 + d1 + d2) with (sum_Z [d0; d1; d2])
      by (unfold sum_Z; cbn [fold_right]; lia).
    apply settle_one_ordinary. unfold is_leopard. cbn [forallb].
    destruct (d0 =? d1) eqn:E1; [|reflexivity].
    destruct (d0 =? d2) eqn:E2; [|reflexivity].
    apply Z.eqb_eq in E1, E2. exfalso. auto.
  - intros n Hn. apply str_injective_on_sums; lia.
Qed.

Lemma ordinary_settlement_rule_witness :
  settle_one default_settings [3; 4; 5] sum_bet_12
  = ordinary_rule default_settings (3 + 4 + 5) sum_bet_12 /\
  forall n, 3 <= n <= 18 ->
            String.eqb (str n) (str (3 + 4 + 5)) = (n =? 3 + 4 + 5).
Proof.
  apply (ordinary_settlement_rule default_settings 3 4 5 sum_bet_12);
    lia.
Defined.

(** X28. The dice result text round trip: the text [handle_dice]
    stores for three dice between 1 and 6 is read back by [settle_bets]
    as the same three numbers. *)
Theorem dice_result_round_trip :
  forall d0 d1 d2 : Z,
    1 <= d0 <= 6 -> 1 <= d1 <= 6 -> 1 <= d2 <= 6 ->
    map_int (split_comma (str d0 ++ "," ++ str d1 ++ "," ++ str d2))
    = Some [d0; d1; d2].
Proof. exact dice_text_parses. Qed.

Lemma dice_result_round_trip_witness :
  map_int (split_comma (str 3 ++ "," ++ str 4 ++ "," ++ str 5))
  = Some [3; 4; 5].
Proof.
  apply (dice_result_round_trip 3 4 5); lia.
Defined.
(** ** Cancelling the bets of a quoted message *)






